(** * Crisp: packet codec, signatures, Merkle digest, vector clock and
    conflict resolution of [Crisp.py], as a shallow embedding.

    Python values are modelled as follows: [int] as [Z], [bytes] as
    [list byte], [str] as [string], [float] clock readings and reputation
    weights as [Q], a [dict] as a [gmap] (or as an association list in
    insertion order where the code iterates or sorts it), an exception as
    a [Raise] result.  The two libraries the code calls for hashing are
    written out ([crc32c], [sha256]); the ECDSA library is a parameter.

    The file has four parts: the model of the code, the vocabulary of
    the statements, the properties of the specification, and further
    properties of the code. *)

From Stdlib Require Import ZArith QArith List Bool Lia Sorted.
From Stdlib Require Floats.SpecFloat.
From Stdlib Require Import Strings.Byte.
From stdpp Require Import gmap strings pretty list.
Import ListNotations.

Local Open Scope Z_scope.

(** * Part 1: the model *)

(** ** Bytes *)

Abbreviation bytes := (list byte).

#[global] Instance byte_eq_decision : EqDecision byte := Byte.byte_eq_dec.

Definition Z_of_byte (b : byte) : Z := Z.of_N (Byte.to_N b).

Definition byte_of_Z (z : Z) : byte :=
  match Byte.of_N (Z.to_N (z mod 256)) with
  | Some b => b
  | None => x00
  end.

(** Big-endian encoding of [z] on [n] bytes (the low [8 * n] bits). *)
Fixpoint be_bytes (n : nat) (z : Z) : bytes :=
  match n with
  | O => []
  | S k => be_bytes k (z / 256) ++ [byte_of_Z z]
  end.

Definition be_to_Z (bs : bytes) : Z :=
  fold_left (fun acc b => acc * 256 + Z_of_byte b) bs 0.

Definition bytes_eqb (a b : bytes) : bool :=
  bool_decide (a = b).

(** ** Python slices

    [l[lo:hi]] with integer bounds: a negative bound counts from the end,
    and every bound is clipped to [0, len l]. *)

Definition norm_index (len i : Z) : nat :=
  Z.to_nat (if i <? 0 then Z.max (len + i) 0 else Z.min i len).

Definition py_slice {A} (lo hi : option Z) (l : list A) : list A :=
  let len := Z.of_nat (length l) in
  let a := match lo with Some i => norm_index len i | None => O end in
  let b := match hi with Some i => norm_index len i | None => length l end in
  firstn (b - a) (skipn a l).

(** [l[:hi]], [l[lo:]] and [l[lo:hi]]. *)
Definition slice_to {A} (hi : Z) (l : list A) := py_slice None (Some hi) l.
Definition slice_from {A} (lo : Z) (l : list A) := py_slice (Some lo) None l.
Definition slice {A} (lo hi : Z) (l : list A) := py_slice (Some lo) (Some hi) l.

(** ** crc32c.crc32: CRC-32C (Castagnoli), reflected, bit by bit *)

Module Crc32c.

Definition poly : Z := 0x82F63B78.

Definition step_bit (crc : Z) : Z :=
    if Z.testbit crc 0 then Z.lxor (Z.shiftr crc 1) poly else Z.shiftr crc 1.

Definition step_byte (crc : Z) (b : byte) : Z :=
    Nat.iter 8 step_bit (Z.lxor crc (Z_of_byte b)).

Definition crc32 (data : bytes) : Z :=
    Z.lxor (fold_left step_byte data 0xFFFFFFFF) 0xFFFFFFFF.

End Crc32c.

(** ** hashlib.sha256 (FIPS 180-4)

    The round constants are the first 32 bits of the fractional parts of
    the cube roots of the first 64 primes, the initial hash value those of
    the square roots of the first 8 primes (FIPS 180-4, 4.2.2 and 5.3.3);
    both tables are computed here from that definition. *)

Module Sha256.

Definition mask32 : Z := 0xFFFFFFFF.
Definition w32 (z : Z) : Z := Z.land z mask32.
Definition add32 (a b : Z) : Z := w32 (a + b).
Definition rotr (n x : Z) : Z :=
  Z.lor (Z.shiftr x n) (w32 (Z.shiftl x (32 - n))).
Definition not32 (x : Z) : Z := Z.lxor x mask32.

Definition Ch (x y z : Z) := Z.lxor (Z.land x y) (Z.land (not32 x) z).
Definition Maj (x y z : Z) :=
  Z.lxor (Z.lxor (Z.land x y) (Z.land x z)) (Z.land y z).
Definition Sigma0 x := Z.lxor (Z.lxor (rotr 2 x) (rotr 13 x)) (rotr 22 x).
Definition Sigma1 x := Z.lxor (Z.lxor (rotr 6 x) (rotr 11 x)) (rotr 25 x).
Definition sigma0 x := Z.lxor (Z.lxor (rotr 7 x) (rotr 18 x)) (Z.shiftr x 3).
Definition sigma1 x := Z.lxor (Z.lxor (rotr 17 x) (rotr 19 x)) (Z.shiftr x 10).

Definition is_prime (n : Z) : bool :=
  (1 <? n) && forallb (fun d => negb (n mod Z.of_nat d =? 0)) (seq 2 (Z.to_nat n - 2)).

Definition primes_below (n : nat) : list Z :=
  filter (fun p => is_prime p = true) (map Z.of_nat (seq 0 n)).

(** The integer cube root, one bit at a time from bit [bits - 1] down. *)
Fixpoint cbrt_bits (bits : nat) (n r : Z) : Z :=
  match bits with
  | O => r
  | S k =>
      let r' := r + 2 ^ Z.of_nat k in
      cbrt_bits k n (if r' * r' * r' <=? n then r' else r)
  end.

Definition frac32_cbrt (p : Z) : Z := w32 (cbrt_bits 40 (p * 2 ^ 96) 0).
Definition frac32_sqrt (p : Z) : Z := w32 (Z.sqrt (p * 2 ^ 64)).

Definition K : list Z := Eval vm_compute in map frac32_cbrt (primes_below 312).
Definition H0 : list Z := Eval vm_compute in map frac32_sqrt (primes_below 20).

(** Padding: a 1 bit, zeros up to 56 mod 64, the bit length on 8 bytes. *)
Definition pad (msg : bytes) : bytes :=
  let n := Z.of_nat (length msg) in
  let zeros := Z.to_nat ((55 - n) mod 64) in
  msg ++ [x80] ++ repeat x00 zeros ++ be_bytes 8 (8 * n).

Fixpoint chunks (fuel n : nat) (l : bytes) : list bytes :=
  match fuel with
  | O => []
  | S fuel' =>
      match l with
      | [] => []
      | _ => firstn n l :: chunks fuel' n (skipn n l)
      end
  end.

(** The message schedule, most recent word first. *)
Fixpoint schedule (n : nat) (rev_w : list Z) : list Z :=
  match n with
  | O => rev_w
  | S k =>
      let w := add32 (add32 (sigma1 (nth 1 rev_w 0)) (nth 6 rev_w 0))
                     (add32 (sigma0 (nth 14 rev_w 0)) (nth 15 rev_w 0)) in
      schedule k (w :: rev_w)
  end.

Definition round (st : list Z) (kw : Z * Z) : list Z :=
  match st with
  | [a; b; c; d; e; f; g; h] =>
      let t1 := add32 (add32 (add32 h (Sigma1 e)) (add32 (Ch e f g) (fst kw))) (snd kw) in
      let t2 := add32 (Sigma0 a) (Maj a b c) in
      [add32 t1 t2; a; b; c; add32 d t1; e; f; g]
  | _ => st
  end.

Definition compress (h : list Z) (block : bytes) : list Z :=
  let w16 := map be_to_Z (chunks 16 4 block) in
  let w := rev (schedule 48 (rev w16)) in
  let st := fold_left round (combine K w) h in
  map (fun p => add32 (fst p) (snd p)) (combine h st).

Definition sha256 (msg : bytes) : bytes :=
  let padded := pad msg in
  let blocks := chunks (length padded) 64 padded in
  concat (map (be_bytes 4) (fold_left compress blocks H0)).

End Sha256.

Abbreviation crc32 := Crc32c.crc32.
Abbreviation sha256 := Sha256.sha256.

Definition ascii_bytes (s : string) : bytes := String.list_byte_of_string s.

(** ** Exceptions and results *)

Inductive exn : Type :=
| ValueError (msg : string)
| StructError
| NameError (name : string)
| TypeError
| AttributeError
| IndexError
| KeyError.

Inductive result (A : Type) : Type :=
| Ok (a : A)
| Raise (e : exn).
Arguments Ok {A} a.
Arguments Raise {A} e.

#[global] Instance result_ret : MRet result := fun _ a => Ok a.
#[global] Instance result_bind : MBind result := fun _ _ f r =>
  match r with
  | Ok a => f a
  | Raise e => Raise e
  end.

#[global] Instance result_fmap : FMap result := fun _ _ f r =>
  match r with
  | Ok a => Ok (f a)
  | Raise e => Raise e
  end.

Definition is_ok {A} (r : result A) : bool :=
  match r with Ok _ => true | Raise _ => false end.

(** ** The [struct] module, for the format characters the code uses

    All formats of the code start with [!]: network byte order, standard
    sizes, no padding between fields. *)

Module Struct.

Inductive field : Type :=
| fB               (* B: unsigned char, 1 byte *)
| fH               (* H: unsigned short, 2 bytes *)
| fI               (* I: unsigned int, 4 bytes *)
| fQ               (* Q: unsigned long long, 8 bytes *)
| fS (n : nat).    (* ns: n bytes *)

Inductive value : Type :=
| SInt (z : Z)
| SBytes (b : bytes).

Definition field_size (f : field) : nat :=
  match f with
  | fB => 1
  | fH => 2
  | fI => 4
  | fQ => 8
  | fS n => n
  end.

Definition calcsize (fmt : list field) : nat :=
  fold_right (fun f n => (field_size f + n)%nat) O fmt.

(** An integer out of the field's range, or an argument of the wrong
    kind, is a [struct.error]; [ns] truncates or pads with zero bytes. *)
Definition pack_field (f : field) (v : value) : option bytes :=
  match f, v with
  | fS n, SBytes b => Some (firstn n (b ++ repeat x00 n))
  | fS _, SInt _ => None
  | _, SInt z =>
      if (0 <=? z) && (z <? 256 ^ Z.of_nat (field_size f))
      then Some (be_bytes (field_size f) z)
      else None
  | _, SBytes _ => None
  end.

Fixpoint pack_fields (fmt : list field) (vs : list value) : option bytes :=
  match fmt, vs with
  | [], [] => Some []
  | f :: fmt', v :: vs' =>
      match pack_field f v, pack_fields fmt' vs' with
      | Some b, Some rest => Some (b ++ rest)
      | _, _ => None
      end
  | _, _ => None
  end.

Definition pack (fmt : list field) (vs : list value) : result bytes :=
  match pack_fields fmt vs with
  | Some b => Ok b
  | None => Raise StructError
  end.

Definition unpack_field (f : field) (b : bytes) : value :=
  match f with
  | fS _ => SBytes b
  | _ => SInt (be_to_Z b)
  end.

Fixpoint unpack_fields (fmt : list field) (buf : bytes) : list value :=
  match fmt with
  | [] => []
  | f :: fmt' =>
      unpack_field f (firstn (field_size f) buf)
      :: unpack_fields fmt' (skipn (field_size f) buf)
  end.

(** [struct.unpack] requires a buffer of exactly [calcsize fmt] bytes. *)
Definition unpack (fmt : list field) (buf : bytes) : result (list value) :=
  if bool_decide (length buf = calcsize fmt)
  then Ok (unpack_fields fmt buf)
  else Raise StructError.

End Struct.
Import Struct.

Definition len {A} (l : list A) : Z := Z.of_nat (length l).

(** ** CrispPacket *)

(** [int(time.time() * 1000)]: truncation towards zero. *)
Definition time_ms (now : Q) : Z :=
  Z.quot (Qnum now * 1000) (Z.pos (Qden now)).

Record CrispPacket : Type := mkPacket {
  type_id : Z;
  sequence : Z;
  payload : bytes;
  checksum_type : Z;
  checksum : bytes;
  timestamp : Q;
  retry_count : Z
}.

Definition HEADER_FORMAT : list field := [fB; fH; fI; fS 4].
Definition HEADER_SIZE : Z := 12.

(** [_calculate_checksum]; [struct.pack("!I", crc)] is [be_bytes 4 crc]
    (a CRC is always in range, see [pack_crc32]). *)
Definition calculate_checksum (ctype : Z) (data : bytes) : bytes :=
  if ctype =? 0x01 then be_bytes 4 (crc32 data)
  else slice_to 4 (sha256 data).

Definition _calculate_checksum (p : CrispPacket) : bytes :=
  calculate_checksum (checksum_type p) (payload p).

(** [CrispPacket(type_id, payload, sequence, checksum_type)] at clock
    reading [now]; [sequence or ...] takes the clock for [None] and [0]. *)
Definition new_packet (now : Q) (tid : Z) (data : bytes)
    (seq : option Z) (ctype : Z) : CrispPacket :=
  {| type_id := tid;
     sequence := match seq with
                 | Some s => if s =? 0 then time_ms now else s
                 | None => time_ms now
                 end;
     payload := data;
     checksum_type := ctype;
     checksum := calculate_checksum ctype data;
     timestamp := now;
     retry_count := 0 |}.

Definition encode (p : CrispPacket) : result bytes :=
  header ← pack HEADER_FORMAT
             [SInt (type_id p); SInt (len (payload p) + HEADER_SIZE);
              SInt (sequence p); SBytes (checksum p)];
  Ok (header ++ payload p).

Definition decode (now : Q) (data : bytes) : result CrispPacket :=
  if len data <? HEADER_SIZE then Raise (ValueError "Packet too short")
  else
    vals ← unpack HEADER_FORMAT (slice_to HEADER_SIZE data);
    match vals with
    | [SInt tid; SInt total; SInt seq; SBytes _] =>
        let data' := slice HEADER_SIZE total data in
        let packet := new_packet now tid data' (Some seq) 0x01 in
        if negb (bytes_eqb (checksum packet) (_calculate_checksum packet))
        then Raise (ValueError "Checksum mismatch")
        else Ok packet
    | _ => Raise StructError
    end.

Definition needs_ack (p : CrispPacket) : bool :=
  bool_decide (type_id p ∈
    [0x60; 0x61; 0x63; 0x67; 0x68; 0x69; 0x6A; 0x6B; 0x6C; 0x6D; 0x6E; 0x6F; 0x70]).

(** [time.time() - self.timestamp > 5] *)
Definition is_expired (now : Q) (p : CrispPacket) : bool :=
  negb (Qle_bool (now - timestamp p) 5).

Definition create_error_response (now : Q) (correlation_id original_type error_code : Z)
    (error_message : string) : result CrispPacket :=
  let msg_bytes := ascii_bytes error_message in
  head ← pack [fQ; fB; fH; fH]
           [SInt correlation_id; SInt original_type; SInt error_code; SInt (len msg_bytes)];
  Ok (new_packet now 0xE0 (head ++ msg_bytes) None 0x01).

(** ** MerkleTree *)

Record MerkleTree : Type := { leaves : list bytes }.

Definition add_leaf (entry : bytes) (t : MerkleTree) : MerkleTree :=
  {| leaves := leaves t ++ [sha256 entry] |}.

(** One pass of the [for i in range(0, len(leaves), 2)] loop: every
    [leaves[i:i+2]] is joined and hashed; the last slice of an odd level
    holds a single node. *)
Fixpoint reduce_level (l : list bytes) : list bytes :=
  match l with
  | [] => []
  | [a] => [sha256 (concat [a])]
  | a :: b :: rest => sha256 (concat [a; b]) :: reduce_level rest
  end.

(** [while len(leaves) > 1], at most [fuel] passes. *)
Fixpoint reduce_loop (fuel : nat) (l : list bytes) : list bytes :=
  match fuel with
  | O => l
  | S k => if 1 <? len l then reduce_loop k (reduce_level l) else l
  end.

Definition get_root (t : MerkleTree) : bytes :=
  match leaves t with
  | [] => repeat x00 32
  | l => hd [] (reduce_loop (length l) l)
  end.

(** ** Python helpers: ordered dicts, [sorted], truthiness *)

(** A [dict] iterated in insertion order, as an association list with
    unique keys. *)
Definition dict_get {V} (d : list (string * V)) (k : string) (default : V) : V :=
  match List.find (fun kv => String.eqb (fst kv) k) d with
  | Some kv => snd kv
  | None => default
  end.

(** [d[k] = v]: an existing key keeps its position, a new key goes last. *)
Fixpoint dict_set {V} (k : string) (v : V) (d : list (string * V)) : list (string * V) :=
  match d with
  | [] => [(k, v)]
  | kv :: d' => if String.eqb (fst kv) k then (k, v) :: d' else kv :: dict_set k v d'
  end.

(** [sorted(l, key=key, reverse=True)]: descending, and stable (elements
    with equal keys keep their order). *)
Section Sorted.
Context {A K : Type} (leb : K → K → bool) (key : A → K).

Fixpoint insert_desc (x : A) (l : list A) : list A :=
  match l with
  | [] => [x]
  | y :: l' => if leb (key y) (key x) then x :: y :: l' else y :: insert_desc x l'
  end.

Definition sorted_desc (l : list A) : list A :=
  fold_right insert_desc [] l.
End Sorted.

(** Values found in [storage]: encoded packets, and whatever a peer
    layer wrote under other keys ([True] is the integer 1). *)
Inductive pyval : Type :=
| PBytes (b : bytes)
| PInt (z : Z).

Definition truthy (v : pyval) : bool :=
  match v with
  | PBytes b => negb (bool_decide (b = []))
  | PInt z => negb (z =? 0)
  end.

(** ** The ECDSA library (cryptography.hazmat), a parameter

    [ecdsa_sign key nonce msg] is the DER signature [private_key.sign]
    returns when the library draws [nonce]; [ecdsa_check] is the curve
    equation on a DER signature.  [pub.verify] parses the signature
    first, so it raises on bytes that are not a DER [SEQUENCE]
    (tag [0x30]). *)
Record EcdsaLib : Type := {
  PrivateKey : Type;
  PublicKey : Type;
  public_key_of : PrivateKey → PublicKey;
  ecdsa_sign : PrivateKey → Z → bytes → bytes;
  ecdsa_check : PublicKey → bytes → bytes → bool
}.

(** What one call reads from its environment: the clock, and the nonce
    the signing library draws.  The readings of [time.time()] within one
    call are taken to be equal; time passes between calls. *)
Record World : Type := { now : Q; nonce : Z }.

Record CrispConfig : Type := {
  use_vector_clocks : bool;
  use_quorums : bool;
  use_hierarchical_gossip : bool;
  compression : string
}.

Definition default_config : CrispConfig :=
  {| use_vector_clocks := true; use_quorums := true;
     use_hierarchical_gossip := true; compression := "huffman" |}.

(** ** LRUCache and BTree *)

Record LRUCache : Type := {
  cache : gmap string bytes;
  order : list string;
  max_size : Z
}.

Fixpoint list_remove (k : string) (l : list string) : option (list string) :=
  match l with
  | [] => None
  | x :: l' => if String.eqb x k then Some l'
               else option_map (cons x) (list_remove k l')
  end.

Definition lru_put (k : string) (v : bytes) (c : LRUCache) : result LRUCache :=
  c' ← (if bool_decide (is_Some (cache c !! k)) then
          match list_remove k (order c) with
          | Some o => Ok {| cache := cache c; order := o; max_size := max_size c |}
          | None => Raise (ValueError "list.remove(x): x not in list")
          end
        else if max_size c <=? Z.of_nat (size (cache c)) then
          match order c with
          | [] => Raise IndexError
          | old :: o =>
              if bool_decide (is_Some (cache c !! old)) then
                Ok {| cache := delete old (cache c); order := o; max_size := max_size c |}
              else Raise KeyError
          end
        else Ok c);
  Ok {| cache := <[k := v]> (cache c'); order := order c' ++ [k]; max_size := max_size c' |}.

Definition btree_insert (k : Z) (v : bytes) (t : gmap Z bytes) : gmap Z bytes :=
  <[k := v]> t.

(** ** SKCManager *)

Section Manager.
Context (L : EcdsaLib).

(** The attributes the methods below read or write ([public_key] is
    [public_key_of private_key]). *)
Record SKCManager : Type := {
  node_id : string;
  config : CrispConfig;
  private_key : PrivateKey L;
  skc_version : Z;
  vector_clock : option (list (string * Z));
  reputation : gmap string Q;
  quorum_threshold : Z;
  merkle_tree : MerkleTree;
  storage : gmap string pyval;
  lru_cache : LRUCache;
  access_counts : gmap string Z;
  b_tree : gmap Z bytes;
  neighbors : list string
}.

Definition public_key (m : SKCManager) : PublicKey L :=
  public_key_of L (private_key m).

(** [SKCManager(node_id, config, private_key)] *)
Definition init (node : string) (cfg : CrispConfig) (priv : PrivateKey L) : SKCManager :=
  {| node_id := node;
     config := cfg;
     private_key := priv;
     skc_version := 1;
     vector_clock := if use_vector_clocks cfg then Some [(node, 0)] else None;
     reputation := {[ node := 1%Q ]};
     quorum_threshold := if use_quorums cfg then 3 else 1;
     merkle_tree := {| leaves := [] |};
     storage := ∅;
     lru_cache := {| cache := ∅; order := []; max_size := 1000 |};
     access_counts := ∅;
     b_tree := ∅;
     neighbors := ["node2"; "node3"] |}.

Definition with_vector_clock (vc : option (list (string * Z))) (m : SKCManager) :=
  {| node_id := node_id m; config := config m; private_key := private_key m;
     skc_version := skc_version m; vector_clock := vc;
     reputation := reputation m; quorum_threshold := quorum_threshold m;
     merkle_tree := merkle_tree m; storage := storage m;
     lru_cache := lru_cache m; access_counts := access_counts m;
     b_tree := b_tree m; neighbors := neighbors m |}.

Definition with_merkle_tree (t : MerkleTree) (m : SKCManager) :=
  {| node_id := node_id m; config := config m; private_key := private_key m;
     skc_version := skc_version m; vector_clock := vector_clock m;
     reputation := reputation m; quorum_threshold := quorum_threshold m;
     merkle_tree := t; storage := storage m;
     lru_cache := lru_cache m; access_counts := access_counts m;
     b_tree := b_tree m; neighbors := neighbors m |}.

Definition with_storage (s : gmap string pyval) (m : SKCManager) :=
  {| node_id := node_id m; config := config m; private_key := private_key m;
     skc_version := skc_version m; vector_clock := vector_clock m;
     reputation := reputation m; quorum_threshold := quorum_threshold m;
     merkle_tree := merkle_tree m; storage := s;
     lru_cache := lru_cache m; access_counts := access_counts m;
     b_tree := b_tree m; neighbors := neighbors m |}.

Definition with_lru_cache (c : LRUCache) (m : SKCManager) :=
  {| node_id := node_id m; config := config m; private_key := private_key m;
     skc_version := skc_version m; vector_clock := vector_clock m;
     reputation := reputation m; quorum_threshold := quorum_threshold m;
     merkle_tree := merkle_tree m; storage := storage m;
     lru_cache := c; access_counts := access_counts m;
     b_tree := b_tree m; neighbors := neighbors m |}.

Definition with_access_counts (a : gmap string Z) (m : SKCManager) :=
  {| node_id := node_id m; config := config m; private_key := private_key m;
     skc_version := skc_version m; vector_clock := vector_clock m;
     reputation := reputation m; quorum_threshold := quorum_threshold m;
     merkle_tree := merkle_tree m; storage := storage m;
     lru_cache := lru_cache m; access_counts := a;
     b_tree := b_tree m; neighbors := neighbors m |}.

Definition with_b_tree (t : gmap Z bytes) (m : SKCManager) :=
  {| node_id := node_id m; config := config m; private_key := private_key m;
     skc_version := skc_version m; vector_clock := vector_clock m;
     reputation := reputation m; quorum_threshold := quorum_threshold m;
     merkle_tree := merkle_tree m; storage := storage m;
     lru_cache := lru_cache m; access_counts := access_counts m;
     b_tree := t; neighbors := neighbors m |}.

(** Methods run in a state and exception monad: what a method wrote
    before it raised stays written. *)
Definition M (A : Type) : Type := SKCManager → result A * SKCManager.

#[global] Instance M_ret : MRet M := fun _ a m => (Ok a, m).
#[global] Instance M_bind : MBind M := fun _ _ f c m =>
  match c m with
  | (Ok a, m') => f a m'
  | (Raise e, m') => (Raise e, m')
  end.

Definition get_self : M SKCManager := fun m => (Ok m, m).
Definition update (f : SKCManager → SKCManager) : M unit := fun m => (Ok tt, f m).
Definition lift {A} (r : result A) : M A := fun m => (r, m).
Definition raise {A} (e : exn) : M A := fun m => (Raise e, m).

Definition huffman_encode (data : bytes) : bytes := slice_to 16 data.

(** [pub.verify(sig, msg, ECDSA(SHA256))] returns ([true]) or raises. *)
Definition verify (pub : PublicKey L) (sig msg : bytes) : bool :=
  match sig with
  | b :: _ => bool_decide (b = x30) && ecdsa_check L pub sig msg
  | [] => false
  end.

Definition sign_packet (w : World) (m : SKCManager) (packet : CrispPacket) : CrispPacket :=
  let data := payload packet in
  let signature := ecdsa_sign L (private_key m) (nonce w) data in
  let data := data ++ (be_bytes 2 1 ++ slice_to 32 signature) in
  new_packet (now w) (type_id packet) data None 0x01.

Definition verify_signature (m : SKCManager) (packet : CrispPacket)
    (public_keys : list (PublicKey L)) : result bool :=
  vals ← unpack [fH] (slice_from (-2) (payload packet));
  match vals with
  | [SInt sig_count] =>
      let sig_len := 32 in
      let signatures :=
        map (fun i => slice (-2 - i * sig_len - sig_len) (-2 - i * sig_len) (payload packet))
            (map Z.of_nat (seq 0 (Z.to_nat sig_count))) in
      let data := slice_to (-2 - sig_count * sig_len) (payload packet) in
      let verified :=
        len (filter (fun sp => verify (snd sp) (fst sp) data = true)
                    (combine signatures public_keys)) in
      Ok (quorum_threshold m <=? verified)
  | _ => Raise StructError
  end.

(** *** Vector clock *)

Definition trim_clock (max_nodes : Z) (vc : list (string * Z)) : list (string * Z) :=
  if max_nodes <? len vc
  then slice_to max_nodes (sorted_desc Z.leb snd vc)
  else vc.

Definition trim_vector_clock (max_nodes : Z) : M unit :=
  m ← get_self;
  if use_vector_clocks (config m) then
    match vector_clock m with
    | Some vc => update (with_vector_clock (Some (trim_clock max_nodes vc)))
    | None => raise TypeError
    end
  else mret tt.

Fixpoint pack_items (items : list (string * Z)) : result bytes :=
  match items with
  | [] => Ok []
  | (k, v) :: rest =>
      b ← pack [fS 32; fI] [SBytes (ascii_bytes k); SInt v];
      bs ← pack_items rest;
      Ok (b ++ bs)
  end.

Definition encode_vector_clock : M bytes :=
  m ← get_self;
  if negb (use_vector_clocks (config m)) then mret []
  else
    trim_vector_clock 10;;
    m ← get_self;
    match vector_clock m with
    | Some vc =>
        n ← lift (pack [fI] [SInt (len vc)]);
        items ← lift (pack_items vc);
        mret (n ++ items)
    | None => raise TypeError
    end.

(** *** Conflict resolution *)

Definition cast_vote (m : SKCManager) (votes : gmap Z Q) (node : string) : gmap Z Q :=
  match storage m !! ("vote:" +:+ node) with
  | Some (PInt vote) =>
      match votes !! vote with
      | Some tally => <[vote := (tally + default 0%Q (reputation m !! node))%Q]> votes
      | None => votes
      end
  | _ => votes
  end.

Definition collect_votes (m : SKCManager) (packets : list CrispPacket) : list CrispPacket :=
  let votes := fold_left (fun d p => <[sequence p := 0%Q]> d) packets (∅ : gmap Z Q) in
  let votes := fold_left (cast_vote m) (neighbors m) votes in
  sorted_desc Qle_bool (fun p => default 0%Q (votes !! sequence p)) packets.

(** The [else] branch names [incoming_packet], which is not bound in
    this method. *)
Definition resolve_semantic_conflict (m : SKCManager) (incoming stored : CrispPacket)
    : result CrispPacket :=
  let votes := collect_votes m [incoming; stored] in
  match votes with
  | winner :: _ => Ok winner
  | [] => Raise (NameError "incoming_packet")
  end.

Definition resolve_deadlock (w : World) (packet : CrispPacket) : M (option CrispPacket) :=
  if is_expired (now w) packet then
    data ← lift (encode packet);
    update (fun m => with_storage
              (<["deadlock:" +:+ pretty (sequence packet) := PBytes data]> (storage m)) m);;
    r ← lift (create_error_response (now w) (sequence packet) (type_id packet)
                0x000B "Deadlock timeout");
    mret (Some r)
  else mret None.

Definition check_conflict (w : World) (incoming_packet : CrispPacket)
    : M (option CrispPacket) :=
  m ← get_self;
  if negb (use_vector_clocks (config m)) then mret None
  else
    match unpack [fI; fB; fH; fQ; fQ; fS 16] (slice_to 39 (payload incoming_packet)) with
    | Raise StructError =>
        r ← lift (create_error_response (now w) (sequence incoming_packet)
                    (type_id incoming_packet) 0x0001 "Invalid packet format");
        mret (Some r)
    | Raise e => raise e
    | Ok [SInt version; _; _; _; _; SBytes hash_val] =>
        let stored := storage m !! ("skc_sync:" +:+ node_id m +:+ ":" +:+ pretty version) in
        match stored with
        | Some v =>
            if truthy v then
              stored_packet ← lift (match v with
                                    | PBytes b => decode (now w) b
                                    | PInt _ => Raise TypeError
                                    end);
              let stored_hash := slice 23 39 (payload stored_packet) in
              if negb (bytes_eqb stored_hash hash_val) then
                match resolve_semantic_conflict m incoming_packet stored_packet with
                | Raise IndexError =>
                    r ← lift (create_error_response (now w) (sequence incoming_packet)
                                (type_id incoming_packet) 0x0001 "Invalid stored packet");
                    mret (Some r)
                | Raise e => raise e
                | Ok p => mret (Some p)
                end
              else resolve_deadlock w incoming_packet
            else resolve_deadlock w incoming_packet
        | None => resolve_deadlock w incoming_packet
        end
    | Ok _ => raise StructError
    end.

(** *** Gossip and sync *)

Fixpoint store_for (targets : list string) (packet : CrispPacket) : M unit :=
  match targets with
  | [] => mret tt
  | node :: rest =>
      data ← lift (encode packet);
      update (fun m => with_storage
                (<["skc_sync:" +:+ node +:+ ":" +:+ pretty (skc_version m) := PBytes data]>
                   (storage m)) m);;
      store_for rest packet
  end.

Definition gossip_sync (w : World) (packet : CrispPacket)
    (cluster_leaders : option (list string)) : M CrispPacket :=
  _priority ← (if type_id packet =? 0x6D then mret 0x03
               else
                 vals ← lift (unpack [fI; fB] (slice_to 5 (payload packet)));
                 match vals with
                 | [_; SInt p] => mret p
                 | _ => raise StructError
                 end);
  m ← get_self;
  let targets :=
    match cluster_leaders with
    | Some (n :: ns) => if use_hierarchical_gossip (config m) then n :: ns else neighbors m
    | _ => neighbors m
    end in
  store_for targets packet;;
  r ← check_conflict w packet;
  mret (default packet r).

Definition sync_skc (w : World) (id_range_start id_range_end : Z) (entries : bytes)
    (priority : option Z) : M CrispPacket :=
  m ← get_self;
  (if use_vector_clocks (config m) then
     match vector_clock m with
     | Some vc =>
         update (with_vector_clock
                   (Some (dict_set (node_id m) (dict_get vc (node_id m) 0 + 1) vc)))
     | None => raise AttributeError
     end
   else mret tt);;
  update (fun m => with_merkle_tree (add_leaf entries (merkle_tree m)) m);;
  update (fun m => with_b_tree (btree_insert id_range_start entries (b_tree m)) m);;
  let key := pretty id_range_start +:+ ":" +:+ pretty id_range_end in
  update (fun m => with_access_counts
            (<[key := default 0 (access_counts m !! key) + 1]> (access_counts m)) m);;
  m ← get_self;
  let priority :=
    if 10 <? default 0 (access_counts m !! key) then 0x02
    else match priority with
         | Some p => if p =? 0 then 0x00 else p
         | None => 0x00
         end in
  (if priority =? 0x02 then
     c ← lift (lru_put key entries (lru_cache m));
     update (with_lru_cache c)
   else mret tt);;
  clock_bytes ← encode_vector_clock;
  m ← get_self;
  head ← lift (pack [fI; fB; fH; fQ; fQ; fS 16; fH]
                 [SInt (skc_version m); SInt priority; SInt 1; SInt id_range_start;
                  SInt id_range_end; SBytes (huffman_encode (get_root (merkle_tree m)));
                  SInt (len clock_bytes)]);
  let packet := new_packet (now w) 0x60 (head ++ clock_bytes) None 0x01 in
  let signed_packet := sign_packet w m packet in
  gossip_sync w signed_packet None.

End Manager.

Arguments node_id {L} _.
Arguments config {L} _.
Arguments private_key {L} _.
Arguments skc_version {L} _.
Arguments vector_clock {L} _.
Arguments reputation {L} _.
Arguments quorum_threshold {L} _.
Arguments merkle_tree {L} _.
Arguments storage {L} _.
Arguments lru_cache {L} _.
Arguments access_counts {L} _.
Arguments b_tree {L} _.
Arguments neighbors {L} _.
Arguments public_key {L} _.
Arguments with_vector_clock {L} _ _.
Arguments with_merkle_tree {L} _ _.
Arguments with_storage {L} _ _.
Arguments with_lru_cache {L} _ _.
Arguments with_access_counts {L} _ _.
Arguments with_b_tree {L} _ _.

(** ** Python floats (IEEE 754 binary64), for the one product the code takes

    [float_of_int] is the conversion of an [int] operand (a list length
    here, far below the 2^1024 at which Python raises instead). *)
Definition float_of_int (n : Z) : SpecFloat.spec_float :=
  SpecFloat.binary_normalize 53 1024 n 0 false.

Definition float_mul (x y : SpecFloat.spec_float) : SpecFloat.spec_float :=
  SpecFloat.SFmul 53 1024 x y.

(** The literal [0.7]: [0x1.6666666666666p-1]. *)
Definition float_0_7 : SpecFloat.spec_float :=
  SpecFloat.S754_finite false 0x16666666666666 (-53).

(** [z > f] for an [int] and a [float]: Python compares the exact values. *)
Definition int_gt_float (z : Z) (f : SpecFloat.spec_float) : bool :=
  match f with
  | SpecFloat.S754_zero _ => 0 <? z
  | SpecFloat.S754_infinity s => s
  | SpecFloat.S754_nan => false
  | SpecFloat.S754_finite s mant e =>
      let v := if s then Z.neg mant else Z.pos mant in
      if 0 <=? e then v * 2 ^ e <? z else v <? z * 2 ^ (- e)
  end.

(** ** LRUCache.get and BTree.search *)

(** [get]: a hit moves the key to the end of [order]. *)
Definition lru_get (k : string) (c : LRUCache) : result (option bytes * LRUCache) :=
  match cache c !! k with
  | Some v =>
      match list_remove k (order c) with
      | Some o =>
          Ok (Some v, {| cache := cache c; order := o ++ [k]; max_size := max_size c |})
      | None => Raise (ValueError "list.remove(x): x not in list")
      end
  | None => Ok (None, c)
  end.

(** [search] returns a node that carries the key, or [None]. *)
Definition btree_search (k : Z) (t : gmap Z bytes) : option Z :=
  if bool_decide (is_Some (t !! k)) then Some k else None.

(** ** SKCManager: the payload-building methods and the sync interval *)

Section ManagerOps.
Context (L : EcdsaLib).

Definition validate_semantics (w : World) (m : SKCManager L)
    (entry_id schema_id validation_result : Z) : result CrispPacket :=
  data ← pack [fQ; fQ; fB] [SInt entry_id; SInt schema_id; SInt validation_result];
  Ok (sign_packet L w m (new_packet (now w) 0x6A data None 0x01)).

Fixpoint pack_mappings (mappings : list (Z * string)) : result bytes :=
  match mappings with
  | [] => Ok []
  | (part_id, node) :: rest =>
      b ← pack [fQ; fS 32] [SInt part_id; SBytes (ascii_bytes node)];
      bs ← pack_mappings rest;
      Ok (b ++ bs)
  end.

Definition update_global_partition_directory (w : World) (m : SKCManager L)
    (partition_mappings : list (Z * string)) : result CrispPacket :=
  data ← pack [fI; fH] [SInt (skc_version m); SInt (len partition_mappings)];
  rest ← pack_mappings partition_mappings;
  Ok (sign_packet L w m (new_packet (now w) 0x6B (data ++ rest) None 0x01)).

Definition priority_broadcast (w : World) (m : SKCManager L)
    (id_range_start id_range_end : Z) (micro_entry : bytes) : result CrispPacket :=
  data ← pack [fI; fQ; fQ; fS 8]
           [SInt (skc_version m); SInt id_range_start; SInt id_range_end;
            SBytes (slice_to 8 (huffman_encode micro_entry))];
  Ok (sign_packet L w m (new_packet (now w) 0x6D data None 0x01)).

Definition lightweight_sync (w : World) (m : SKCManager L)
    (id_range_start id_range_end : Z) (entries : bytes) : result CrispPacket :=
  data ← pack [fI; fQ; fQ; fS 8]
           [SInt (skc_version m); SInt id_range_start; SInt id_range_end;
            SBytes (slice_to 8 (huffman_encode entries))];
  Ok (sign_packet L w m (new_packet (now w) 0x70 data None 0x01)).

(** [adjust_sync_interval] returns [None]; this is the value it assigns
    to [self.sync_interval], 1.0 or 5.0.  [len(self.neighbors) * 0.7] is
    a product of binary64 floats, rounded to nearest even, and the
    comparison of the integer count with it is exact. *)
Definition has_beacon (m : SKCManager L) (n : string) : bool :=
  match storage m !! ("beacon:" +:+ n) with
  | Some v => truthy v
  | None => false
  end.

Definition beacon_count (m : SKCManager L) : Z :=
  len (filter (fun n => has_beacon m n = true) (neighbors m)).

Definition adjust_sync_interval (m : SKCManager L) : Q :=
  if int_gt_float (beacon_count m) (float_mul (float_of_int (len (neighbors m))) float_0_7)
  then 1%Q else 5%Q.

End ManagerOps.


(** * Part 2: the vocabulary of the statements *)

(** The count [verify_signature] reads: the last two bytes of the payload. *)
Definition trailing_count (p : CrispPacket) : Z :=
  be_to_Z (slice_from (-2) (payload p)).

(** The count [sign_packet] writes: the two bytes before the last 32. *)
Definition count_field (p : CrispPacket) : Z :=
  be_to_Z (slice (-34) (-32) (payload p)).

Definition with_sequence (s : Z) (p : CrispPacket) : CrispPacket :=
  {| type_id := type_id p; sequence := s; payload := payload p;
     checksum_type := checksum_type p; checksum := checksum p;
     timestamp := timestamp p; retry_count := retry_count p |}.

(** The payload [create_error_response] builds. *)
Definition error_payload (correlation_id original_type error_code : Z)
    (error_message : string) : bytes :=
  (be_bytes 8 correlation_id ++ be_bytes 1 original_type ++ be_bytes 2 error_code
   ++ be_bytes 2 (len (ascii_bytes error_message)) ++ [])
  ++ ascii_bytes error_message.

(** [data] with the byte at index [i] complemented. *)
Definition flip_byte (i : nat) (data : bytes) : bytes :=
  match data !! i with
  | Some b => <[i := byte_of_Z (Z.lxor (Z_of_byte b) 0xFF)]> data
  | None => data
  end.


(** Descending order of keys. *)
Definition desc {A} (key : A → Z) (a b : A) : Prop := key b <= key a.

(** One call of [sync_skc]: its arguments and what it reads from the
    environment. *)
Record SyncCall : Type := {
  call_world : World;
  call_start : Z;
  call_end : Z;
  call_entries : bytes;
  call_priority : option Z
}.

Section Vocabulary.
Context (L : EcdsaLib).

(** The number of positionally matching valid signatures: the trailing
    count is read, that many 32-byte signatures are sliced off the tail,
    each is checked against the remaining payload with the key at its
    position, and the checks that pass are counted. *)
Definition verified_count (p : CrispPacket) (public_keys : list (PublicKey L)) : Z :=
  let sig_count := trailing_count p in
  let signatures :=
    map (fun i => slice (-2 - i * 32 - 32) (-2 - i * 32) (payload p))
        (map Z.of_nat (seq 0 (Z.to_nat sig_count))) in
  let data := slice_to (-2 - sig_count * 32) (payload p) in
  len (filter (fun sp => verify L (snd sp) (fst sp) data = true)
              (combine signatures public_keys)).

Definition no_votes_cast (m : SKCManager L) : Prop :=
  ∀ node : string, node ∈ neighbors m → storage m !! ("vote:" +:+ node) = None.

Definition sync_call (c : SyncCall) : M L CrispPacket :=
  sync_skc L (call_world c) (call_start c) (call_end c) (call_entries c)
    (call_priority c).

(** A sequence of calls; a call that raises leaves what it wrote. *)
Definition run_syncs (m : SKCManager L) (calls : list SyncCall) : SKCManager L :=
  fold_left (fun m c => snd (sync_call c m)) calls m.

Definition own_counter (m : SKCManager L) : Z :=
  match vector_clock m with
  | Some vc => dict_get vc (node_id m) 0
  | None => 0
  end.

(** [c] keeps the invariant [I], whether it returns or raises. *)
Definition preserves {A} (I : SKCManager L → Prop) (c : M L A) : Prop :=
  ∀ m, I m → I (snd (c m)).

(** [c] raises from every state that satisfies [I]. *)
Definition raises_under {A} (I : SKCManager L → Prop) (c : M L A) : Prop :=
  ∀ m, I m → ∃ e, fst (c m) = Raise e.

(** An invariant that only reads attributes which the conflict and
    gossip methods never write. *)
Class StorageBlind (I : SKCManager L → Prop) : Prop :=
  storage_blind : ∀ m s, I m → I (with_storage s m).

Definition has_neighbors (ns : list string) (m : SKCManager L) : Prop :=
  neighbors m = ns.

(** The attributes the clock invariant reads. *)
Definition clock_view (nd : string) (cfg : CrispConfig) (vc : list (string * Z))
    (m : SKCManager L) : Prop :=
  node_id m = nd ∧ config m = cfg ∧ vector_clock m = Some vc.

End Vocabulary.

Arguments no_votes_cast {L} _.
Arguments own_counter {L} _.
Arguments preserves {L A} _ _.
Arguments raises_under {L A} _ _.

(** The clock after the increment of [sync_skc]: the local counter
    raised by one, a missing entry counting as 0. *)
Definition bump (node : string) (vc : list (string * Z)) : list (string * Z) :=
  dict_set node (dict_get vc node 0 + 1) vc.

(** The key under which [sync_skc] counts and caches a range. *)
Definition range_key (id_range_start id_range_end : Z) : string :=
  pretty id_range_start +:+ ":" +:+ pretty id_range_end.

(** [sync_skc] stops in [lru_cache.put], before it trims the clock: the
    range is hot or priority 2 was asked for, and [put] raises. *)
Definition cache_put_fails {L} (m : SKCManager L) (id_range_start id_range_end : Z)
    (entries : bytes) (priority : option Z) : bool :=
  ((10 <? default 0 (access_counts m !! range_key id_range_start id_range_end) + 1)
   || bool_decide (priority = Some 2))
  && negb (is_ok (lru_put (range_key id_range_start id_range_end) entries (lru_cache m))).

(** ** A stand-in ECDSA library, to run the model on concrete inputs

    Signatures have the DER layout of P-256 signatures,
    [30 44 02 20 r 02 20 s] with 32-byte [r] and [s]; [r] and [s] are hash
    values, not curve arithmetic.  The properties below hold for every
    library; this one only serves in examples. *)
Module Sample.

Definition clear_top (b : bytes) : bytes :=
  match b with
  | x :: rest => byte_of_Z (Z.land (Z_of_byte x) 0x7F) :: rest
  | [] => []
  end.

Definition sign (key : bytes) (nonce : Z) (msg : bytes) : bytes :=
  let r := clear_top (sha256 (be_bytes 8 nonce ++ key)) in
  let s := clear_top (sha256 (r ++ key ++ msg)) in
  [x30; x44; x02; x20] ++ r ++ [x02; x20] ++ s.

Definition check (pub : bytes) (sig msg : bytes) : bool :=
  let r := slice 4 36 sig in
  bool_decide (sig = [x30; x44; x02; x20] ++ r ++ [x02; x20]
                     ++ clear_top (sha256 (r ++ pub ++ msg))).

Definition lib : EcdsaLib :=
  {| PrivateKey := bytes; PublicKey := bytes; public_key_of := fun k => k;
     ecdsa_sign := sign; ecdsa_check := check |}.

Definition key_a : bytes := ascii_bytes "key of node A".

(** Node A: default configuration, threshold 3. *)
Definition node_a : SKCManager lib := init lib "nodeA" default_config key_a.

Definition no_quorum_config : CrispConfig :=
  {| use_vector_clocks := true; use_quorums := false;
     use_hierarchical_gossip := true; compression := "huffman" |}.

(** Node B: quorums disabled, threshold 1. *)
Definition node_b : SKCManager lib :=
  init lib "nodeB" no_quorum_config (ascii_bytes "key of node B").

(** A clock reading of November 2023. *)
Definition world : World := {| now := 1700000000; nonce := 7 |}.
Definition world_5s : World := {| now := 1700000005; nonce := 7 |}.
Definition world_6s : World := {| now := 1700000006; nonce := 7 |}.

(** A packet built with the default, clock-derived sequence. *)
Definition default_packet : CrispPacket :=
  new_packet 1700000000 0x60 (ascii_bytes "abc") None 0x01.

(** Two packets for version 1 whose digests (payload bytes 23 to 38)
    differ, with sequences that fit the header. *)
Definition sync_payload (digest : byte) : bytes :=
  be_bytes 4 1 ++ be_bytes 1 0 ++ be_bytes 2 1 ++ be_bytes 8 100 ++ be_bytes 8 200
  ++ repeat digest 16.
Definition incoming_1 : CrispPacket :=
  new_packet 1700000000 0x60 (sync_payload x01) (Some 1) 0x01.
Definition stored_2 : CrispPacket :=
  new_packet 1700000000 0x60 (sync_payload x02) (Some 2) 0x01.

Definition three_entries : MerkleTree :=
  add_leaf (ascii_bytes "c") (add_leaf (ascii_bytes "b")
    (add_leaf (ascii_bytes "a") {| leaves := [] |})).

Definition two_calls : list SyncCall :=
  [ {| call_world := world; call_start := 100; call_end := 200;
       call_entries := ascii_bytes "E"; call_priority := None |};
    {| call_world := {| now := 1000; nonce := 8 |}; call_start := 100; call_end := 200;
       call_entries := ascii_bytes "F"; call_priority := Some 1 |} ].

Definition third_call : SyncCall :=
  {| call_world := {| now := 1700000100; nonce := 9 |}; call_start := 300; call_end := 400;
     call_entries := ascii_bytes "G"; call_priority := None |}.

(** A clock that already holds ten entries of other nodes. *)
Definition crowded : SKCManager lib :=
  with_vector_clock
    (Some (map (fun i => ("peer" +:+ pretty i, 5)) (seq 0 10))) node_a.

End Sample.

(** ** Vocabulary of the further properties *)

(** The header fields read back from an encoding, by position. *)
Definition wire_type (data : bytes) : Z := be_to_Z (slice 0 1 data).
Definition wire_length (data : bytes) : Z := be_to_Z (slice 1 3 data).
Definition wire_sequence (data : bytes) : Z := be_to_Z (slice 3 7 data).
Definition wire_checksum (data : bytes) : bytes := slice 7 11 data.
Definition wire_payload (data : bytes) : bytes := slice_from 11 data.

(** The fields of an error response payload, read back by position. *)
Definition err_correlation_id (data : bytes) : Z := be_to_Z (slice 0 8 data).
Definition err_original_type (data : bytes) : Z := be_to_Z (slice 8 9 data).
Definition err_code (data : bytes) : Z := be_to_Z (slice 9 11 data).
Definition err_message_length (data : bytes) : Z := be_to_Z (slice 11 13 data).
Definition err_message (data : bytes) : bytes := slice_from 13 data.

(** The storage key [check_conflict] looks up: the local node and the
    version read from the first four payload bytes. *)
Definition conflict_key {L} (m : SKCManager L) (p : CrispPacket) : string :=
  "skc_sync:" +:+ node_id m +:+ ":" +:+ pretty (be_to_Z (take 4 (payload p))).

(** [node] voted for the packet with sequence number [s]. *)
Definition votes_for {L} (m : SKCManager L) (s : Z) (node : string) : bool :=
  match storage m !! ("vote:" +:+ node) with
  | Some (PInt v) => bool_decide (v = s)
  | _ => false
  end.

(** The weighted tally of [s]: the reputations of the neighbours that
    voted for it, 0 for a neighbour without a recorded reputation. *)
Definition tally {L} (m : SKCManager L) (s : Z) : Q :=
  foldr Qplus 0%Q
    (map (fun n => default 0%Q (reputation m !! n))
         (filter (fun n => votes_for m s n = true) (neighbors m))).

(** One step of the tally, in the order [collect_votes] adds. *)
Definition count_vote {L} (m : SKCManager L) (s : Z) (acc : Q) (node : string) : Q :=
  if votes_for m s node then (acc + default 0 (reputation m !! node))%Q else acc.

(** The state of an [LRUCache] that [put] and [get] keep: [order] lists
    the keys of [cache], each once. *)
Definition lru_wf (c : LRUCache) : Prop :=
  NoDup (order c) ∧ ∀ k, k ∈ order c ↔ is_Some (cache c !! k).

(** [LRUCache(max_size)]. *)
Definition lru_new (n : Z) : LRUCache := {| cache := ∅; order := []; max_size := n |}.

(** The tree after [add_leaf] was called with each of [entries] in turn. *)
Definition tree_of (entries : list bytes) : MerkleTree :=
  fold_left (fun t e => add_leaf e t) entries {| leaves := [] |}.

(** What [sync_skc] records before it builds a packet: the leaves of the
    Merkle tree, the B-tree and the access counts. *)
Definition index_view {L} (lv : list bytes) (bt : gmap Z bytes) (ac : gmap string Z)
    (m : SKCManager L) : Prop :=
  leaves (merkle_tree m) = lv ∧ b_tree m = bt ∧ access_counts m = ac.

Definition cache_view {L} (c : LRUCache) (m : SKCManager L) : Prop :=
  lru_cache m = c.

(** The cache after a range became hot and [entries] were put last. *)
Definition hot_cache (key : string) (entries : bytes) : LRUCache :=
  {| cache := {[ key := entries ]}; order := [key]; max_size := 1000 |}.

(** A state in which [sync_skc] finds the clock it updates. *)
Definition clock_ok {L} (m : SKCManager L) : Prop :=
  use_vector_clocks (config m) = true → is_Some (vector_clock m).

(** The nodes [gossip_sync] stores the packet for. *)
Definition gossip_targets {L} (m : SKCManager L) (cluster_leaders : option (list string))
    : list string :=
  match cluster_leaders with
  | Some (n :: ns) => if use_hierarchical_gossip (config m) then n :: ns else neighbors m
  | _ => neighbors m
  end.

(** The storage key of a sync record. *)
Definition sync_key (node : string) (version : Z) : string :=
  "skc_sync:" +:+ node +:+ ":" +:+ pretty version.

(** The eight bytes of its entries that a range packet carries. *)
Definition entry_field (entries : bytes) : bytes := take 8 (entries ++ repeat x00 8).

(** The 40 bytes of one partition mapping: the id, then the node name
    cut or zero-padded to 32 bytes. *)
Definition mapping_record (pm : Z * string) : bytes :=
  be_bytes 8 (fst pm) ++ take 32 (ascii_bytes (snd pm) ++ repeat x00 32).

(** With [n] neighbours, the float comparison of [adjust_sync_interval]
    agrees with "more than 70 percent" for every count up to [n]. *)
Definition seventy_percent_exact (n : nat) : bool :=
  forallb (fun c => Bool.eqb (int_gt_float (Z.of_nat c)
                                (float_mul (float_of_int (Z.of_nat n)) float_0_7))
                             (7 * Z.of_nat n <? 10 * Z.of_nat c))
          (seq 0 (S n)).

(** ** Further sample data *)
Module Cases.

Definition no_clock_config : CrispConfig :=
  {| use_vector_clocks := false; use_quorums := true;
     use_hierarchical_gossip := true; compression := "huffman" |}.

(** Node C: vector clocks disabled. *)
Definition node_c : SKCManager Sample.lib :=
  init Sample.lib "nodeC" no_clock_config Sample.key_a.

(** A packet whose payload is shorter than a sync header. *)
Definition short_packet : CrispPacket :=
  new_packet 1700000000 0x60 (ascii_bytes "abc") (Some 1) 0x01.

(** Node A after it stored some record for version 1 under its own name. *)
Definition node_a_record : SKCManager Sample.lib :=
  with_storage (<["skc_sync:nodeA:1" := PBytes (ascii_bytes "a stored record")]> ∅)
    Sample.node_a.

(** Node A after node2, to which it gives reputation 1, voted for
    sequence 2, and node3, of unknown reputation, voted for sequence 1. *)
Definition node_a_voted : SKCManager Sample.lib :=
  Build_SKCManager Sample.lib "nodeA" default_config Sample.key_a 1
    (Some [("nodeA", 0)]) {[ "nodeA" := 1%Q; "node2" := 1%Q ]} 3 {| leaves := [] |}
    {[ "vote:node2" := PInt 2; "vote:node3" := PInt 1 ]}
    {| cache := ∅; order := []; max_size := 1000 |} ∅ ∅ ["node2"; "node3"].

(** Node A with the votes of [node_a_voted] and the reputations of [init]. *)
Definition node_a_votes_only : SKCManager Sample.lib :=
  with_storage {[ "vote:node2" := PInt 2; "vote:node3" := PInt 1 ]} Sample.node_a.

(** A full cache of capacity 2; "a" is the least recently used key. *)
Definition two_keys : LRUCache :=
  {| cache := {[ "a" := [x01]; "b" := [x02] ]}; order := ["a"; "b"]; max_size := 2 |}.

(** Ninety neighbours, of which the first 63 sent a beacon. *)
Definition crowd : SKCManager Sample.lib :=
  Build_SKCManager Sample.lib "nodeA" default_config Sample.key_a 1
    (Some [("nodeA", 0)]) {[ "nodeA" := 1%Q ]} 3 {| leaves := [] |}
    (list_to_map (map (fun i => ("beacon:" +:+ pretty i, PInt 1)) (seq 0 63)))
    {| cache := ∅; order := []; max_size := 1000 |} ∅ ∅ (map pretty (seq 0 90)).

(** A clock of eleven entries: the local one at 3, ten peers at 5. *)
Definition crowded_own : SKCManager Sample.lib :=
  with_vector_clock
    (Some (("nodeA", 3) :: map (fun i => ("peer" +:+ pretty i, 5)) (seq 0 10)))
    Sample.node_a.

End Cases.

(** * Part 3: properties *)

(** ** The hash functions agree with their test vectors *)

Example sha256_tables :
  length Sha256.K = 64%nat ∧ hd 0 Sha256.K = 0x428a2f98
  ∧ last Sha256.K = Some 0xc67178f2 ∧ hd 0 Sha256.H0 = 0x6a09e667
  ∧ last Sha256.H0 = Some 0x5be0cd19.
Proof. vm_compute. done. Qed.

Example crc32_check : crc32 (ascii_bytes "123456789") = 0xE3069283.
Proof. vm_compute. reflexivity. Qed.

Example sha256_empty :
  map Z_of_byte (take 8 (sha256 [])) = [0xe3; 0xb0; 0xc4; 0x42; 0x98; 0xfc; 0x1c; 0x14].
Proof. vm_compute. reflexivity. Qed.

Example sha256_abc :
  map Z_of_byte (sha256 (ascii_bytes "abc")) =
  [0xba; 0x78; 0x16; 0xbf; 0x8f; 0x01; 0xcf; 0xea; 0x41; 0x41; 0x40; 0xde;
   0x5d; 0xae; 0x22; 0x23; 0xb0; 0x03; 0x61; 0xa3; 0x96; 0x17; 0x7a; 0x9c;
   0xb4; 0x10; 0xff; 0x61; 0xf2; 0x00; 0x15; 0xad].
Proof. vm_compute. reflexivity. Qed.

(** Two blocks: a message of 56 bytes. *)
Example sha256_two_blocks :
  map Z_of_byte (take 4 (sha256 (ascii_bytes
     "abcdbcdecdefdefgefghfghighijhijkijkljklmklmnlmnomnopnopq")))
  = [0x24; 0x8d; 0x6a; 0x61].
Proof. vm_compute. reflexivity. Qed.

(** ** The checksum is always packable *)

Ltac case_cmp :=
  match goal with
  | |- context [?a <=? ?b] => destruct (Z.leb_spec a b)
  | |- context [?a <? ?b] => destruct (Z.ltb_spec a b)
  end.

Lemma lxor_range (n a b : Z) :
  0 <= n → 0 <= a < 2 ^ n → 0 <= b < 2 ^ n → 0 <= Z.lxor a b < 2 ^ n.
Proof.
  intros Hn [Ha0 Ha] [Hb0 Hb]. split; [by apply Z.lxor_nonneg|].
  destruct (Z.eq_dec (Z.lxor a b) 0) as [->|Hne]; [by apply Z.pow_pos_nonneg|].
  assert (0 < Z.lxor a b) as Hpos.
  { pose proof (proj2 (Z.lxor_nonneg a b) (conj (fun _ => Hb0) (fun _ => Ha0))). lia. }
  assert (0 < n) as Hn'.
  { destruct (Z.eq_dec n 0) as [->|]; [|lia]. change (2 ^ 0) with 1 in *.
    assert (a = 0) as -> by lia. assert (b = 0) as -> by lia. done. }
  apply Z.log2_lt_pow2; [done|].
  pose proof (Z.log2_lxor a b Ha0 Hb0) as Hlog.
  assert (Z.log2 a < n) as Hla.
  { destruct (Z.eq_dec a 0) as [->|]; [simpl; lia|]. apply Z.log2_lt_pow2; lia. }
  assert (Z.log2 b < n) as Hlb.
  { destruct (Z.eq_dec b 0) as [->|]; [simpl; lia|]. apply Z.log2_lt_pow2; lia. }
  lia.
Qed.

Lemma step_bit_range (crc : Z) :
  0 <= crc < 2 ^ 32 → 0 <= Crc32c.step_bit crc < 2 ^ 32.
Proof.
  intros Hc. unfold Crc32c.step_bit.
  assert (0 <= Z.shiftr crc 1 < 2 ^ 32) as Hs.
  { rewrite Z.shiftr_div_pow2 by lia. change (2 ^ 1) with 2.
    split; [apply Z.div_pos; lia|]. apply Z.div_lt_upper_bound; lia. }
  destruct (Z.testbit crc 0); [|done].
  apply lxor_range; [lia|done|]. unfold Crc32c.poly. lia.
Qed.

Lemma step_byte_range (crc : Z) (b : byte) :
  0 <= crc < 2 ^ 32 → 0 <= Crc32c.step_byte crc b < 2 ^ 32.
Proof.
  intros Hc. unfold Crc32c.step_byte.
  assert (0 <= Z.lxor crc (Z_of_byte b) < 2 ^ 32) as Hx.
  { apply lxor_range; [lia|done|]. unfold Z_of_byte.
    pose proof (Byte.to_N_bounded b). lia. }
  generalize dependent (Z.lxor crc (Z_of_byte b)). intros x Hx.
  do 8 (rewrite Nat.iter_succ). simpl Nat.iter.
  do 8 (apply step_bit_range). done.
Qed.

Lemma crc32_range (data : bytes) : 0 <= crc32 data < 2 ^ 32.
Proof.
  unfold Crc32c.crc32. apply lxor_range; [lia| |lia].
  assert (0 <= 0xFFFFFFFF < 2 ^ 32) as H by lia.
  revert H. generalize 0xFFFFFFFF. induction data as [|b data IH]; intros c Hc; [done|].
  simpl. apply IH. by apply step_byte_range.
Qed.

(** [struct.pack("!I", crc32c.crc32(payload))] never raises. *)
Lemma pack_crc32 (data : bytes) :
  pack [fI] [SInt (crc32 data)] = Ok (be_bytes 4 (crc32 data) ++ []).
Proof.
  pose proof (crc32_range data) as [H0 H1].
  unfold pack, pack_fields, pack_field. simpl field_size.
  change (256 ^ Z.of_nat 4) with (2 ^ 32).
  repeat case_cmp; try lia. reflexivity.
Qed.

Lemma pack_count_one : pack [fH] [SInt 1] = Ok (be_bytes 2 1 ++ []).
Proof. reflexivity. Qed.

(** ** The [struct] module *)

Lemma be_bytes_length (n : nat) (z : Z) : length (be_bytes n z) = n.
Proof.
  revert z. induction n as [|n IH]; intros z; [done|].
  simpl. rewrite length_app, IH. simpl. lia.
Qed.

Lemma pack_field_length (f : field) (v : value) (b : bytes) :
  pack_field f v = Some b → length b = field_size f.
Proof.
  destruct f, v; simpl; try discriminate;
    try (destruct (_ && _); [|discriminate]; intros [= <-]; reflexivity).
  intros [= <-]. rewrite length_take, length_app, repeat_length. lia.
Qed.

Lemma pack_fields_length (fmt : list field) (vs : list value) (b : bytes) :
  pack_fields fmt vs = Some b → length b = calcsize fmt.
Proof.
  revert vs b. induction fmt as [|f fmt IH]; intros [|v vs] b; simpl; try discriminate.
  - by intros [= <-].
  - destruct (pack_field f v) as [b1|] eqn:H1; [|discriminate].
    destruct (pack_fields fmt vs) as [b2|] eqn:H2; [|discriminate].
    intros [= <-]. rewrite length_app.
    by rewrite (pack_field_length _ _ _ H1), (IH _ _ H2).
Qed.

Lemma pack_int (f : field) (z : Z) :
  0 <= z < 256 ^ Z.of_nat (field_size f) → (∀ n, f ≠ fS n) →
  pack_field f (SInt z) = Some (be_bytes (field_size f) z).
Proof.
  intros [H0 H1] Hf. destruct f; try (by destruct (Hf n)); unfold pack_field;
    repeat case_cmp; try done; lia.
Qed.

Lemma pack_int_None (f : field) (z : Z) :
  ¬ (0 <= z < 256 ^ Z.of_nat (field_size f)) → pack_field f (SInt z) = None.
Proof.
  intros Hz. destruct f; [..|done]; unfold pack_field;
    repeat case_cmp; try done; lia.
Qed.

Lemma pack_raises (fmt : list field) (vs : list value) (e : exn) :
  pack fmt vs = Raise e → e = StructError.
Proof. unfold pack. destruct (pack_fields fmt vs); [done|]. by intros [= <-]. Qed.

Lemma unpack_raises (fmt : list field) (buf : bytes) (e : exn) :
  unpack fmt buf = Raise e → e = StructError.
Proof. unfold unpack. case_bool_decide; [done|]. by intros [= <-]. Qed.

(** ** Slices *)

Lemma slice_to_length {A} (n : Z) (l : list A) :
  0 <= n <= len l → length (slice_to n l) = Z.to_nat n.
Proof.
  intros Hn. unfold slice_to, py_slice, norm_index, len in *.
  destruct (Z.ltb_spec n 0); [lia|].
  rewrite skipn_O, length_take. lia.
Qed.

Lemma slice_to_take {A} (n : nat) (l : list A) :
  slice_to (Z.of_nat n) l = take n l.
Proof.
  unfold slice_to, py_slice, norm_index.
  destruct (Z.ltb_spec (Z.of_nat n) 0); [lia|].
  rewrite skipn_O, Nat.sub_0_r.
  destruct (Z.le_ge_cases (Z.of_nat n) (Z.of_nat (length l))).
  - rewrite Z.min_l by done. by rewrite Nat2Z.id.
  - rewrite Z.min_r by done. rewrite Nat2Z.id.
    rewrite !take_ge; [done|lia|lia].
Qed.

Lemma slice_neg {A} (i j : Z) (l : list A) :
  - len l <= i <= j → j < 0 →
  slice i j l = take (Z.to_nat (j - i)) (drop (Z.to_nat (len l + i)) l).
Proof.
  intros Hij Hj. unfold slice, py_slice, norm_index, len in *.
  destruct (Z.ltb_spec i 0); [|lia]. destruct (Z.ltb_spec j 0); [|lia].
  f_equal; [lia|]. f_equal. lia.
Qed.

Lemma slice_from_neg {A} (i : Z) (l : list A) :
  - len l <= i < 0 → slice_from i l = drop (Z.to_nat (len l + i)) l.
Proof.
  intros Hi. unfold slice_from, py_slice, norm_index, len in *.
  destruct (Z.ltb_spec i 0); [|lia].
  rewrite take_ge; [f_equal; lia|]. rewrite length_drop. lia.
Qed.

(** ** PacketCodec *)

(** The header the code packs is 11 bytes long, one less than
    [HEADER_SIZE]: the format starts with [!], so no padding byte
    follows the first field. *)
Lemma header_calcsize : calcsize HEADER_FORMAT = 11%nat ∧ HEADER_SIZE = 12.
Proof. done. Qed.

(** [encode] raises nothing but [struct.error], and succeeds exactly when
    the three integers fit their header fields. *)
Lemma encode_spec (p : CrispPacket) :
  if bool_decide (0 <= type_id p < 256 ∧ 0 <= len (payload p) + 12 < 65536
                  ∧ 0 <= sequence p < 2 ^ 32)
  then encode p = Ok ((be_bytes 1 (type_id p) ++ be_bytes 2 (len (payload p) + 12)
                       ++ be_bytes 4 (sequence p)
                       ++ take 4 (checksum p ++ repeat x00 4) ++ []) ++ payload p)
  else encode p = Raise StructError.
Proof.
  unfold encode, pack, HEADER_FORMAT, HEADER_SIZE. cbn [pack_fields].
  case_bool_decide as H.
  - destruct H as (Ht & Hl & Hs).
    rewrite (pack_int fB), (pack_int fH), (pack_int fI) by done. reflexivity.
  - destruct (decide (0 <= type_id p < 256)) as [Ht|Ht];
      [|by rewrite (pack_int_None fB)].
    rewrite (pack_int fB) by done.
    destruct (decide (0 <= len (payload p) + 12 < 65536)) as [Hl|Hl];
      [|by rewrite (pack_int_None fH)].
    rewrite (pack_int fH) by done.
    by rewrite (pack_int_None fI) by (simpl; lia).
Qed.

Lemma encode_length (p : CrispPacket) (data : bytes) :
  encode p = Ok data → len data = 11 + len (payload p).
Proof.
  unfold encode, pack.
  destruct (pack_fields _ _) as [h|] eqn:Hh; [|discriminate].
  simpl. intros [= <-]. apply pack_fields_length in Hh.
  unfold len. rewrite length_app, Hh. simpl calcsize. lia.
Qed.

(** [decode] never returns: short input is rejected, and on any other
    input [struct.unpack] is given 12 bytes for an 11-byte format. *)
Lemma decode_raises (now : Q) (data : bytes) :
  decode now data =
  if len data <? HEADER_SIZE then Raise (ValueError "Packet too short")
  else Raise StructError.
Proof.
  unfold decode. destruct (Z.ltb_spec (len data) HEADER_SIZE) as [|Hge]; [done|].
  unfold unpack. rewrite slice_to_length by (unfold HEADER_SIZE in *; lia).
  reflexivity.
Qed.

(** The test [packet.checksum != packet._calculate_checksum()] compares
    the freshly computed checksum with itself: the checksum field of the
    header takes no part in it. *)
Lemma decode_checksum_test_vacuous (now : Q) (tid : Z) (data : bytes) (seq : option Z) :
  let packet := new_packet now tid data seq 0x01 in
  negb (bytes_eqb (checksum packet) (_calculate_checksum packet)) = false.
Proof.
  intros packet. unfold bytes_eqb. rewrite bool_decide_eq_true_2; done.
Qed.

(** C3 (as the code behaves): decoding the encoding of a packet never
    succeeds.  [encode] either raises, or yields an 11-byte header and the
    payload; [decode] then raises "Packet too short" when the payload is
    empty and [struct.error] otherwise. *)
Theorem decode_encode_raises (now : Q) (p : CrispPacket) :
  (encode p ≫= decode now) =
  Raise (if is_ok (encode p) && bool_decide (payload p = [])
         then ValueError "Packet too short" else StructError).
Proof.
  destruct (encode p) as [data|e] eqn:He.
  - simpl. change (Ok data ≫= decode now) with (decode now data).
    rewrite decode_raises. apply encode_length in He.
    unfold HEADER_SIZE. case_bool_decide as Hp.
    + rewrite Hp in He. unfold len in He at 2. simpl in He.
      destruct (Z.ltb_spec (len data) 12); [done|lia].
    + assert (0 < len (payload p)).
      { unfold len. destruct (payload p); [done|simpl; lia]. }
      destruct (Z.ltb_spec (len data) 12); [lia|done].
  - simpl. unfold encode, pack in He.
    destruct (pack_fields _ _); simpl in He; [discriminate|].
    by injection He as <-.
Qed.

(** A packet with a sequence that fits the header: its encoding is 14
    bytes long and does not decode. *)
Example decode_encode_example :
  let p := new_packet 1700000000 0x60 (ascii_bytes "abc") (Some 1) 0x01 in
  (map Z_of_byte <$> encode p)
  = Ok [0x60; 0; 15; 0; 0; 0; 1; 0x36; 0x4b; 0x3f; 0xb7; 97; 98; 99]
  ∧ (encode p ≫= decode 1700000001) = Raise StructError.
Proof. vm_compute. done. Qed.

(** C5 (as the code behaves): input shorter than 12 bytes is rejected as
    too short; every other input makes [decode] raise [struct.error], so
    no input at all is rejected with "Checksum mismatch". *)
Theorem decode_never_checksum_mismatch (now : Q) (data : bytes) :
  (len data < 12 → decode now data = Raise (ValueError "Packet too short"))
  ∧ (12 <= len data → decode now data = Raise StructError)
  ∧ decode now data ≠ Raise (ValueError "Checksum mismatch").
Proof.
  rewrite decode_raises. unfold HEADER_SIZE.
  destruct (Z.ltb_spec (len data) 12); repeat split; intros; try lia; done.
Qed.

(** The same packet with its last payload byte complemented. *)
Example decode_flipped_example :
  let p := new_packet 1700000000 0x60 (ascii_bytes "abc") (Some 1) 0x01 in
  (decode 1700000001 <$> (flip_byte 13 <$> encode p)) = Ok (Raise StructError).
Proof. vm_compute. done. Qed.

(** ** IntegrityTree *)


Lemma reduce_level_length (l : list bytes) :
  (length (reduce_level l) = (length l + 1) / 2)%nat.
Proof.
  assert (∀ n (l : list bytes), (length l ≤ n)%nat →
            (length (reduce_level l) = (length l + 1) / 2)%nat) as H.
  { induction n as [|n IH]; intros [|a [|b k]] Hk; simpl in Hk; try done; try lia.
    simpl reduce_level. simpl length. rewrite IH by (simpl in *; lia).
    replace (S (S (length k)) + 1)%nat with (length k + 1 + 1 * 2)%nat by lia.
    rewrite Nat.div_add by lia. lia. }
  by apply (H (length l)).
Qed.

(** The [while] loop ends within [length l] passes. *)
Lemma reduce_loop_terminates (fuel : nat) (l : list bytes) :
  (length l ≤ S fuel)%nat → (length (reduce_loop fuel l) ≤ 1)%nat.
Proof.
  revert l. induction fuel as [|fuel IH]; intros l Hl.
  - simpl. lia.
  - simpl. unfold len. destruct (Z.ltb_spec 1 (Z.of_nat (length l))) as [Hgt|]; [|lia].
    apply IH. rewrite reduce_level_length.
    pose proof (Nat.Div0.mul_div_le (length l + 1) 2). lia.
Qed.

Lemma reduce_level_nonempty (l : list bytes) : l ≠ [] → reduce_level l ≠ [].
Proof. by destruct l as [|a [|b k]]. Qed.

Lemma reduce_loop_nonempty (fuel : nat) (l : list bytes) :
  l ≠ [] → reduce_loop fuel l ≠ [].
Proof.
  revert l. induction fuel as [|fuel IH]; intros l Hl; [done|].
  simpl. destruct (1 <? len l); [|done]. by apply IH, reduce_level_nonempty.
Qed.

(** [get_root] on a non-empty tree returns the single node the loop ends
    with. *)
Lemma get_root_total (t : MerkleTree) :
  leaves t ≠ [] → reduce_loop (length (leaves t)) (leaves t) = [get_root t].
Proof.
  intros Hne. unfold get_root.
  pose proof (reduce_loop_terminates (length (leaves t)) (leaves t)) as Hlen.
  pose proof (reduce_loop_nonempty (length (leaves t)) (leaves t) Hne) as Hnn.
  destruct (leaves t) as [|a l] eqn:Hl; [done|]. rewrite <- Hl in *.
  destruct (reduce_loop _ _) as [|r [|r' rs]]; [done|done|].
  simpl in Hlen. lia.
Qed.

Lemma get_root_empty : get_root {| leaves := [] |} = repeat x00 32.
Proof. reflexivity. Qed.




Example get_root_three_entries :
  leaves Sample.three_entries
  = [sha256 (ascii_bytes "a"); sha256 (ascii_bytes "b"); sha256 (ascii_bytes "c")]
  ∧ map Z_of_byte (take 4 (get_root Sample.three_entries)) = [231; 99; 40; 182].
Proof. vm_compute. done. Qed.

(** ** IdentityAndQuorum: signing *)

Section Signing.
Context (L : EcdsaLib).
Implicit Types (m : SKCManager L) (p : CrispPacket) (w : World).

Lemma sign_packet_payload w m p :
  payload (sign_packet L w m p)
  = payload p ++ [x00; x01] ++ take 32 (ecdsa_sign L (private_key m) (nonce w) (payload p)).
Proof.
  unfold sign_packet. change 32 with (Z.of_nat 32). by rewrite slice_to_take.
Qed.

(** C7, amended: signing keeps the payload it is given, prior
    signature sections included, as a prefix, and appends one section
    to it: the two-byte count 1, then the first 32 bytes of the new
    signature.  The count written is 1 whatever the packet already
    carries, and it comes before the signature.  The checksum is
    recomputed over the extended payload. *)
Theorem sign_packet_appends_section w m p :
  let sig := ecdsa_sign L (private_key m) (nonce w) (payload p) in
  let p' := sign_packet L w m p in
  payload p' = payload p ++ [x00; x01] ++ take 32 sig
  ∧ checksum p' = calculate_checksum 0x01 (payload p')
  ∧ checksum p' = be_bytes 4 (crc32 (payload p'))
  ∧ type_id p' = type_id p.
Proof. intros sig p'. split; [apply sign_packet_payload|done]. Qed.

(** C10: the signed packet takes its sequence from the clock and its
    type from the packet signed; the sequence of the packet signed
    plays no part in the result. *)
Theorem sign_packet_fresh_sequence w m p :
  sequence (sign_packet L w m p) = time_ms (now w)
  ∧ type_id (sign_packet L w m p) = type_id p
  ∧ ∀ s : Z, sign_packet L w m (with_sequence s p) = sign_packet L w m p.
Proof. done. Qed.

End Signing.

Example sign_packet_drops_sequence :
  let p := new_packet 1600000000 0x60 (ascii_bytes "abc") (Some 1) 0x01 in
  sequence p = 1
  ∧ sequence (sign_packet Sample.lib Sample.world Sample.node_a p) = 1700000000000.
Proof. vm_compute. done. Qed.

(** C7 as stated fails: a packet signed once and then signed again has
    the count 1, not 2, in the section the second signing wrote, and its
    last two bytes, which are signature bytes, do not read as 2 either. *)
Lemma sign_twice_count_not_two :
  let p1 := sign_packet Sample.lib Sample.world Sample.node_a Sample.default_packet in
  let p2 := sign_packet Sample.lib Sample.world Sample.node_a p1 in
  count_field p1 = 1 ∧ count_field p2 = 1 ∧ trailing_count p2 ≠ 2.
Proof. vm_compute. repeat split; discriminate. Qed.

(** ** IdentityAndQuorum: verification *)

Lemma sample_slice_r (r rest : bytes) :
  length r = 32%nat → slice 4 36 (x30 :: x44 :: x02 :: x20 :: r ++ rest) = r.
Proof.
  intros Hlen. unfold slice, py_slice, norm_index. cbn [Z.ltb Z.compare length].
  rewrite length_app, Hlen.
  replace (Z.to_nat (Z.min 36 _)) with 36%nat by lia.
  replace (Z.to_nat (Z.min 4 _)) with 4%nat by lia.
  change (take 32 (r ++ rest) = r). rewrite take_app_length'; done.
Qed.

(** The stand-in library accepts, untruncated, what it signs. *)
Example sample_sign_then_verify (msg : bytes) :
  verify Sample.lib Sample.key_a (Sample.sign Sample.key_a 7 msg) msg = true.
Proof.
  unfold verify, Sample.sign. cbn [app]. rewrite bool_decide_eq_true_2 by done.
  cbn [andb ecdsa_check Sample.lib]. unfold Sample.check. apply bool_decide_eq_true_2.
  rewrite sample_slice_r by (vm_compute; reflexivity). reflexivity.
Qed.

Section Verification.
Context (L : EcdsaLib).
Implicit Types (m : SKCManager L) (p : CrispPacket) (w : World).

(** [pub.verify] raises on a signature that does not start with the
    DER [SEQUENCE] tag. *)
Lemma verify_needs_der_tag (pub : PublicKey L) (b : byte) (sig msg : bytes) :
  b ≠ x30 → verify L pub (b :: sig) msg = false.
Proof. intros Hb. unfold verify. by rewrite bool_decide_eq_false_2. Qed.

(** On a payload of two bytes or more, the result is the comparison of
    the count of valid signatures with the threshold. *)
Lemma verify_signature_quorum m p (public_keys : list (PublicKey L)) :
  2 <= len (payload p) →
  verify_signature L m p public_keys
  = Ok (quorum_threshold m <=? verified_count L p public_keys).
Proof.
  intros Hlen. unfold verify_signature, verified_count, trailing_count, unpack.
  assert (length (slice_from (-2) (payload p)) = 2%nat) as Hbuf.
  { rewrite slice_from_neg by lia. rewrite length_drop. unfold len in *. lia. }
  rewrite bool_decide_eq_true_2 by done.
  cbn [mbind result_bind unpack_fields unpack_field field_size].
  by rewrite (take_ge (slice_from (-2) (payload p)) 2) by lia.
Qed.

(** Shorter payloads make [struct.unpack] raise. *)
Lemma verify_signature_short m p (public_keys : list (PublicKey L)) :
  len (payload p) < 2 → verify_signature L m p public_keys = Raise StructError.
Proof.
  intros Hlen. unfold verify_signature, unpack.
  rewrite bool_decide_eq_false_2; [done|].
  unfold slice_from, py_slice, norm_index, len in *. rewrite length_take, length_drop.
  simpl calcsize. case_cmp; lia.
Qed.

(** With a single candidate key, at most the first slice is checked. *)
Lemma verify_signature_single_key m p (pub : PublicKey L) :
  2 <= len (payload p) →
  ∃ c : Z,
    verify_signature L m p [pub] =
    Ok (quorum_threshold m <=?
          if (0 <? c) && verify L pub (slice (-34) (-2) (payload p))
                           (slice_to (-2 - c * 32) (payload p))
          then 1 else 0).
Proof.
  intros Hlen. unfold verify_signature, unpack.
  rewrite slice_from_neg by lia. rewrite bool_decide_eq_true_2; last first.
  { rewrite length_drop. unfold len in *. simpl. lia. }
  set (buf := drop _ _). cbn [mbind result_bind unpack_fields unpack_field field_size].
  exists (be_to_Z (take 2 buf)). set (c := be_to_Z (take 2 buf)).
  destruct (Z.ltb_spec 0 c) as [Hc|Hc].
  - destruct (Z.to_nat c) as [|n] eqn:Hn; [lia|].
    cbn [seq map combine]. change (-2 - Z.of_nat 0 * 32 - 32) with (-34).
    change (-2 - Z.of_nat 0 * 32) with (-2).
    destruct (map _ (map _ _)); cbn [combine andb];
      rewrite filter_cons; destruct (verify _ _ _ _); by case_decide.
  - replace (Z.to_nat c) with 0%nat by lia. done.
Qed.

(** C2 (as the code behaves): a packet signed by [sign_packet] never
    verifies against one candidate key when the threshold is at least 1.
    [sign_packet] writes the count before the signature, while
    [verify_signature] takes the first signature from the 32 bytes
    before the last two, which here start with the count's zero byte. *)
Theorem verify_signature_rejects_signed w (ma mb : SKCManager L) p (pub : PublicKey L) :
  (32 ≤ length (ecdsa_sign L (private_key ma) (nonce w) (payload p)))%nat →
  1 <= quorum_threshold mb →
  verify_signature L mb (sign_packet L w ma p) [pub] = Ok false.
Proof.
  intros Hsig Hq. pose proof (sign_packet_payload L w ma p) as Hpay.
  set (sig := ecdsa_sign _ _ _ _) in *. set (p' := sign_packet _ _ _ _) in *.
  assert (len (payload p') = len (payload p) + 34) as Hlen.
  { rewrite Hpay. unfold len. rewrite !length_app, length_take. cbn [length]. lia. }
  destruct (verify_signature_single_key mb p' pub) as [c ->]; [unfold len in *; lia|].
  rewrite slice_neg by (unfold len in *; lia). rewrite Hlen.
  replace (Z.to_nat (len (payload p) + 34 + -34)) with (length (payload p))
    by (unfold len; lia).
  rewrite Hpay, drop_app_length. change (Z.to_nat (-2 - -34)) with (S 31).
  cbn [app take]. rewrite verify_needs_der_tag by done. rewrite andb_false_r.
  f_equal. apply Z.leb_gt. lia.
Qed.

End Verification.

(** The threshold is 3 with quorums, 1 without. *)
Lemma init_quorum_threshold (L : EcdsaLib) (node : string) (cfg : CrispConfig)
    (priv : PrivateKey L) :
  quorum_threshold (init L node cfg priv) = if use_quorums cfg then 3 else 1.
Proof. reflexivity. Qed.

(** Node A signs, node B (threshold 1) checks against A's key alone. *)
Lemma verify_signature_rejects_signed_witness :
  let p := new_packet 1700000000 0x60 (ascii_bytes "E") None 0x01 in
  quorum_threshold Sample.node_b = 1
  ∧ verify_signature Sample.lib Sample.node_b
      (sign_packet Sample.lib Sample.world Sample.node_a p)
      [public_key Sample.node_a] = Ok false.
Proof.
  split; [reflexivity|].
  apply (verify_signature_rejects_signed Sample.lib Sample.world
           Sample.node_a Sample.node_b).
  - vm_compute. lia.
  - vm_compute. discriminate.
Defined.

(** ** ConflictResolver *)

Lemma create_error_response_ok (now : Q) (corr ty code : Z) (msg : string) :
  0 <= corr < 2 ^ 64 → 0 <= ty < 256 → 0 <= code < 65536 →
  0 <= len (ascii_bytes msg) < 65536 →
  create_error_response now corr ty code msg =
  Ok (new_packet now 0xE0 (error_payload corr ty code msg) None 0x01).
Proof.
  intros Hc Ht He Hm. unfold create_error_response, pack. cbn [pack_fields].
  rewrite (pack_int fQ), (pack_int fB), !(pack_int fH) by done. reflexivity.
Qed.

Section Conflicts.
Context (L : EcdsaLib).
Implicit Types (m : SKCManager L) (p : CrispPacket) (w : World).

Lemma cast_votes_none m (nodes : list string) (votes : gmap Z Q) :
  (∀ node, node ∈ nodes → storage m !! ("vote:" +:+ node) = None) →
  fold_left (cast_vote L m) nodes votes = votes.
Proof.
  revert votes. induction nodes as [|n nodes IH]; intros votes Hn; [done|].
  simpl. unfold cast_vote at 2. rewrite Hn by left. apply IH.
  intros node Hin. apply Hn. by right.
Qed.

(** The resolver returns one of the two packets in every case: the
    list [collect_votes] returns is never empty, so the branch that
    builds the error response is never taken. *)
Lemma resolve_semantic_conflict_returns_packet m (incoming stored : CrispPacket) :
  resolve_semantic_conflict L m incoming stored = Ok incoming
  ∨ resolve_semantic_conflict L m incoming stored = Ok stored.
Proof.
  unfold resolve_semantic_conflict, collect_votes, sorted_desc.
  cbn [fold_right insert_desc]. destruct (Qle_bool _ _); auto.
Qed.

(** C1 (as the code behaves): with no vote cast, the resolver returns
    the incoming packet itself, not an error response. *)
Theorem resolve_semantic_conflict_no_votes m (incoming stored : CrispPacket) :
  no_votes_cast m →
  resolve_semantic_conflict L m incoming stored = Ok incoming.
Proof.
  intros Hv. unfold resolve_semantic_conflict, collect_votes.
  rewrite cast_votes_none by done. cbn [fold_left].
  set (votes := <[sequence stored := 0%Q]> _).
  assert (∀ q, q = incoming ∨ q = stored → votes !! sequence q = Some 0%Q) as Hl.
  { intros q [-> | ->]; unfold votes.
    - destruct (decide (sequence stored = sequence incoming)) as [->|Hne].
      + apply lookup_insert_eq.
      + rewrite lookup_insert_ne by done. apply lookup_insert_eq.
    - apply lookup_insert_eq. }
  unfold sorted_desc. cbn [fold_right insert_desc].
  rewrite !Hl by auto. reflexivity.
Qed.

(** C6 (as the code behaves): at an age of exactly 5 seconds the packet
    is accepted silently.  Past 5 seconds the code first encodes the
    packet: when that succeeds the encoding is stored under the
    deadlock key and the DeadlockTimeout response is returned; when
    [encode] raises (a sequence of 2^32 or more, as every clock-derived
    sequence is), the exception propagates and nothing is recorded. *)
Theorem resolve_deadlock_boundary w p m :
  ((now w - timestamp p == 5)%Q → resolve_deadlock L w p m = (Ok None, m))
  ∧ ((5 < now w - timestamp p)%Q →
     match encode p with
     | Ok data =>
         resolve_deadlock L w p m =
         (Ok (Some (new_packet (now w) 0xE0
                      (error_payload (sequence p) (type_id p) 0x000B "Deadlock timeout")
                      None 0x01)),
          with_storage (<["deadlock:" +:+ pretty (sequence p) := PBytes data]> (storage m)) m)
     | Raise e => resolve_deadlock L w p m = (Raise e, m)
     end).
Proof.
  unfold resolve_deadlock, is_expired. split.
  - intros Hage. rewrite (proj2 (Qle_bool_iff _ _)); [done|]. rewrite Hage. apply Qle_refl.
  - intros Hage. destruct (Qle_bool _ _) eqn:Hle.
    { apply Qle_bool_iff in Hle. exfalso. by apply (Qlt_not_le _ _ Hage). }
    cbn [negb]. pose proof (encode_spec p) as He.
    case_bool_decide as Hf.
    + rewrite He. destruct Hf as (Ht & _ & Hs).
      cbn [mbind M_bind lift update mret M_ret].
      rewrite create_error_response_ok; [done|lia|done|done|by vm_compute].
    + rewrite He. done.
Qed.

End Conflicts.

(** No votes, digests that differ: the resolver hands back the incoming
    packet, whose type is 0x60, not the error type 0xE0. *)
Lemma resolve_semantic_conflict_no_votes_witness :
  no_votes_cast Sample.node_a
  ∧ slice 23 39 (payload Sample.incoming_1) ≠ slice 23 39 (payload Sample.stored_2)
  ∧ resolve_semantic_conflict Sample.lib Sample.node_a Sample.incoming_1 Sample.stored_2
    = Ok Sample.incoming_1
  ∧ type_id Sample.incoming_1 = 0x60.
Proof.
  assert (no_votes_cast Sample.node_a) as Hv by (intros node _; apply lookup_empty).
  split; [exact Hv|]. split; [vm_compute; discriminate|].
  split; [|reflexivity].
  exact (resolve_semantic_conflict_no_votes Sample.lib Sample.node_a
           Sample.incoming_1 Sample.stored_2 Hv).
Defined.

(** Both sides of the boundary, and the default packet one second past
    it: age 5 is accepted; at age 6 a packet with sequence 1 is recorded
    and answered, while the packet with a clock-derived sequence makes the
    method raise. *)
Lemma resolve_deadlock_boundary_witness :
  resolve_deadlock Sample.lib Sample.world_5s Sample.incoming_1 Sample.node_a
  = (Ok None, Sample.node_a)
  ∧ (∃ r m', resolve_deadlock Sample.lib Sample.world_6s Sample.incoming_1 Sample.node_a
             = (Ok (Some r), m')
             ∧ type_id r = 0xE0 ∧ is_Some (storage m' !! "deadlock:1"))
  ∧ resolve_deadlock Sample.lib Sample.world_6s Sample.default_packet Sample.node_a
    = (Raise StructError, Sample.node_a).
Proof.
  split; [|split].
  - apply (proj1 (resolve_deadlock_boundary Sample.lib Sample.world_5s
                    Sample.incoming_1 Sample.node_a)).
    vm_compute. reflexivity.
  - pose proof (proj2 (resolve_deadlock_boundary Sample.lib Sample.world_6s
                         Sample.incoming_1 Sample.node_a)) as H.
    destruct (encode Sample.incoming_1) as [data|e] eqn:He; [|by vm_compute in He].
    eexists _, _. split; [apply H; vm_compute; reflexivity|].
    split; [reflexivity|]. cbn [storage with_storage].
    change (pretty (sequence Sample.incoming_1)) with "1".
    rewrite lookup_insert_eq. by eexists.
  - pose proof (proj2 (resolve_deadlock_boundary Sample.lib Sample.world_6s
                         Sample.default_packet Sample.node_a)) as H.
    assert (encode Sample.default_packet = Raise StructError) as He
      by (vm_compute; reflexivity).
    rewrite He in H. apply H. vm_compute. reflexivity.
Defined.

(** ** What the methods leave unchanged *)

Section Footprint.
Context (L : EcdsaLib).
Implicit Types (m : SKCManager L) (p : CrispPacket) (w : World).

Lemma run_get {A} (k : SKCManager L → M L A) m : (get_self L ≫= k) m = k m m.
Proof. reflexivity. Qed.

Lemma run_update {A} (f : SKCManager L → SKCManager L) (k : unit → M L A) m :
  (update L f ≫= k) m = k tt (f m).
Proof. reflexivity. Qed.

Lemma run_ret {A B} (a : A) (k : A → M L B) m : (mret a ≫= k) m = k a m.
Proof. reflexivity. Qed.

Lemma run_lift_ok {A B} (a : A) (k : A → M L B) m : (lift L (Ok a) ≫= k) m = k a m.
Proof. reflexivity. Qed.

Lemma run_bind_bind {A B C} (c : M L A) (f : A → M L B) (k : B → M L C) m :
  ((c ≫= f) ≫= k) m = (c ≫= (fun a => f a ≫= k)) m.
Proof. unfold mbind, M_bind. by destruct (c m) as [[a|e] m']. Qed.

Section Invariant.
Context (I : SKCManager L → Prop).

Lemma preserves_ret {A} (a : A) : preserves I (mret a).
Proof. by intros m. Qed.

Lemma preserves_get : preserves I (get_self L).
Proof. by intros m. Qed.

Lemma preserves_lift {A} (r : result A) : preserves I (lift L r).
Proof. by intros m. Qed.

Lemma preserves_raise {A} (e : exn) : preserves I (raise L (A := A) e).
Proof. by intros m. Qed.

Lemma preserves_update (f : SKCManager L → SKCManager L) :
  (∀ m, I m → I (f m)) → preserves I (update L f).
Proof. intros Hf m. apply Hf. Qed.

Lemma preserves_bind {A B} (c : M L A) (k : A → M L B) :
  preserves I c → (∀ a, preserves I (k a)) → preserves I (c ≫= k).
Proof.
  intros Hc Hk m Hm. specialize (Hc m Hm). unfold mbind, M_bind.
  destruct (c m) as [[a|e] m']; [by apply Hk|done].
Qed.

(** Reading the state first does not matter for the invariant, and
    lets the continuation use it. *)
Lemma preserves_get_bind {A} (k : SKCManager L → M L A) :
  (∀ m, I m → I (snd (k m m))) → preserves I (get_self L ≫= k).
Proof. intros Hk m Hm. rewrite run_get. by apply Hk. Qed.

Lemma preserves_at {A} (c : M L A) m : preserves I c → I m → I (snd (c m)).
Proof. intros Hc. apply Hc. Qed.

Lemma raises_bind_r {A B} (c : M L A) (k : A → M L B) :
  preserves I c → (∀ a, raises_under I (k a)) → raises_under I (c ≫= k).
Proof.
  intros Hc Hk m Hm. specialize (Hc m Hm). unfold mbind, M_bind.
  destruct (c m) as [[a|e] m']; [by apply Hk|by exists e].
Qed.

Lemma raises_get_bind {A} (k : SKCManager L → M L A) :
  (∀ m, I m → ∃ e, fst (k m m) = Raise e) → raises_under I (get_self L ≫= k).
Proof. intros Hk m Hm. rewrite run_get. by apply Hk. Qed.

Lemma raises_at {A} (c : M L A) m :
  raises_under I c → I m → ∃ e, fst (c m) = Raise e.
Proof. intros Hc. apply Hc. Qed.

End Invariant.

End Footprint.

Ltac pres_step :=
  lazymatch goal with
  | |- preserves _ (mret _) => apply preserves_ret
  | |- preserves _ (raise _ _) => apply preserves_raise
  | |- preserves _ (lift _ _) => apply preserves_lift
  | |- preserves _ (get_self _) => apply preserves_get
  | |- preserves _ (update _ _) =>
      apply preserves_update; intros ? ?; first [by apply storage_blind | done]
  | |- preserves _ (_ ≫= _) => apply preserves_bind; [|intros ?]
  | |- preserves _ (match ?x with _ => _ end) => destruct x
  end.

Section Blind.
Context (L : EcdsaLib) (I : SKCManager L → Prop) `{!StorageBlind L I}.
Implicit Types (m : SKCManager L) (p : CrispPacket) (w : World).

Lemma store_for_preserves (targets : list string) p :
  preserves I (store_for L targets p).
Proof.
  induction targets as [|node rest IH]; [apply preserves_ret|].
  cbn [store_for]. repeat pres_step. done.
Qed.

Lemma resolve_deadlock_preserves w p : preserves I (resolve_deadlock L w p).
Proof. unfold resolve_deadlock. repeat pres_step. Qed.

Lemma check_conflict_preserves w p : preserves I (check_conflict L w p).
Proof.
  unfold check_conflict. apply preserves_get_bind. intros m Hm.
  apply preserves_at; [|done].
  repeat first [apply resolve_deadlock_preserves | pres_step].
Qed.

Lemma gossip_sync_preserves w p (leaders : option (list string)) :
  preserves I (gossip_sync L w p leaders).
Proof.
  unfold gossip_sync. apply preserves_bind; [repeat pres_step|intros _].
  apply preserves_get_bind. intros m Hm. apply preserves_at; [|done].
  repeat first [apply store_for_preserves | apply check_conflict_preserves | pres_step].
Qed.

End Blind.

(** ** SyncOrchestrator *)

Section Sync.
Context (L : EcdsaLib).
Implicit Types (m : SKCManager L) (p : CrispPacket) (w : World).

#[local] Instance has_neighbors_blind ns : StorageBlind L (has_neighbors L ns).
Proof. by intros m s. Qed.

Lemma trim_vector_clock_neighbors ns (n : Z) :
  preserves (has_neighbors L ns) (trim_vector_clock L n).
Proof.
  unfold trim_vector_clock. apply preserves_get_bind. intros m Hm.
  destruct (use_vector_clocks _); [|done]. by destruct (vector_clock m).
Qed.

Lemma encode_vector_clock_neighbors ns :
  preserves (has_neighbors L ns) (encode_vector_clock L).
Proof.
  unfold encode_vector_clock. apply preserves_get_bind. intros m Hm.
  destruct (negb _); [done|]. apply preserves_at; [|done].
  apply preserves_bind; [apply trim_vector_clock_neighbors|intros _].
  apply preserves_get_bind. intros m' Hm'. destruct (vector_clock m'); [|done].
  apply preserves_at; [|done]. repeat pres_step.
Qed.

(** [gossip_sync] raises as soon as there is a target and the packet
    cannot be encoded. *)
Lemma gossip_sync_raises w p (n : string) (ns : list string) :
  is_ok (encode p) = false →
  raises_under (has_neighbors L (n :: ns)) (gossip_sync L w p None).
Proof.
  intros He. unfold gossip_sync. apply raises_bind_r; [repeat pres_step|].
  intros _. apply raises_get_bind. intros m Hm. rewrite Hm.
  cbn [store_for]. unfold mbind at 1 2, M_bind, lift. cbn [fst].
  destruct (encode p) as [data|e]; [done|by exists e].
Qed.

(** Every clock-derived sequence from 2^32 milliseconds on (any date
    after 19 February 1970) is out of range for the header field. *)
Lemma encode_signed_raises w m p :
  2 ^ 32 <= time_ms (now w) → is_ok (encode (sign_packet L w m p)) = false.
Proof.
  intros Ht. pose proof (encode_spec (sign_packet L w m p)) as He.
  rewrite bool_decide_eq_false_2 in He; [by rewrite He|].
  intros (_ & _ & Hs). cbn [sign_packet new_packet sequence] in Hs. lia.
Qed.

(** C4 (as the code behaves): whenever the clock reads 2^32
    milliseconds or more and the manager has a neighbor, [sync_skc]
    raises, whatever its arguments: the signed packet takes its sequence
    from the clock, and [encode] cannot pack it into the header. *)
Theorem sync_skc_raises w m (id_range_start id_range_end : Z) (entries : bytes)
    (priority : option Z) :
  2 ^ 32 <= time_ms (now w) → neighbors m ≠ [] →
  ∃ e, fst (sync_skc L w id_range_start id_range_end entries priority m) = Raise e.
Proof.
  intros Ht Hn. destruct (neighbors m) as [|n ns] eqn:Hns; [done|].
  set (I := has_neighbors L (n :: ns)).
  apply (raises_at L I); [|done].
  unfold sync_skc. apply raises_get_bind. intros m0 Hm0.
  apply (raises_at L I); [|done].
  apply raises_bind_r; [repeat pres_step|intros _].
  do 3 (apply raises_bind_r; [by apply preserves_update|intros _]).
  apply raises_get_bind. intros m1 Hm1. apply (raises_at L I); [|done].
  apply raises_bind_r; [repeat pres_step|intros _].
  apply raises_bind_r; [apply encode_vector_clock_neighbors|intros clock_bytes].
  apply raises_get_bind. intros m2 Hm2. apply (raises_at L I); [|done].
  apply raises_bind_r; [apply preserves_lift|intros head].
  apply gossip_sync_raises. by apply encode_signed_raises.
Qed.

End Sync.

(** On a fresh manager at a present-day clock reading, the exception is
    [struct.error]. *)
Example sync_skc_struct_error :
  fst (sync_skc Sample.lib Sample.world 100 200 (ascii_bytes "E") None Sample.node_a)
  = Raise StructError.
Proof. vm_compute. reflexivity. Qed.

Lemma sync_skc_raises_witness :
  2 ^ 32 <= time_ms (now Sample.world)
  ∧ ∃ e, fst (sync_skc Sample.lib Sample.world 100 200 (ascii_bytes "E") None
                Sample.node_a) = Raise e.
Proof.
  split; [vm_compute; discriminate|].
  apply sync_skc_raises; [vm_compute; discriminate|vm_compute; discriminate].
Defined.

(** ** VectorClock *)

Lemma dict_get_set {V} (k : string) (v default : V) (d : list (string * V)) :
  dict_get (dict_set k v d) k default = v.
Proof.
  unfold dict_get. induction d as [|[k' v'] d IH]; simpl.
  - by rewrite String.eqb_refl.
  - destruct (String.eqb k' k) eqn:Hk; simpl.
    + by rewrite String.eqb_refl.
    + by rewrite Hk.
Qed.

Lemma dict_set_present_length {V} (k : string) (v : V) (d : list (string * V)) :
  k ∈ d.*1 → length (dict_set k v d) = length d.
Proof.
  induction d as [|[k' v'] d IH]; csimpl; [by intros ?%elem_of_nil|].
  destruct (String.eqb_spec k' k) as [->|Hne]; [done|].
  intros [?|?]%elem_of_cons; [done|]. csimpl. by rewrite IH.
Qed.

(** *** [sorted(..., reverse=True)] sorts, and permutes *)

Section SortedLemmas.
Context {A : Type} (key : A → Z).

Lemma insert_desc_perm (x : A) (l : list A) :
  insert_desc Z.leb key x l ≡ₚ x :: l.
Proof.
  induction l as [|y l IH]; simpl; [done|].
  destruct (key y <=? key x); [done|]. rewrite IH. apply Permutation_swap.
Qed.

Lemma sorted_desc_perm (l : list A) : sorted_desc Z.leb key l ≡ₚ l.
Proof.
  induction l as [|x l IH]; simpl; [done|].
  rewrite insert_desc_perm. by rewrite IH.
Qed.

Lemma insert_desc_sorted (x : A) (l : list A) :
  StronglySorted (desc key) l → StronglySorted (desc key) (insert_desc Z.leb key x l).
Proof.
  induction 1 as [|y l Hl IH Hy]; simpl; [by repeat constructor|].
  destruct (Z.leb_spec (key y) (key x)) as [Hle|Hgt].
  - constructor; [by constructor|]. constructor; [done|].
    eapply Forall_impl; [exact Hy|]. unfold desc. intros z Hz. simpl in *. lia.
  - constructor; [done|]. rewrite insert_desc_perm. constructor; [|done].
    unfold desc. lia.
Qed.

Lemma sorted_desc_sorted (l : list A) :
  StronglySorted (desc key) (sorted_desc Z.leb key l).
Proof.
  induction l as [|x l IH]; simpl; [constructor|]. by apply insert_desc_sorted.
Qed.

Lemma sorted_split (l1 l2 : list A) :
  StronglySorted (desc key) (l1 ++ l2) → ∀ a b, a ∈ l1 → b ∈ l2 → key b <= key a.
Proof.
  induction l1 as [|x l1 IH]; simpl; intros Hs a b Ha Hb; [by apply elem_of_nil in Ha|].
  inversion Hs as [|? ? Hs' Hx]; subst.
  apply elem_of_cons in Ha as [->|Ha]; [|by apply IH].
  rewrite Forall_forall in Hx. apply Hx, elem_of_app. by right.
Qed.

End SortedLemmas.

(** What trimming keeps: at most [max_nodes] entries, taken from the
    clock, and no dropped entry has a higher counter than a kept one. *)
Lemma trim_clock_spec (max_nodes : nat) (vc : list (string * Z)) :
  let kept := trim_clock (Z.of_nat max_nodes) vc in
  len kept <= Z.max (Z.of_nat max_nodes) 0
  ∧ ∃ dropped, vc ≡ₚ kept ++ dropped
      ∧ ∀ k d, k ∈ kept → d ∈ dropped → snd d <= snd k.
Proof.
  unfold trim_clock. destruct (Z.ltb_spec (Z.of_nat max_nodes) (len vc)) as [Hlt|Hge].
  - rewrite slice_to_take. split.
    { unfold len. rewrite length_take. lia. }
    exists (drop max_nodes (sorted_desc Z.leb snd vc)). split.
    + rewrite take_drop. symmetry. apply sorted_desc_perm.
    + intros k d Hk Hd.
      apply (sorted_split snd (take max_nodes (sorted_desc Z.leb snd vc))
               (drop max_nodes (sorted_desc Z.leb snd vc))); [|done..].
      rewrite take_drop. apply sorted_desc_sorted.
  - split; [unfold len in *; lia|]. exists []. split; [by rewrite app_nil_r|].
    by intros k d _ ?%elem_of_nil.
Qed.

Lemma trim_clock_small (max_nodes : Z) (vc : list (string * Z)) :
  len vc <= max_nodes → trim_clock max_nodes vc = vc.
Proof. intros H. unfold trim_clock. by destruct (Z.ltb_spec max_nodes (len vc)); [lia|]. Qed.

Lemma StronglySorted_app_l {A} (R : A → A → Prop) (l1 l2 : list A) :
  StronglySorted R (l1 ++ l2) → StronglySorted R l1.
Proof.
  induction l1 as [|x l1 IH]; [constructor|]. simpl. intros Hs.
  inversion Hs as [|? ? Hs' Hx]; subst. constructor; [by apply IH|].
  by apply Forall_app in Hx as [? _].
Qed.

(** What [trim_clock 10] keeps: everything, in its order, when the
    clock holds at most ten entries; otherwise exactly ten entries in
    descending order of their counters, none of them lower than an
    entry that is dropped. *)
Lemma trim_clock_exact (vc : list (string * Z)) :
  len (trim_clock 10 vc) = Z.min (len vc) 10
  ∧ (len vc <= 10 → trim_clock 10 vc = vc)
  ∧ (10 < len vc → StronglySorted (desc snd) (trim_clock 10 vc))
  ∧ ∃ dropped, vc ≡ₚ trim_clock 10 vc ++ dropped
      ∧ (∀ k d, k ∈ trim_clock 10 vc → d ∈ dropped → snd d <= snd k)
      ∧ (dropped ≠ [] → len (trim_clock 10 vc) = 10).
Proof.
  unfold trim_clock. destruct (Z.ltb_spec 10 (len vc)) as [Hlt|Hge].
  - rewrite (slice_to_take 10 (sorted_desc Z.leb snd vc) : slice_to 10 _ = _).
    pose proof (Permutation_length (sorted_desc_perm snd vc)) as Hl.
    assert (len (take 10 (sorted_desc Z.leb snd vc)) = 10) as Hk.
    { unfold len in *. rewrite length_take. lia. }
    split; [lia|]. split; [lia|]. split.
    { intros _. apply (StronglySorted_app_l _ _ (drop 10 (sorted_desc Z.leb snd vc))).
      rewrite take_drop. apply sorted_desc_sorted. }
    exists (drop 10 (sorted_desc Z.leb snd vc)). split; [|split; [|done]].
    + rewrite take_drop. symmetry. apply sorted_desc_perm.
    + intros k d Hk' Hd.
      apply (sorted_split snd (take 10 (sorted_desc Z.leb snd vc))
               (drop 10 (sorted_desc Z.leb snd vc))); [|done..].
      rewrite take_drop. apply sorted_desc_sorted.
  - split; [lia|]. split; [done|]. split; [lia|]. exists [].
    split; [by rewrite app_nil_r|]. split; [|done]. by intros k d _ ?%elem_of_nil.
Qed.

(** *** Reading a clock whose keys are unique *)

Lemma dict_set_elem {V} (k : string) (v : V) (d : list (string * V)) :
  (k, v) ∈ dict_set k v d.
Proof.
  induction d as [|[k' v'] d IH]; simpl; [by left|].
  destruct (String.eqb_spec k' k); [by left|by right].
Qed.

Lemma dict_set_fst {V} (k : string) (v : V) (d : list (string * V)) :
  (dict_set k v d).*1 = if bool_decide (k ∈ d.*1) then d.*1 else d.*1 ++ [k].
Proof.
  induction d as [|[k' v'] d IH].
  { rewrite bool_decide_eq_false_2; [done|]. apply not_elem_of_nil. }
  cbn [dict_set fst]. rewrite fmap_cons. cbn [fst].
  destruct (String.eqb_spec k' k) as [->|Hne].
  - rewrite bool_decide_eq_true_2; [done|]. by left.
  - rewrite fmap_cons, IH. cbn [fst]. case_bool_decide as Hk.
    + rewrite bool_decide_eq_true_2; [done|]. by right.
    + rewrite bool_decide_eq_false_2; [done|].
      by intros [?|?]%elem_of_cons.
Qed.

Lemma dict_set_keys {V} (k : string) (v : V) (d : list (string * V)) :
  NoDup d.*1 → NoDup (dict_set k v d).*1.
Proof.
  intros Hnd. rewrite dict_set_fst. case_bool_decide as Hk; [done|].
  apply NoDup_app. split; [done|]. split; [|apply NoDup_singleton].
  intros x Hx ?%list_elem_of_singleton. by subst.
Qed.

Lemma dict_get_absent {V} (d : list (string * V)) (k : string) (default : V) :
  k ∉ d.*1 → dict_get d k default = default.
Proof.
  unfold dict_get. induction d as [|[k' v'] d IH]; csimpl; [done|].
  intros [Hne Hk]%not_elem_of_cons.
  destruct (String.eqb_spec k' k) as [->|_]; [done|]. by apply IH.
Qed.

Lemma dict_get_elem {V} (d : list (string * V)) (k : string) (v default : V) :
  NoDup d.*1 → (k, v) ∈ d → dict_get d k default = v.
Proof.
  unfold dict_get. induction d as [|[k' v'] d IH]; csimpl; [by intros _ ?%elem_of_nil|].
  intros [Hk' Hnd]%NoDup_cons [[= -> ->]|Hin]%elem_of_cons.
  - by rewrite String.eqb_refl.
  - destruct (String.eqb_spec k' k) as [->|_]; [|by apply IH].
    destruct Hk'. apply list_elem_of_fmap. by exists (k, v).
Qed.

Lemma keys_unique {V} (d : list (string * V)) (k : string) (v v' : V) :
  NoDup d.*1 → (k, v) ∈ d → (k, v') ∈ d → v = v'.
Proof.
  intros Hnd Hv Hv'. rewrite <- (dict_get_elem d k v v Hnd Hv).
  by apply dict_get_elem.
Qed.

(** The counter read for [node] after a trim that kept [kept] of
    [bumped]: its own when the entry is kept, 0 when it is dropped. *)
Lemma kept_own_counter (node : string) (c : Z) (bumped kept dropped : list (string * Z)) :
  NoDup bumped.*1 → bumped ≡ₚ kept ++ dropped → (node, c) ∈ bumped →
  dict_get kept node 0 = if bool_decide ((node, c) ∈ kept) then c else 0.
Proof.
  intros Hnd Hp Hin.
  assert (NoDup kept.*1) as Hk.
  { rewrite Hp, fmap_app in Hnd. by apply NoDup_app in Hnd as [? _]. }
  case_bool_decide as Hc; [by apply dict_get_elem|].
  apply dict_get_absent. intros ([k x] & Hkx & Hx)%list_elem_of_fmap.
  simpl in Hkx. subst k. apply Hc.
  assert ((node, x) ∈ bumped) as Hb by (rewrite Hp; apply elem_of_app; by left).
  by rewrite (keys_unique bumped node c x Hnd Hin Hb).
Qed.

(** An entry survives the trim whenever at most ten entries have a
    counter at least as high as its own. *)
Lemma trim_keeps (own : string * Z) (bumped kept dropped : list (string * Z)) :
  bumped ≡ₚ kept ++ dropped →
  (∀ k d, k ∈ kept → d ∈ dropped → snd d <= snd k) →
  (dropped ≠ [] → len kept = 10) →
  NoDup bumped.*1 → own ∈ bumped →
  len (filter (fun kv => snd own <= snd kv) bumped) <= 10 → own ∈ kept.
Proof.
  intros Hp Hle Hfull Hnd Hin Hcount.
  pose proof Hin as Hin'. rewrite Hp in Hin'. apply elem_of_app in Hin' as [?|Hd]; [done|].
  exfalso. assert (dropped ≠ []) as Hne by (intros ->; by apply elem_of_nil in Hd).
  specialize (Hfull Hne).
  assert (filter (fun kv => snd own <= snd kv) kept = kept) as Hk.
  { clear -Hle Hd. induction kept as [|k kept IH]; [done|].
    rewrite filter_cons_True by (apply Hle; [by left|done]). f_equal.
    apply IH. intros k' d Hk'. apply Hle. by right. }
  assert (own ∈ filter (fun kv => snd own <= snd kv) dropped) as Hown.
  { apply list_elem_of_filter. split; [lia|done]. }
  assert (0 < len (filter (fun kv => snd own <= snd kv) dropped)) as Hpos.
  { unfold len. destruct (filter _ dropped); [by apply elem_of_nil in Hown|simpl; lia]. }
  unfold len in *. rewrite Hp, filter_app, Hk, length_app in Hcount. lia.
Qed.

(** It is dropped whenever ten entries have a higher counter. *)
Lemma trim_drops (own : string * Z) (bumped kept dropped : list (string * Z)) :
  bumped ≡ₚ kept ++ dropped →
  (∀ k d, k ∈ kept → d ∈ dropped → snd d <= snd k) →
  len kept <= 10 →
  10 <= len (filter (fun kv => snd own < snd kv) bumped) → own ∉ kept.
Proof.
  intros Hp Hle Hlen Hcount Hin.
  assert (filter (fun kv => snd own < snd kv) dropped = []) as Hd.
  { clear -Hle Hin. induction dropped as [|d dropped IH]; [done|].
    rewrite filter_cons_False.
    - apply IH. intros k d' Hk Hd'. apply Hle; [done|]. by right.
    - assert (d ∈ d :: dropped) as Hd by by left.
      specialize (Hle own d Hin Hd). lia. }
  pose proof (length_filter_lt (fun kv => snd own < snd kv) kept own Hin
                (Z.lt_irrefl _)).
  unfold len in *. rewrite Hp, filter_app, Hd, app_nil_r in Hcount. lia.
Qed.

Lemma pack_items_length (items : list (string * Z)) (bs : bytes) :
  pack_items items = Ok bs → len bs = 36 * len items.
Proof.
  revert bs. induction items as [|[k v] items IH]; intros bs; simpl.
  - intros [= <-]. done.
  - destruct (pack _ _) as [b|] eqn:Hb; [|done]. simpl.
    destruct (pack_items items) as [bs'|]; [|done]. simpl. intros [= <-].
    unfold pack in Hb. destruct (pack_fields _ _) as [b'|] eqn:Hb'; [|done].
    injection Hb as ->. apply pack_fields_length in Hb'.
    unfold len in *. rewrite length_app, Hb'. specialize (IH _ eq_refl).
    simpl calcsize. simpl length. lia.
Qed.

Section Clock.
Context (L : EcdsaLib).
Implicit Types (m : SKCManager L) (p : CrispPacket) (w : World).

#[local] Instance clock_view_blind nd cfg vc : StorageBlind L (clock_view L nd cfg vc).
Proof. by intros m s. Qed.

Lemma encode_vector_clock_run m vc :
  use_vector_clocks (config m) = true → vector_clock m = Some vc →
  encode_vector_clock L m =
    (n ← pack [fI] [SInt (len (trim_clock 10 vc))];
     items ← pack_items (trim_clock 10 vc);
     Ok (n ++ items),
     with_vector_clock (Some (trim_clock 10 vc)) m).
Proof.
  intros Hf Hvc. unfold encode_vector_clock, trim_vector_clock.
  unfold mbind, mret, M_bind, M_ret, get_self, update, lift, raise.
  rewrite Hf. cbn beta iota zeta delta [negb]. rewrite Hf, Hvc.
  cbn beta iota zeta delta [vector_clock with_vector_clock].
  unfold result_bind. destruct (pack _ _); [destruct (pack_items _)|]; done.
Qed.

Lemma encode_vector_clock_off m :
  use_vector_clocks (config m) = false → encode_vector_clock L m = (Ok [], m).
Proof.
  intros Hf. unfold encode_vector_clock. rewrite run_get, Hf. reflexivity.
Qed.

Lemma encode_vector_clock_view nd cfg vc :
  len vc <= 10 → preserves (clock_view L nd cfg vc) (encode_vector_clock L).
Proof.
  intros Hlen m (Hn & Hc & Hv). destruct (use_vector_clocks (config m)) eqn:Hf.
  - rewrite (encode_vector_clock_run m vc) by done. cbn [snd].
    by rewrite trim_clock_small.
  - by rewrite encode_vector_clock_off.
Qed.

(** One call: the local counter goes up by one, and nothing else in
    the clock changes as long as it holds at most 10 entries. *)
Lemma sync_skc_clock w (s e : Z) (entries : bytes) (priority : option Z)
    nd cfg vc m :
  use_vector_clocks cfg = true →
  len (dict_set nd (dict_get vc nd 0 + 1) vc) <= 10 →
  clock_view L nd cfg vc m →
  clock_view L nd cfg (dict_set nd (dict_get vc nd 0 + 1) vc)
    (snd (sync_skc L w s e entries priority m)).
Proof.
  intros Hf Hlen (Hn & Hc & Hv). unfold sync_skc. rewrite run_get.
  rewrite Hc, Hf, Hv, Hn. rewrite run_update.
  set (vc' := dict_set _ _ _) in *.
  assert (clock_view L nd cfg vc' (with_vector_clock (Some vc') m)) as Hm' by done.
  revert Hm'. generalize (with_vector_clock (Some vc') m). clear m Hn Hc Hv.
  intros m Hm. set (I := clock_view L nd cfg vc').
  apply (preserves_at L I); [|done].
  do 3 (apply preserves_bind; [by apply preserves_update|intros _]).
  apply preserves_get_bind. intros m1 Hm1. apply (preserves_at L I); [|done].
  apply preserves_bind; [repeat pres_step|intros _].
  apply preserves_bind; [by apply encode_vector_clock_view|intros clock_bytes].
  apply preserves_get_bind. intros m2 Hm2. apply (preserves_at L I); [|done].
  apply preserves_bind; [apply preserves_lift|intros head].
  apply gossip_sync_preserves, _.
Qed.

Lemma run_syncs_clock node cfg (calls : list SyncCall) (n : Z) m :
  use_vector_clocks cfg = true →
  clock_view L node cfg [(node, n)] m →
  clock_view L node cfg [(node, n + Z.of_nat (length calls))] (run_syncs L m calls).
Proof.
  intros Hf. revert n m. induction calls as [|c calls IH]; intros n m Hm.
  - simpl. by rewrite Z.add_0_r.
  - cbn [run_syncs fold_left length].
    replace (n + Z.of_nat (S (length calls))) with (n + 1 + Z.of_nat (length calls)) by lia.
    apply IH. unfold sync_call.
    pose proof (sync_skc_clock (call_world c) (call_start c) (call_end c)
                  (call_entries c) (call_priority c) node cfg [(node, n)] m Hf) as Hs.
    unfold dict_set, dict_get in Hs. cbn [find fst snd] in Hs.
    rewrite String.eqb_refl in Hs. cbn [fst snd] in Hs. by apply Hs.
Qed.

Lemma own_counter_view node cfg (n : Z) m :
  clock_view L node cfg [(node, n)] m → own_counter m = n.
Proof.
  intros (Hn & _ & Hv). unfold own_counter, dict_get. rewrite Hv, Hn.
  cbn [find fst snd]. by rewrite String.eqb_refl.
Qed.

(** The clock a call of [sync_skc] leaves, whether it returns or
    raises: the clock with the local counter raised, trimmed to ten
    entries unless the call stopped in the cache before the trim. *)
Lemma sync_skc_clock_after w (s e : Z) (entries : bytes) (priority : option Z)
    m (vc : list (string * Z)) :
  use_vector_clocks (config m) = true → vector_clock m = Some vc →
  clock_view L (node_id m) (config m)
    (if cache_put_fails m s e entries priority then bump (node_id m) vc
     else trim_clock 10 (bump (node_id m) vc))
    (snd (sync_skc L w s e entries priority m)).
Proof.
  intros Hf Hvc. unfold sync_skc, cache_put_fails. rewrite run_get, Hf, Hvc.
  rewrite !run_update, run_get. fold (bump (node_id m) vc). fold (range_key s e).
  set (bumped := bump (node_id m) vc).
  set (m1 := with_access_counts _ _).
  assert (clock_view L (node_id m) (config m) bumped m1) as Hm1 by done.
  assert (lru_cache m1 = lru_cache m) as -> by done.
  assert (default 0 (access_counts m1 !! range_key s e)
          = default 0 (access_counts m !! range_key s e) + 1) as ->.
  { unfold m1. cbn [access_counts with_access_counts with_b_tree with_merkle_tree
                    with_vector_clock].
    by rewrite lookup_insert_eq. }
  set (n := default 0 (access_counts m !! range_key s e) + 1).
  set (prio := if 10 <? n then 2 else _).
  assert ((prio =? 2) = (10 <? n) || bool_decide (priority = Some 2)) as ->.
  { unfold prio. destruct (10 <? n); [done|]. cbn [orb].
    destruct priority as [p|]; [|done].
    destruct (Z.eqb_spec p 0) as [->|Hp]; [done|].
    destruct (Z.eqb_spec p 2) as [->|Hp2]; [done|].
    rewrite bool_decide_eq_false_2; [done|]. by intros [= ->]. }
  assert (∀ m2 : SKCManager L, clock_view L (node_id m) (config m) bumped m2 →
            clock_view L (node_id m) (config m) (trim_clock 10 bumped)
              (snd ((clock_bytes ← encode_vector_clock L;
                     m3 ← get_self L;
                     head ← lift L (pack [fI; fB; fH; fQ; fQ; fS 16; fH]
                                      [SInt (skc_version m3); SInt prio; SInt 1; SInt s;
                                       SInt e;
                                       SBytes (huffman_encode (get_root (merkle_tree m3)));
                                       SInt (len clock_bytes)]);
                     gossip_sync L w
                       (sign_packet L w m3
                          (new_packet (now w) 0x60 (head ++ clock_bytes) None 0x01))
                       None) m2))) as Htail.
  { intros m2 (Hn2 & Hc2 & Hv2).
    assert (use_vector_clocks (config m2) = true) as Hf2 by by rewrite Hc2.
    unfold mbind at 1, M_bind at 1.
    rewrite (encode_vector_clock_run m2 bumped Hf2 Hv2).
    set (m3 := with_vector_clock _ m2).
    assert (clock_view L (node_id m) (config m) (trim_clock 10 bumped) m3) as Hm3 by done.
    destruct (_ ≫= _) as [clock_bytes|err]; [|done].
    apply (preserves_at L (clock_view L (node_id m) (config m) (trim_clock 10 bumped)));
      [|done].
    apply preserves_get_bind. intros m4 Hm4.
    apply (preserves_at L (clock_view L (node_id m) (config m) (trim_clock 10 bumped)));
      [|done].
    apply preserves_bind; [apply preserves_lift|intros head].
    apply gossip_sync_preserves, _. }
  destruct ((10 <? n) || bool_decide (priority = Some 2)); cbn [andb].
  - rewrite run_bind_bind.
    destruct (lru_put (range_key s e) entries (lru_cache m)) as [c|err]; cbn [is_ok negb].
    + rewrite run_lift_ok, run_update. by apply Htail.
    + done.
  - rewrite run_ret. by apply Htail.
Qed.

(** C9, amended: a call of [sync_skc] raises the local counter by one
    and then keeps the ten entries with the highest counters: all
    entries, in their order, when there are at most ten; otherwise
    exactly ten, in descending order, none of them lower than a dropped
    one.  This is the clock the call leaves whether it returns or raises
    (a call that stops in the cache leaves the clock untrimmed).  The
    local counter therefore goes up by exactly 1 when the local entry
    survives the trim, which it does whenever at most ten entries have a
    counter at least as high, and reads 0 after the call when the entry
    is dropped, which happens whenever ten entries have a higher
    counter.  The encoded clock holds the number of kept entries and 36
    bytes for each, at most 364 bytes.  On a newly created manager,
    where no method adds another entry, the counter is the number of
    calls made. *)
Theorem vector_clock_increment_and_bound w (s e : Z) (entries : bytes)
    (priority : option Z) m (vc : list (string * Z)) :
  use_vector_clocks (config m) = true → vector_clock m = Some vc → NoDup vc.*1 →
  let c := own_counter m in
  let bumped := bump (node_id m) vc in
  let kept := trim_clock 10 bumped in
  let stopped := cache_put_fails m s e entries priority in
  let m' := snd (sync_skc L w s e entries priority m) in
  (len kept = Z.min (len bumped) 10
   ∧ (len bumped <= 10 → kept = bumped)
   ∧ (10 < len bumped → StronglySorted (desc snd) kept)
   ∧ ∃ dropped, bumped ≡ₚ kept ++ dropped
       ∧ ∀ k d, k ∈ kept → d ∈ dropped → snd d <= snd k)
  ∧ vector_clock m' = Some (if stopped then bumped else kept)
  ∧ (stopped = false →
     own_counter m' = if bool_decide ((node_id m, c + 1) ∈ kept) then c + 1 else 0)
  ∧ (stopped = true → own_counter m' = c + 1)
  ∧ (len (filter (fun kv => c + 1 <= snd kv) bumped) <= 10 → own_counter m' = c + 1)
  ∧ (stopped = false → 10 <= len (filter (fun kv => c + 1 < snd kv) bumped) →
     own_counter m' = 0)
  ∧ (∀ (m0 : SKCManager L) (vc0 : list (string * Z)),
       use_vector_clocks (config m0) = true → vector_clock m0 = Some vc0 →
       vector_clock (snd (encode_vector_clock L m0)) = Some (trim_clock 10 vc0)
       ∧ ∀ bs, fst (encode_vector_clock L m0) = Ok bs →
           take 4 bs = be_bytes 4 (len (trim_clock 10 vc0))
           ∧ len bs = 4 + 36 * len (trim_clock 10 vc0) ∧ len bs <= 364)
  ∧ (∀ (node : string) (cfg : CrispConfig) (priv : PrivateKey L) (calls : list SyncCall),
       use_vector_clocks cfg = true →
       own_counter (run_syncs L (init L node cfg priv) calls) = Z.of_nat (length calls)).
Proof.
  intros Hf Hvc Hnd c bumped kept stopped m'.
  assert (c = dict_get vc (node_id m) 0) as Hc by (unfold c, own_counter; by rewrite Hvc).
  assert ((node_id m, c + 1) ∈ bumped) as Hown.
  { unfold bumped, bump. rewrite <- Hc. apply dict_set_elem. }
  assert (NoDup bumped.*1) as Hndb by by apply dict_set_keys.
  destruct (trim_clock_exact bumped) as (Hlen & Hsmall & Hsorted & dropped & Hp & Hle & Hfull).
  fold kept in Hlen, Hsmall, Hsorted, Hp, Hle, Hfull.
  pose proof (sync_skc_clock_after w s e entries priority m vc Hf Hvc) as (Hn' & _ & Hv').
  fold bumped kept stopped m' in Hn', Hv'.
  assert (own_counter m' = dict_get (if stopped then bumped else kept) (node_id m) 0) as Hc'.
  { unfold own_counter. by rewrite Hv', Hn'. }
  assert (dict_get bumped (node_id m) 0 = c + 1) as Hb by by apply dict_get_elem.
  assert (dict_get kept (node_id m) 0
          = if bool_decide ((node_id m, c + 1) ∈ kept) then c + 1 else 0) as Hk
    by by apply (kept_own_counter _ _ bumped kept dropped).
  split; [by eauto 10|]. split; [done|].
  split; [intros Hs; by rewrite Hc', Hs|].
  split; [intros Hs; by rewrite Hc', Hs|].
  split; [|split; [|split]].
  - intros Hcount. rewrite Hc'. destruct stopped; [done|]. rewrite Hk.
    rewrite bool_decide_eq_true_2; [done|].
    by apply (trim_keeps (node_id m, c + 1) bumped kept dropped).
  - intros Hs Hcount. rewrite Hc', Hs, Hk. rewrite bool_decide_eq_false_2; [done|].
    apply (trim_drops (node_id m, c + 1) bumped kept dropped); [done..|lia|done].
  - intros m0 vc0 Hf0 Hvc0. rewrite (encode_vector_clock_run m0 vc0) by done.
    cbn [fst snd vector_clock with_vector_clock]. split; [done|].
    destruct (trim_clock_exact vc0) as (Hlen0 & _).
    set (kept0 := trim_clock 10 vc0) in *. clearbody kept0.
    intros bs. unfold pack. cbn [pack_fields]. rewrite (pack_int fI); last first.
    { intros n. discriminate. }
    { change (256 ^ Z.of_nat (field_size fI)) with 4294967296. unfold len in *. lia. }
    cbn [mbind result_bind field_size].
    destruct (pack_items kept0) as [items|] eqn:Hi; [|done].
    intros [= <-]. apply pack_items_length in Hi. split; [reflexivity|].
    unfold len in *. cbn [length]. lia.
  - intros node cfg priv calls Hfc.
    apply (own_counter_view node cfg), (run_syncs_clock node cfg calls 0); [done|].
    unfold clock_view, init. cbn [node_id config vector_clock]. by rewrite Hfc.
Qed.

End Clock.

Lemma crowded_keys :
  NoDup (map (fun i => ("peer" +:+ pretty i, 5)) (seq 0 10)).*1.
Proof. apply (bool_decide_unpack _). vm_compute. reflexivity. Qed.

(** On a clock of ten peers with counter 5 the theorem says that the
    local entry is dropped; on the one-entry clock of a new manager it
    says that the counter goes from 0 to 1, and after two calls it
    reads 2. *)
Lemma vector_clock_increment_and_bound_witness :
  (own_counter Sample.crowded = 0
   ∧ own_counter (snd (sync_call Sample.lib Sample.third_call Sample.crowded)) = 0)
  ∧ (own_counter Sample.node_a = 0
     ∧ own_counter (snd (sync_call Sample.lib Sample.third_call Sample.node_a)) = 1)
  ∧ own_counter (run_syncs Sample.lib Sample.node_a Sample.two_calls) = 2.
Proof.
  split; [split; [reflexivity|]|split; [split; [reflexivity|]|]].
  - destruct (vector_clock_increment_and_bound Sample.lib
                (call_world Sample.third_call) 300 400 (ascii_bytes "G") None
                Sample.crowded _ eq_refl eq_refl crowded_keys)
      as (_ & _ & _ & _ & _ & Hdrop & _).
    apply Hdrop; [reflexivity|]. vm_compute. discriminate.
  - destruct (vector_clock_increment_and_bound Sample.lib
                (call_world Sample.third_call) 300 400 (ascii_bytes "G") None
                Sample.node_a [("nodeA", 0)] eq_refl eq_refl)
      as (_ & _ & _ & _ & Hkeep & _).
    { apply (bool_decide_unpack _). vm_compute. reflexivity. }
    apply Hkeep. vm_compute. discriminate.
  - destruct (vector_clock_increment_and_bound Sample.lib
                (call_world Sample.third_call) 300 400 (ascii_bytes "G") None
                Sample.crowded _ eq_refl eq_refl crowded_keys)
      as (_ & _ & _ & _ & _ & _ & _ & Hnew).
    exact (Hnew "nodeA" default_config Sample.key_a Sample.two_calls eq_refl).
Defined.

(** The sentence of the specification fails on both counts once the
    clock holds entries of ten peers with higher counters: a local
    counter that reads 0 still reads 0 after a call, and one that reads
    3 reads 0 after it. *)
Example own_counter_lost_in_trim :
  (own_counter Sample.crowded = 0
   ∧ own_counter (snd (sync_call Sample.lib Sample.third_call Sample.crowded)) = 0)
  ∧ (own_counter Cases.crowded_own = 3
     ∧ own_counter (snd (sync_call Sample.lib Sample.third_call Cases.crowded_own)) = 0).
Proof. vm_compute. done. Qed.


(** * Part 4: further properties of the code *)

Lemma Ok_inj {A} (a b : A) : Ok a = Ok b → a = b.
Proof. by intros [= ->]. Qed.

(** ** Big-endian integers *)

Lemma Z_of_byte_of_Z (z : Z) : Z_of_byte (byte_of_Z z) = z mod 256.
Proof.
  unfold Z_of_byte, byte_of_Z.
  assert (0 <= z mod 256 < 256) as Hm by (apply Z.mod_pos_bound; lia).
  destruct (Byte.of_N (Z.to_N (z mod 256))) as [b|] eqn:Hb.
  - apply Byte.to_of_N in Hb. rewrite Hb. lia.
  - apply Byte.of_N_None_iff in Hb. lia.
Qed.

Lemma be_to_Z_snoc (bs : bytes) (b : byte) :
  be_to_Z (bs ++ [b]) = be_to_Z bs * 256 + Z_of_byte b.
Proof. unfold be_to_Z. by rewrite fold_left_app. Qed.

Lemma be_to_Z_be_bytes (n : nat) (z : Z) :
  0 <= z < 256 ^ Z.of_nat n → be_to_Z (be_bytes n z) = z.
Proof.
  revert z. induction n as [|n IH]; intros z Hz.
  - simpl in *. unfold be_to_Z. simpl. lia.
  - cbn [be_bytes]. rewrite be_to_Z_snoc, Z_of_byte_of_Z.
    rewrite Nat2Z.inj_succ, Z.pow_succ_r in Hz by lia.
    rewrite IH.
    + pose proof (Z.div_mod z 256). lia.
    + split; [apply Z.div_pos; lia|]. apply Z.div_lt_upper_bound; lia.
Qed.

Lemma slice_nat {A} (i j : nat) (l : list A) :
  slice (Z.of_nat i) (Z.of_nat j) l = take (j - i) (drop i l).
Proof.
  unfold slice, py_slice, norm_index.
  destruct (Z.ltb_spec (Z.of_nat i) 0); [lia|]. destruct (Z.ltb_spec (Z.of_nat j) 0); [lia|].
  destruct (decide (i ≤ length l)%nat) as [Hi|Hi].
  - rewrite (Z.min_l (Z.of_nat i)) by lia. rewrite Nat2Z.id.
    destruct (decide (j ≤ length l)%nat) as [Hj|Hj].
    + rewrite Z.min_l by lia. by rewrite Nat2Z.id.
    + rewrite Z.min_r by lia. rewrite Nat2Z.id.
      rewrite !take_ge; [done|rewrite length_drop; lia..].
  - rewrite (Z.min_r (Z.of_nat i)) by lia. rewrite Nat2Z.id.
    rewrite !(drop_ge l) by lia. by rewrite !take_nil.
Qed.

Lemma slice_from_nat {A} (i : nat) (l : list A) :
  slice_from (Z.of_nat i) l = drop i l.
Proof.
  unfold slice_from, py_slice, norm_index.
  destruct (Z.ltb_spec (Z.of_nat i) 0); [lia|].
  destruct (decide (i ≤ length l)%nat) as [Hi|Hi].
  - rewrite Z.min_l by lia. rewrite Nat2Z.id. apply take_ge. rewrite length_drop. lia.
  - rewrite Z.min_r by lia. rewrite Nat2Z.id. rewrite !(drop_ge l) by lia. apply take_nil.
Qed.

Lemma slice_app_mid {A} (i j : nat) (a b c : list A) :
  length a = i → length b = (j - i)%nat →
  slice (Z.of_nat i) (Z.of_nat j) (a ++ b ++ c) = b.
Proof.
  intros <- Hb. rewrite slice_nat, drop_app_length, <- Hb. apply take_app_length.
Qed.

(** ** CrispPacket.encode *)

(** X1: [encode] returns exactly when the type fits one byte, the
    payload is at most 65523 bytes long and the sequence fits 32 bits;
    in every other case it raises [struct.error]. *)
Theorem encode_succeeds_iff (p : CrispPacket) :
  (is_ok (encode p) = true ↔
     0 <= type_id p < 256 ∧ len (payload p) <= 65523 ∧ 0 <= sequence p < 2 ^ 32)
  ∧ (is_ok (encode p) = false ↔ encode p = Raise StructError).
Proof.
  pose proof (encode_spec p) as H. case_bool_decide as Hr; rewrite H; simpl.
  - split; [|done]. split; [|done]. intros _. unfold len in *. lia.
  - split; [|done]. split; [done|]. intros (? & ? & ?). exfalso. apply Hr.
    unfold len in *. lia.
Qed.

(** X2: what [encode] returns is the payload after an 11-byte header
    whose fields, read back by position, are the packet's type, sequence
    and (when it is 4 bytes long) checksum; the length field holds the
    payload length plus 12, one more than the number of bytes returned. *)
Theorem encode_wire_fields (p : CrispPacket) (data : bytes) :
  encode p = Ok data →
  len data = len (payload p) + 11
  ∧ wire_type data = type_id p
  ∧ wire_length data = len data + 1
  ∧ wire_sequence data = sequence p
  ∧ (length (checksum p) = 4%nat → wire_checksum data = checksum p)
  ∧ wire_payload data = payload p.
Proof.
  intros He. pose proof (encode_spec p) as H. case_bool_decide as Hr; [|congruence].
  assert (length (take 4 (checksum p ++ repeat x00 4)) = 4%nat) as Hc.
  { rewrite length_take, length_app, repeat_length. lia. }
  set (c := take 4 (checksum p ++ repeat x00 4)) in *.
  set (h1 := be_bytes 1 (type_id p)) in *.
  set (h2 := be_bytes 2 (len (payload p) + 12)) in *.
  set (h4 := be_bytes 4 (sequence p)) in *.
  assert (data = h1 ++ h2 ++ h4 ++ c ++ payload p) as ->.
  { rewrite H in He. injection He as <-. by rewrite <- !app_assoc. }
  clear H He. destruct Hr as (Ht & Hl & Hs).
  assert (length h1 = 1%nat ∧ length h2 = 2%nat ∧ length h4 = 4%nat) as (L1 & L2 & L4)
    by (unfold h1, h2, h4; by rewrite !be_bytes_length).
  assert (len (h1 ++ h2 ++ h4 ++ c ++ payload p) = len (payload p) + 11) as Hlen.
  { unfold len. rewrite !length_app, L1, L2, L4, Hc. lia. }
  split; [done|]. split.
  { unfold wire_type. change 0 with (Z.of_nat 0). change 1 with (Z.of_nat 1).
    rewrite <- (app_nil_l (h1 ++ _)).
    rewrite (slice_app_mid 0 1 [] h1) by done. by apply be_to_Z_be_bytes. }
  split.
  { unfold wire_length. change 1 with (Z.of_nat 1) at 1. change 3 with (Z.of_nat 3).
    rewrite (slice_app_mid 1 3 h1 h2) by done. rewrite Hlen. unfold h2.
    rewrite be_to_Z_be_bytes by done. lia. }
  split.
  { unfold wire_sequence. change 3 with (Z.of_nat 3). change 7 with (Z.of_nat 7).
    rewrite (app_assoc h1 h2).
    rewrite (slice_app_mid 3 7 (h1 ++ h2) h4) by (by rewrite ?length_app, ?L1, ?L2).
    by apply be_to_Z_be_bytes. }
  split.
  { intros Hck. unfold wire_checksum. change 7 with (Z.of_nat 7). change 11 with (Z.of_nat 11).
    rewrite (app_assoc h1 h2), (app_assoc (h1 ++ h2) h4).
    rewrite (slice_app_mid 7 11 ((h1 ++ h2) ++ h4) c)
      by (by rewrite ?length_app, ?L1, ?L2, ?L4).
    unfold c. by rewrite take_app_length'. }
  unfold wire_payload. change 11 with (Z.of_nat 11). rewrite slice_from_nat.
  rewrite (app_assoc h1 h2), (app_assoc (h1 ++ h2) h4), (app_assoc _ c).
  rewrite drop_app_length'; [done|]. rewrite !length_app, L1, L2, L4, Hc. done.
Qed.

Lemma encode_wire_fields_witness :
  let p := new_packet 1700000000 0x60 (ascii_bytes "abc") (Some 1) 0x01 in
  ∃ data, encode p = Ok data ∧ len data = 14 ∧ wire_length data = 15
          ∧ wire_sequence data = 1 ∧ wire_payload data = ascii_bytes "abc".
Proof.
  eexists. split; [vm_compute; reflexivity|].
  edestruct (encode_wire_fields (new_packet 1700000000 0x60 (ascii_bytes "abc") (Some 1) 0x01))
    as (H1 & _ & H3 & H4 & _ & H6); [vm_compute; reflexivity|].
  split; [exact H1|]. split; [exact H3|]. split; [exact H4|exact H6].
Defined.

(** ** CrispPacket.create_error_response and is_expired *)

Lemma create_error_response_raises (now : Q) (corr ty code : Z) (msg : string) :
  ¬ (0 <= corr < 2 ^ 64 ∧ 0 <= ty < 256 ∧ 0 <= code < 65536
     ∧ len (ascii_bytes msg) < 65536) →
  create_error_response now corr ty code msg = Raise StructError.
Proof.
  intros Hr. unfold create_error_response, pack. cbn [pack_fields].
  destruct (decide (0 <= corr < 2 ^ 64)) as [Hc|Hc]; [|by rewrite (pack_int_None fQ)].
  rewrite (pack_int fQ) by done.
  destruct (decide (0 <= ty < 256)) as [Ht|Ht]; [|by rewrite (pack_int_None fB)].
  rewrite (pack_int fB) by done.
  destruct (decide (0 <= code < 65536)) as [He|He]; [|by rewrite (pack_int_None fH)].
  rewrite (pack_int fH) by done.
  rewrite (pack_int_None fH); [done|]. intros Hm. apply Hr.
  change (256 ^ Z.of_nat (field_size fH)) with 65536 in Hm. unfold len in *. lia.
Qed.

Lemma error_payload_fields (corr ty code : Z) (msg : string) :
  0 <= corr < 2 ^ 64 → 0 <= ty < 256 → 0 <= code < 65536 →
  len (ascii_bytes msg) < 65536 →
  len (error_payload corr ty code msg) = 13 + len (ascii_bytes msg)
  ∧ err_correlation_id (error_payload corr ty code msg) = corr
  ∧ err_original_type (error_payload corr ty code msg) = ty
  ∧ err_code (error_payload corr ty code msg) = code
  ∧ err_message_length (error_payload corr ty code msg) = len (ascii_bytes msg)
  ∧ err_message (error_payload corr ty code msg) = ascii_bytes msg.
Proof.
  intros Hc Ht He Hm.
  assert (0 <= len (ascii_bytes msg) < 65536) as Hm' by (unfold len in *; lia).
  unfold error_payload.
  set (h8 := be_bytes 8 corr). set (h1 := be_bytes 1 ty).
  set (h2 := be_bytes 2 code). set (h2' := be_bytes 2 (len (ascii_bytes msg))).
  assert (length h8 = 8%nat ∧ length h1 = 1%nat ∧ length h2 = 2%nat ∧ length h2' = 2%nat)
    as (L8 & L1 & L2 & L2') by (unfold h8, h1, h2, h2'; by rewrite !be_bytes_length).
  rewrite app_nil_r, <- !app_assoc.
  split.
  { unfold len. rewrite !length_app, L8, L1, L2, L2'. lia. }
  split.
  { unfold err_correlation_id. change 0 with (Z.of_nat 0). change 8 with (Z.of_nat 8).
    rewrite <- (app_nil_l (h8 ++ _)). rewrite (slice_app_mid 0 8 [] h8) by done.
    by apply be_to_Z_be_bytes. }
  split.
  { unfold err_original_type. change 8 with (Z.of_nat 8). change 9 with (Z.of_nat 9).
    rewrite (slice_app_mid 8 9 h8 h1) by done. by apply be_to_Z_be_bytes. }
  split.
  { unfold err_code. change 9 with (Z.of_nat 9). change 11 with (Z.of_nat 11).
    rewrite (app_assoc h8 h1).
    rewrite (slice_app_mid 9 11 (h8 ++ h1) h2) by (by rewrite ?length_app, ?L8, ?L1).
    by apply be_to_Z_be_bytes. }
  split.
  { unfold err_message_length. change 11 with (Z.of_nat 11). change 13 with (Z.of_nat 13).
    rewrite (app_assoc h8 h1), (app_assoc (h8 ++ h1) h2).
    rewrite (slice_app_mid 11 13 ((h8 ++ h1) ++ h2) h2')
      by (by rewrite ?length_app, ?L8, ?L1, ?L2).
    by apply be_to_Z_be_bytes. }
  unfold err_message. change 13 with (Z.of_nat 13). rewrite slice_from_nat.
  rewrite (app_assoc h8 h1), (app_assoc (h8 ++ h1) h2), (app_assoc _ h2').
  rewrite drop_app_length'; [done|]. by rewrite !length_app, L8, L1, L2, L2'.
Qed.

(** X3: an error response is built exactly when the correlation id fits
    64 bits, the original type one byte, the code 16 bits and the message
    is shorter than 65536 bytes ([struct.error] otherwise).  It has type
    0xE0 and a clock-derived sequence, and its payload, read back by
    position, holds the four numbers and then the message. *)
Theorem create_error_response_fields (now : Q) (corr ty code : Z) (msg : string) :
  (is_ok (create_error_response now corr ty code msg) = true ↔
     0 <= corr < 2 ^ 64 ∧ 0 <= ty < 256 ∧ 0 <= code < 65536
     ∧ len (ascii_bytes msg) < 65536)
  ∧ (is_ok (create_error_response now corr ty code msg) = false ↔
     create_error_response now corr ty code msg = Raise StructError)
  ∧ ∀ r, create_error_response now corr ty code msg = Ok r →
      type_id r = 0xE0 ∧ sequence r = time_ms now
      ∧ len (payload r) = 13 + len (ascii_bytes msg)
      ∧ err_correlation_id (payload r) = corr
      ∧ err_original_type (payload r) = ty
      ∧ err_code (payload r) = code
      ∧ err_message_length (payload r) = len (ascii_bytes msg)
      ∧ err_message (payload r) = ascii_bytes msg.
Proof.
  destruct (decide (0 <= corr < 2 ^ 64 ∧ 0 <= ty < 256 ∧ 0 <= code < 65536
                    ∧ len (ascii_bytes msg) < 65536)) as [Hr|Hr].
  - destruct Hr as (Hc & Ht & He & Hm).
    assert (0 <= len (ascii_bytes msg) < 65536) as Hm' by (unfold len in *; lia).
    rewrite create_error_response_ok by done. cbn [is_ok].
    split; [done|]. split; [done|]. intros r <-%Ok_inj.
    cbn [type_id sequence payload new_packet]. do 2 (split; [done|]).
    by apply error_payload_fields.
  - rewrite create_error_response_raises by done. cbn [is_ok].
    split; [split; [done|by intros ?]|]. split; [done|]. by intros r.
Qed.

(** X4: a packet is not expired at the moment it is built, and once
    expired it stays expired at every later clock reading. *)
Theorem is_expired_monotone (now : Q) (tid : Z) (data : bytes) (seq : option Z) (ctype : Z) :
  is_expired now (new_packet now tid data seq ctype) = false
  ∧ ∀ (p : CrispPacket) (t t' : Q),
      (t <= t')%Q → is_expired t p = true → is_expired t' p = true.
Proof.
  split.
  - unfold is_expired. cbn [timestamp new_packet].
    rewrite (proj2 (Qle_bool_iff _ _)); [done|].
    assert (now - now == 0)%Q as -> by ring. by unfold Qle.
  - intros p t t' Ht. unfold is_expired. rewrite !negb_true_iff.
    intros He. destruct (Qle_bool (t' - timestamp p) 5) eqn:Hle; [|done].
    apply Qle_bool_iff in Hle. assert (Qle_bool (t - timestamp p) 5 = true); [|congruence].
    apply Qle_bool_iff. eapply Qle_trans; [|exact Hle].
    apply Qplus_le_l. done.
Qed.

Lemma error_payload_code (corr ty code : Z) (msg : string) :
  0 <= code < 65536 → err_code (error_payload corr ty code msg) = code.
Proof.
  intros He. unfold err_code, error_payload.
  rewrite app_nil_r, <- !app_assoc.
  change 9 with (Z.of_nat 9). change 11 with (Z.of_nat 11).
  rewrite (app_assoc (be_bytes 8 corr)).
  rewrite (slice_app_mid 9 11 (be_bytes 8 corr ++ be_bytes 1 ty) (be_bytes 2 code))
    by (by rewrite ?length_app, !be_bytes_length).
  by apply be_to_Z_be_bytes.
Qed.

Lemma create_error_response_inv (now : Q) (corr ty code : Z) (msg : string) (r : CrispPacket) :
  create_error_response now corr ty code msg = Ok r →
  type_id r = 0xE0 ∧ err_code (payload r) = code.
Proof.
  destruct (decide (0 <= corr < 2 ^ 64 ∧ 0 <= ty < 256 ∧ 0 <= code < 65536
                    ∧ len (ascii_bytes msg) < 65536)) as [Hr|Hr].
  - destruct Hr as (Hc & Ht & He & Hm).
    rewrite create_error_response_ok by (unfold len in *; done || lia).
    intros [= <-]. split; [done|]. by apply error_payload_code.
  - by rewrite create_error_response_raises.
Qed.

(** ** SKCManager.check_conflict *)

Section CheckConflict.
Context (L : EcdsaLib).
Implicit Types (m : SKCManager L) (p : CrispPacket) (w : World).

Lemma check_conflict_header w p m :
  use_vector_clocks (config m) = true → 39 <= len (payload p) →
  check_conflict L w p m =
  match storage m !! conflict_key m p with
  | Some v =>
      if truthy v then
        (stored_packet ← lift L (match v with
                                 | PBytes b => decode (now w) b
                                 | PInt _ => Raise TypeError
                                 end);
         let stored_hash := slice 23 39 (payload stored_packet) in
         if negb (bytes_eqb stored_hash (drop 23 (take 39 (payload p)))) then
           match resolve_semantic_conflict L m p stored_packet with
           | Raise IndexError =>
               r ← lift L (create_error_response (now w) (sequence p) (type_id p)
                             0x0001 "Invalid stored packet");
               mret (Some r)
           | Raise e => raise L e
           | Ok q => mret (Some q)
           end
         else resolve_deadlock L w p) m
      else resolve_deadlock L w p m
  | None => resolve_deadlock L w p m
  end.
Proof.
  intros Hf Hlen. unfold check_conflict. rewrite run_get, Hf. cbn [negb].
  unfold unpack, conflict_key.
  rewrite (slice_to_take 39 (payload p) : slice_to 39 (payload p) = _).
  rewrite bool_decide_eq_true_2; last first.
  { rewrite length_take. unfold len in *.
    change (calcsize [fI; fB; fH; fQ; fQ; fS 16]) with 39%nat. lia. }
  cbn [unpack_fields unpack_field field_size].
  rewrite take_take. change (4 `min` 39)%nat with 4%nat.
  change (drop 8 (drop 8 (drop 2 (drop 1 (drop 4 (take 39 (payload p)))))))
    with (drop 8 (drop 8 (drop 2 (drop 1 (drop 4 (take 39 (payload p))))))).
  rewrite !drop_drop. cbn [Nat.add].
  rewrite (take_ge (drop 23 _)); [|rewrite length_drop, length_take; lia].
  destruct (storage m !! _) as [v|]; [|done]. destruct (truthy v); done.
Qed.

Lemma check_conflict_off w p m :
  use_vector_clocks (config m) = false → check_conflict L w p m = (Ok None, m).
Proof. intros Hf. unfold check_conflict. rewrite run_get, Hf. reflexivity. Qed.

Lemma resolve_deadlock_answer w p m (r : CrispPacket) m' :
  resolve_deadlock L w p m = (Ok (Some r), m') →
  create_error_response (now w) (sequence p) (type_id p) 0x000B "Deadlock timeout" = Ok r.
Proof.
  unfold resolve_deadlock. destruct (is_expired _ _); [|done].
  unfold mbind, mret, M_bind, M_ret, lift, update.
  destruct (encode p); [|done]. destruct (create_error_response _ _ _ _ _); [|done].
  by intros [= ->].
Qed.

Lemma check_conflict_short w p m :
  use_vector_clocks (config m) = true → len (payload p) < 39 →
  check_conflict L w p m =
  (if bool_decide (0 <= sequence p < 2 ^ 64 ∧ 0 <= type_id p < 256)
   then Ok (Some (new_packet (now w) 0xE0
                    (error_payload (sequence p) (type_id p) 0x0001 "Invalid packet format")
                    None 0x01))
   else Raise StructError, m).
Proof.
  intros Hf Hlen. unfold check_conflict. rewrite run_get, Hf. cbn [negb].
  unfold unpack.
  rewrite (slice_to_take 39 (payload p) : slice_to 39 (payload p) = _).
  rewrite bool_decide_eq_false_2; last first.
  { rewrite length_take. unfold len in *.
    change (calcsize [fI; fB; fH; fQ; fQ; fS 16]) with 39%nat. lia. }
  case_bool_decide as Hr.
  - destruct Hr. rewrite create_error_response_ok; [done..|by vm_compute].
  - rewrite create_error_response_raises; [done|]. intros (? & ? & _). by apply Hr.
Qed.

(** X5: a payload shorter than the 39-byte sync header is answered with
    an error response of type 0xE0 that carries the sequence and the type
    of the packet, the code 0x0001 and the message "Invalid packet
    format", when the sequence fits 64 bits and the type one byte;
    otherwise building the response raises [struct.error].  The state is
    unchanged in both cases. *)
Theorem check_conflict_malformed w p m :
  use_vector_clocks (config m) = true → len (payload p) < 39 →
  (0 <= sequence p < 2 ^ 64 ∧ 0 <= type_id p < 256 →
   ∃ r, check_conflict L w p m = (Ok (Some r), m)
        ∧ type_id r = 0xE0
        ∧ err_correlation_id (payload r) = sequence p
        ∧ err_original_type (payload r) = type_id p
        ∧ err_code (payload r) = 0x0001
        ∧ err_message (payload r) = ascii_bytes "Invalid packet format")
  ∧ (¬ (0 <= sequence p < 2 ^ 64 ∧ 0 <= type_id p < 256) →
     check_conflict L w p m = (Raise StructError, m)).
Proof.
  intros Hf Hlen. rewrite check_conflict_short by done. split.
  - intros Hr. rewrite (bool_decide_eq_true_2 _ Hr). destruct Hr as [Hs Ht].
    eexists. split; [done|]. cbn [type_id payload new_packet]. split; [done|].
    destruct (error_payload_fields (sequence p) (type_id p) 0x0001 "Invalid packet format")
      as (_ & H1 & H2 & H3 & _ & H5); try done.
  - intros Hr. by rewrite (bool_decide_eq_false_2 _ Hr).
Qed.

(** X6: when nothing is stored for the packet's version,
    [check_conflict] is the deadlock check: that is so for a packet
    with a full sync header and no record under the key of the local
    node and the packet's version.  With vector clocks disabled not
    even that check is made: the result is [None] for every packet and
    the node is unchanged. *)
Theorem check_conflict_no_record w p m :
  (use_vector_clocks (config m) = false → check_conflict L w p m = (Ok None, m))
  ∧ (use_vector_clocks (config m) = true → 39 <= len (payload p) →
     storage m !! conflict_key m p = None →
     check_conflict L w p m = resolve_deadlock L w p m).
Proof.
  split; [apply check_conflict_off|].
  intros Hf Hlen Hs. rewrite check_conflict_header by done. by rewrite Hs.
Qed.

(** X7: whenever a non-empty record is stored under the key of the
    local node and the packet's version, [check_conflict] raises and
    changes nothing: decoding the record fails ([ValueError] for a
    record under 12 bytes, [struct.error] otherwise), so the digests are
    never compared and no vote is collected. *)
Theorem check_conflict_stored_record_raises w p m (record : bytes) :
  use_vector_clocks (config m) = true → 39 <= len (payload p) →
  storage m !! conflict_key m p = Some (PBytes record) → record ≠ [] →
  check_conflict L w p m
  = (Raise (if len record <? 12 then ValueError "Packet too short" else StructError), m).
Proof.
  intros Hf Hlen Hs Hne. rewrite check_conflict_header by done. rewrite Hs.
  cbn [truthy]. rewrite bool_decide_eq_false_2 by done. cbn [negb].
  rewrite decode_raises. unfold HEADER_SIZE. by destruct (len record <? 12).
Qed.

(** X8: every packet [check_conflict] returns is an error response,
    of code 0x0001 or 0x000B.  It never returns the incoming packet or a
    stored one: decoding a stored record fails before the vote, so the
    resolution by votes is never reached from here. *)
Theorem check_conflict_only_errors w p m (r : CrispPacket) m' :
  check_conflict L w p m = (Ok (Some r), m') →
  type_id r = 0xE0 ∧ (err_code (payload r) = 0x0001 ∨ err_code (payload r) = 0x000B).
Proof.
  intros Hc. destruct (use_vector_clocks (config m)) eqn:Hf;
    [|by rewrite check_conflict_off in Hc].
  assert (∀ m0, resolve_deadlock L w p m0 = (Ok (Some r), m') →
            type_id r = 0xE0
            ∧ (err_code (payload r) = 0x0001 ∨ err_code (payload r) = 0x000B)) as Hd.
  { intros m0 H0. apply resolve_deadlock_answer, create_error_response_inv in H0.
    destruct H0. auto. }
  destruct (Z.lt_ge_cases (len (payload p)) 39) as [Hlt|Hge].
  - rewrite check_conflict_short in Hc by done.
    case_bool_decide as Hr; [|done]. injection Hc as <- _.
    split; [done|]. left. by apply error_payload_code.
  - rewrite check_conflict_header in Hc by done.
    destruct (storage m !! conflict_key m p) as [v|]; [|by eapply Hd].
    destruct (truthy v); [|by eapply Hd]. unfold mbind, M_bind, lift in Hc.
    destruct v as [b|z]; [|done]. rewrite decode_raises in Hc.
    by destruct (len b <? HEADER_SIZE).
Qed.

End CheckConflict.

Lemma check_conflict_only_errors_witness :
  ∃ r, fst (check_conflict Sample.lib Sample.world Cases.short_packet Sample.node_a)
       = Ok (Some r)
       ∧ type_id r = 0xE0
       ∧ (err_code (payload r) = 0x0001 ∨ err_code (payload r) = 0x000B).
Proof.
  destruct (check_conflict Sample.lib Sample.world Cases.short_packet Sample.node_a)
    as [res m'] eqn:Hc.
  assert (∃ r, res = Ok (Some r)) as [r ->].
  { replace res with
      (fst (check_conflict Sample.lib Sample.world Cases.short_packet Sample.node_a))
      by by rewrite Hc.
    vm_compute. by eexists. }
  exists r. split; [done|].
  exact (check_conflict_only_errors Sample.lib Sample.world Cases.short_packet
           Sample.node_a r m' Hc).
Defined.

Lemma check_conflict_malformed_witness :
  len (payload Cases.short_packet) = 3
  ∧ ∃ r, check_conflict Sample.lib Sample.world Cases.short_packet Sample.node_a
         = (Ok (Some r), Sample.node_a)
         ∧ type_id r = 0xE0 ∧ err_code (payload r) = 1.
Proof.
  split; [reflexivity|].
  assert (0 <= sequence Cases.short_packet < 2 ^ 64
          ∧ 0 <= type_id Cases.short_packet < 256) as Hfit.
  { change (sequence Cases.short_packet) with 1.
    change (type_id Cases.short_packet) with 0x60. lia. }
  destruct (proj1 (check_conflict_malformed Sample.lib Sample.world Cases.short_packet
                     Sample.node_a eq_refl ltac:(vm_compute; reflexivity)) Hfit)
    as (r & Hr & Ht & _ & _ & Hc & _).
  exists r. by repeat split.
Defined.

Lemma check_conflict_no_record_witness :
  storage Sample.node_a !! conflict_key Sample.node_a Sample.incoming_1 = None
  ∧ check_conflict Sample.lib Sample.world Sample.incoming_1 Sample.node_a
    = resolve_deadlock Sample.lib Sample.world Sample.incoming_1 Sample.node_a
  ∧ check_conflict Sample.lib Sample.world Sample.incoming_1 Cases.node_c
    = (Ok None, Cases.node_c).
Proof.
  split; [reflexivity|]. split.
  - apply (proj2 (check_conflict_no_record Sample.lib Sample.world Sample.incoming_1
                    Sample.node_a));
      [reflexivity|vm_compute; discriminate|reflexivity].
  - by apply (proj1 (check_conflict_no_record Sample.lib Sample.world Sample.incoming_1
                       Cases.node_c)).
Defined.

Lemma check_conflict_stored_record_raises_witness :
  conflict_key Cases.node_a_record Sample.incoming_1 = "skc_sync:nodeA:1"
  ∧ check_conflict Sample.lib Sample.world Sample.incoming_1 Cases.node_a_record
    = (Raise StructError, Cases.node_a_record).
Proof.
  split; [vm_compute; reflexivity|].
  apply (check_conflict_stored_record_raises Sample.lib Sample.world Sample.incoming_1
           Cases.node_a_record (ascii_bytes "a stored record"));
    [reflexivity|vm_compute; discriminate|vm_compute; reflexivity|discriminate].
Defined.

(** ** SKCManager.collect_votes and resolve_semantic_conflict *)

Lemma Qle_bool_proper (a a' b b' : Q) :
  (a == a')%Q → (b == b')%Q → Qle_bool a b = Qle_bool a' b'.
Proof.
  intros Ha Hb. apply Bool.eq_true_iff_eq. rewrite !Qle_bool_iff. by rewrite Ha, Hb.
Qed.

Section Votes.
Context (L : EcdsaLib).
Implicit Types (m : SKCManager L) (p : CrispPacket) (w : World).

Lemma cast_votes_lookup m (nodes : list string) (votes : gmap Z Q) (s : Z) :
  fold_left (cast_vote L m) nodes votes !! s
  = (fun t => fold_left (count_vote m s) nodes t) <$> votes !! s.
Proof.
  revert votes. induction nodes as [|n nodes IH]; intros votes.
  { simpl. by destruct (votes !! s). }
  cbn [fold_left]. rewrite IH. unfold cast_vote.
  change (count_vote m s ?t n) with
    (if votes_for m s n then (t + default 0 (reputation m !! n))%Q else t). unfold votes_for.
  destruct (storage m !! ("vote:" +:+ n)) as [[b|v]|]; [done| |done].
  case_bool_decide as Hv.
  - subst v. destruct (votes !! s) as [t|] eqn:Ht; [|by rewrite Ht].
    by rewrite lookup_insert_eq.
  - destruct (votes !! v) as [t|]; [|done]. by rewrite lookup_insert_ne.
Qed.

Lemma count_votes_tally m (s : Z) (nodes : list string) (t : Q) :
  (fold_left (count_vote m s) nodes t
   == t + foldr Qplus 0
            (map (fun n => default 0 (reputation m !! n))
                 (filter (fun n => votes_for m s n = true) nodes)))%Q.
Proof.
  revert t. induction nodes as [|n nodes IH]; intros t.
  { simpl. ring. }
  cbn [fold_left]. rewrite IH.
  change (count_vote m s t n) with
    (if votes_for m s n then (t + default 0 (reputation m !! n))%Q else t).
  rewrite filter_cons. destruct (votes_for m s n) eqn:Hv.
  - rewrite decide_True by done. simpl. ring.
  - rewrite decide_False by done. reflexivity.
Qed.

(** What [collect_votes] returns for two packets. *)
Lemma collect_votes_pair m (incoming stored : CrispPacket) :
  collect_votes L m [incoming; stored]
  = if bool_decide (sequence incoming ≠ sequence stored)
       && negb (Qle_bool (tally m (sequence stored)) (tally m (sequence incoming)))
    then [stored; incoming] else [incoming; stored].
Proof.
  unfold collect_votes. cbn [fold_left]. unfold sorted_desc. cbn [fold_right insert_desc].
  rewrite !cast_votes_lookup.
  case_bool_decide as Hs; cbn [andb].
  - rewrite lookup_insert_eq, lookup_insert_ne, lookup_insert_eq by done. cbn [fmap option_fmap option_map default].
    rewrite (Qle_bool_proper _ (tally m (sequence stored)) _ (tally m (sequence incoming))).
    + by destruct (Qle_bool _ _).
    + rewrite count_votes_tally. apply Qplus_0_l.
    + rewrite count_votes_tally. apply Qplus_0_l.
  - rewrite Hs, !lookup_insert_eq.
    cbn [fmap option_fmap option_map default].
    set (t := id _).
    assert (Qle_bool t t = true) as -> by apply Qle_bool_iff, Qle_refl. done.
Qed.


Lemma tally_no_reputation m (s : Z) :
  (∀ n, n ∈ neighbors m → reputation m !! n = None) → (tally m s == 0)%Q.
Proof.
  intros Hr. unfold tally.
  assert (∀ n, n ∈ filter (fun n => votes_for m s n = true) (neighbors m) →
               reputation m !! n = None) as Hl.
  { intros n Hn. apply Hr. by apply list_elem_of_filter in Hn as [_ Hn]. }
  induction (filter _ _) as [|n l IH]; [reflexivity|]. simpl.
  rewrite (Hl n) by left. rewrite IH; [reflexivity|]. intros n' Hn'. apply Hl. by right.
Qed.

(** X10: votes count by the reputation the node records for the voter.
    [__init__] records a reputation for the node itself only, so as long
    as no neighbour has an entry every conflict goes to the incoming
    packet, whatever votes are stored. *)
Theorem resolve_semantic_conflict_unknown_voters m (incoming stored : CrispPacket) :
  (∀ n, n ∈ neighbors m → reputation m !! n = None) →
  resolve_semantic_conflict L m incoming stored = Ok incoming.
Proof.
  intros Hr. unfold resolve_semantic_conflict. rewrite collect_votes_pair.
  rewrite (Qle_bool_proper _ 0 _ 0) by by apply tally_no_reputation.
  by rewrite andb_false_r.
Qed.

End Votes.

(** With reputation 1 for node2, its vote for sequence 2 outweighs the
    vote of node3 for sequence 1: the stored packet wins. *)
Example resolve_semantic_conflict_stored_wins :
  resolve_semantic_conflict Sample.lib Cases.node_a_voted Sample.incoming_1 Sample.stored_2
  = Ok Sample.stored_2.
Proof. vm_compute. reflexivity. Qed.

Lemma resolve_semantic_conflict_unknown_voters_witness :
  votes_for Cases.node_a_votes_only 2 "node2" = true
  ∧ resolve_semantic_conflict Sample.lib Cases.node_a_votes_only
      Sample.incoming_1 Sample.stored_2 = Ok Sample.incoming_1.
Proof.
  split; [reflexivity|].
  apply resolve_semantic_conflict_unknown_voters. intros n Hn.
  repeat (apply elem_of_cons in Hn as [->|Hn]; [reflexivity|]).
  by apply elem_of_nil in Hn.
Defined.

(** ** LRUCache *)

Lemma list_remove_absent (k : string) (l : list string) :
  k ∉ l → list_remove k l = None.
Proof.
  induction l as [|x l IH]; intros Hk; [done|]. simpl.
  destruct (String.eqb_spec x k) as [->|Hne]; [by destruct Hk; left|].
  rewrite IH; [done|]. intros Hin. apply Hk. by right.
Qed.

Lemma list_remove_present (k : string) (l : list string) :
  NoDup l → k ∈ l →
  ∃ o, list_remove k l = Some o ∧ NoDup o ∧ (k ∉ o)
       ∧ (∀ x, x ∈ o ↔ x ∈ l ∧ x ≠ k) ∧ length l = S (length o).
Proof.
  induction l as [|x l IH]; intros Hnd Hk; [by apply elem_of_nil in Hk|].
  apply NoDup_cons in Hnd as [Hx Hnd]. simpl.
  destruct (String.eqb_spec x k) as [->|Hne].
  - exists l. do 3 (split; [done|]). split; [|done].
    intros y. rewrite elem_of_cons. split; [|by intros [[?|?] ?]].
    intros Hy. split; [by right|]. by intros ->.
  - apply elem_of_cons in Hk as [?|Hk]; [done|].
    destruct (IH Hnd Hk) as (o & -> & Hndo & Hko & Ho & Hlen).
    exists (x :: o). simpl. split; [done|]. split.
    { apply NoDup_cons. split; [|done]. rewrite Ho. by intros [? _]. }
    split; [rewrite elem_of_cons; by intros [?|?]|]. split; [|by rewrite Hlen].
    intros y. rewrite !elem_of_cons, Ho. split; [intros [->|[? ?]]; auto|].
    intros [[?|?] ?]; auto.
Qed.

Lemma list_remove_last (k : string) (o : list string) :
  k ∉ o → list_remove k (o ++ [k]) = Some o.
Proof.
  induction o as [|x o IH]; intros Hk; simpl.
  - by rewrite String.eqb_refl.
  - destruct (String.eqb_spec x k) as [->|Hne]; [by destruct Hk; left|].
    rewrite IH; [done|]. intros Hin. apply Hk. by right.
Qed.

Lemma lru_wf_size (c : LRUCache) : lru_wf c → size (cache c) = length (order c).
Proof.
  intros [Hnd Hk]. rewrite <- size_dom, <- (size_list_to_set (C := gset string)) by done.
  f_equal. apply set_eq. intros k. rewrite elem_of_dom, elem_of_list_to_set. by rewrite Hk.
Qed.

Lemma lru_wf_snoc (k : string) (v : bytes) (d : gmap string bytes) (o : list string) (n : Z) :
  NoDup o → k ∉ o → (∀ x, x ∈ o ↔ x ≠ k ∧ is_Some (d !! x)) →
  lru_wf {| cache := <[k := v]> d; order := o ++ [k]; max_size := n |}.
Proof.
  intros Hnd Hk Ho. split; cbn [order cache].
  - apply NoDup_app. split; [done|]. split; [|apply NoDup_singleton].
    intros x Hx Hx'. apply list_elem_of_singleton in Hx'. by subst.
  - intros x. rewrite elem_of_app, list_elem_of_singleton, Ho.
    destruct (decide (x = k)) as [->|Hne].
    + rewrite lookup_insert_eq. split; [by eexists|by right].
    + rewrite lookup_insert_ne by done. split; [by intros [[_ ?]|?]|by left].
Qed.

(** What [put] does on a well-formed cache, by the three cases of its
    code: the key is present; the cache is full; there is room. *)
Lemma lru_put_cases (k : string) (v : bytes) (c : LRUCache) :
  lru_wf c →
  (is_Some (cache c !! k) ∧
   ∃ o, list_remove k (order c) = Some o ∧ NoDup o ∧ (k ∉ o)
        ∧ (∀ x, x ∈ o ↔ x ≠ k ∧ is_Some (cache c !! x))
        ∧ lru_put k v c
          = Ok {| cache := <[k := v]> (cache c); order := o ++ [k]; max_size := max_size c |})
  ∨ (cache c !! k = None ∧ max_size c <= Z.of_nat (size (cache c)) ∧
     ((order c = [] ∧ cache c = ∅ ∧ lru_put k v c = Raise IndexError)
      ∨ ∃ old o, order c = old :: o ∧ is_Some (cache c !! old) ∧ old ≠ k
          ∧ NoDup o ∧ (k ∉ o) ∧ (∀ x, x ∈ o ↔ x ≠ k ∧ is_Some (delete old (cache c) !! x))
          ∧ lru_put k v c
            = Ok {| cache := <[k := v]> (delete old (cache c)); order := o ++ [k];
                    max_size := max_size c |}))
  ∨ (cache c !! k = None ∧ Z.of_nat (size (cache c)) < max_size c
     ∧ NoDup (order c) ∧ (k ∉ order c)
     ∧ (∀ x, x ∈ order c ↔ x ≠ k ∧ is_Some (cache c !! x))
     ∧ lru_put k v c
       = Ok {| cache := <[k := v]> (cache c); order := order c ++ [k];
               max_size := max_size c |}).
Proof.
  intros Hwf. pose proof Hwf as [Hnd Hk]. unfold lru_put.
  destruct (cache c !! k) as [v0|] eqn:Hck.
  - left. split; [by eexists|]. rewrite bool_decide_eq_true_2 by by eexists.
    destruct (list_remove_present k (order c) Hnd) as (o & -> & Hndo & Hko & Ho & _).
    { apply Hk. by rewrite Hck. }
    exists o. do 3 (split; [done|]). split; [|done].
    intros x. rewrite Ho, Hk. tauto.
  - right. assert (k ∉ order c) as Hko.
    { rewrite Hk, Hck. by intros [? ?]. }
    rewrite bool_decide_eq_false_2 by (by intros [? ?]).
    destruct (Z.leb_spec (max_size c) (Z.of_nat (size (cache c)))) as [Hfull|Hroom].
    + left. split; [done|]. split; [exact Hfull|].
      destruct (order c) as [|old o] eqn:Ho.
      * left. split; [done|]. split; [|done]. apply map_empty. intros x.
        apply eq_None_not_Some. rewrite <- Hk. apply not_elem_of_nil.
      * right. exists old, o. apply NoDup_cons in Hnd as [Hold Hndo].
        assert (is_Some (cache c !! old)) as Hs by (apply Hk; left).
        assert (old ≠ k) as Hne by (intros ->; apply Hko; left).
        rewrite bool_decide_eq_true_2 by done.
        do 3 (split; [done|]). split; [done|].
        split; [by intros ?; apply Hko; right|]. split; [|done].
        intros x. destruct (decide (x = old)) as [->|Hxo].
        -- rewrite lookup_delete_eq. split; [done|]. intros [_ [? ?]]. done.
        -- rewrite lookup_delete_ne by done. rewrite <- Hk, elem_of_cons.
           split; [|by intros [_ [?|?]]]. intros Hx. split; [|by right].
           intros ->. apply Hko. by right.
    + right. split; [done|]. split; [exact Hroom|]. do 2 (split; [done|]). split; [|done].
      intros x. rewrite Hk. split; [|tauto]. intros Hx. split; [|done].
      intros ->. rewrite Hck in Hx. by destruct Hx.
Qed.

(** X11: on a well-formed cache [put] keeps the cache well formed and,
    if it was within its capacity, leaves it there; it stores the value
    and makes the key the most recently used.  It raises in one case
    only: [IndexError], on the empty cache of a capacity of 0 or less. *)
Theorem lru_put_well_formed (k : string) (v : bytes) (c : LRUCache) :
  lru_wf c →
  match lru_put k v c with
  | Ok c' =>
      lru_wf c' ∧ max_size c' = max_size c ∧ cache c' !! k = Some v
      ∧ last (order c') = Some k
      ∧ (Z.of_nat (size (cache c)) <= max_size c →
         Z.of_nat (size (cache c')) <= max_size c)
  | Raise e => e = IndexError ∧ cache c = ∅ ∧ max_size c <= 0
  end.
Proof.
  intros Hwf.
  destruct (lru_put_cases k v c Hwf)
    as [(Hs & o & _ & Hnd & Hko & Ho & ->)
       |[(Hn & Hfull & [(Ho & He & ->)|(old & o & Ho & Hs & Hne & Hnd & Hko & Hin & ->)])
        |(Hn & Hroom & Hnd & Hko & Ho & ->)]].
  - split; [by apply lru_wf_snoc|]. cbn [cache order max_size].
    rewrite lookup_insert_eq, last_snoc, map_size_insert_Some by done. done.
  - split; [done|]. split; [done|]. rewrite He, map_size_empty in Hfull. lia.
  - split; [by apply lru_wf_snoc|]. cbn [cache order max_size].
    rewrite lookup_insert_eq, last_snoc. do 3 (split; [done|]).
    rewrite map_size_insert_None by (rewrite lookup_delete_ne; done).
    rewrite map_size_delete_Some by done. destruct Hs as [x Hx].
    assert (size (cache c) ≠ 0%nat); [|lia].
    intros H0. apply map_size_empty_inv in H0. by rewrite H0 in Hx.
  - split; [by apply lru_wf_snoc|]. cbn [cache order max_size].
    rewrite lookup_insert_eq, last_snoc. do 3 (split; [done|]).
    rewrite map_size_insert_None by done. lia.
Qed.

Lemma lru_new_wf (n : Z) : lru_wf (lru_new n).
Proof.
  split; [apply NoDup_nil_2|]. intros k. unfold lru_new. cbn [order cache].
  split; [by intros ?%elem_of_nil|]. intros [x Hx]. by apply lookup_empty_Some in Hx.
Qed.

Lemma lru_put_well_formed_witness :
  lru_wf (lru_new 2)
  ∧ ∃ c', lru_put "a" [x01] (lru_new 2) = Ok c' ∧ lru_wf c' ∧ cache c' !! "a" = Some [x01].
Proof.
  split; [apply lru_new_wf|].
  pose proof (lru_put_well_formed "a" [x01] (lru_new 2) (lru_new_wf 2)) as H.
  destruct (lru_put "a" [x01] (lru_new 2)) as [c'|e] eqn:Hp; [|by vm_compute in Hp].
  exists c'. split; [done|]. destruct H as (H1 & _ & H2 & _). by split.
Defined.

(** X12: a value that was put is what [get] returns next, and that
    [get] leaves the cache as it is.  Every other key keeps its value,
    except the least recently used key, which is dropped when a new key
    arrives at a cache that is full. *)
Theorem lru_put_then_get (k : string) (v : bytes) (c c' : LRUCache) :
  lru_wf c → lru_put k v c = Ok c' →
  lru_get k c' = Ok (Some v, c')
  ∧ ∀ k', k' ≠ k →
      cache c' !! k' =
      if bool_decide (cache c !! k = None ∧ max_size c <= Z.of_nat (size (cache c))
                      ∧ head (order c) = Some k')
      then None else cache c !! k'.
Proof.
  intros Hwf Hput.
  destruct (lru_put_cases k v c Hwf)
    as [(Hs & o & _ & Hnd & Hko & Ho & Hp)
       |[(Hn & Hfull & [(Ho & He & Hp)|(old & o & Ho & Hs & Hne & Hnd & Hko & Hin & Hp)])
        |(Hn & Hroom & Hnd & Hko & Ho & Hp)]];
    rewrite Hp in Hput; [|done| |]; injection Hput as <-.
  - split.
    + unfold lru_get. cbn [cache order max_size].
      by rewrite lookup_insert_eq, list_remove_last.
    + intros k' Hk'. cbn [cache]. rewrite lookup_insert_ne by done.
      rewrite bool_decide_eq_false_2; [done|]. intros [Hn _].
      rewrite Hn in Hs. by destruct Hs.
  - split.
    + unfold lru_get. cbn [cache order max_size].
      by rewrite lookup_insert_eq, list_remove_last.
    + intros k' Hk'. cbn [cache]. rewrite lookup_insert_ne by done. rewrite Ho.
      cbn [head]. case_bool_decide as Hd.
      * destruct Hd as (_ & _ & [= ->]). apply lookup_delete_eq.
      * rewrite lookup_delete_ne; [done|]. intros ->. by apply Hd.
  - split.
    + unfold lru_get. cbn [cache order max_size].
      by rewrite lookup_insert_eq, list_remove_last.
    + intros k' Hk'. cbn [cache]. rewrite lookup_insert_ne by done.
      rewrite bool_decide_eq_false_2; [done|]. intros (_ & Hfull & _). lia.
Qed.

Lemma two_keys_wf : lru_wf Cases.two_keys.
Proof.
  split; [apply (bool_decide_unpack _); vm_compute; reflexivity|].
  intros k. unfold Cases.two_keys. cbn [order cache].
  rewrite !elem_of_cons, elem_of_nil.
  destruct (decide (k = "a")) as [->|Ha]; [split; [by eexists|by left]|].
  destruct (decide (k = "b")) as [->|Hb]; [split; [by eexists|by right; left]|].
  rewrite lookup_insert_ne, lookup_singleton_ne by done.
  split; [by intros [?|[?|?]]|by intros [? ?]].
Qed.

Lemma lru_put_then_get_witness :
  ∃ c', lru_put "c" [x03] Cases.two_keys = Ok c'
        ∧ lru_get "c" c' = Ok (Some [x03], c')
        ∧ cache c' !! "a" = None ∧ cache c' !! "b" = Some [x02].
Proof.
  destruct (lru_put "c" [x03] Cases.two_keys) as [c'|e] eqn:Hp; [|by vm_compute in Hp].
  destruct (lru_put_then_get "c" [x03] Cases.two_keys c' two_keys_wf Hp) as [Hg Ho].
  exists c'. split; [done|]. split; [done|].
  split; [by rewrite Ho|by rewrite Ho].
Defined.

(** X13: [get] returns the stored value, or [None] for a key that is
    not cached, and never raises on a well-formed cache.  It changes
    no entry; a hit moves the key to the most recently used position
    and keeps the cache well formed, a miss changes nothing. *)
Theorem lru_get_refreshes (k : string) (c : LRUCache) :
  lru_wf c →
  ∃ c', lru_get k c = Ok (cache c !! k, c') ∧ lru_wf c' ∧ cache c' = cache c
        ∧ max_size c' = max_size c ∧ order c' ≡ₚ order c
        ∧ (is_Some (cache c !! k) → last (order c') = Some k)
        ∧ (cache c !! k = None → c' = c).
Proof.
  intros Hwf. pose proof Hwf as [Hnd Hk]. unfold lru_get.
  destruct (cache c !! k) as [v|] eqn:Hck.
  - destruct (list_remove_present k (order c) Hnd) as (o & -> & Hndo & Hko & Ho & Hlen).
    { apply Hk. by rewrite Hck. }
    eexists. split; [done|]. cbn [cache order max_size].
    assert (o ++ [k] ≡ₚ order c) as Hp.
    { apply NoDup_Permutation; [|done|].
      - apply NoDup_app. split; [done|]. split; [|apply NoDup_singleton].
        intros x Hx ?%list_elem_of_singleton. by subst.
      - intros x. rewrite elem_of_app, list_elem_of_singleton, Ho.
        destruct (decide (x = k)) as [->|?]; [|tauto].
        split; [intros _|by right]. apply Hk. by rewrite Hck. }
    split.
    { split; cbn [cache order]; [by rewrite Hp|]. intros x. by rewrite Hp. }
    do 3 (split; [done|]). split; [by rewrite last_snoc|done].
  - exists c. do 5 (split; [done|]). split; [by intros [? ?]|done].
Qed.

Lemma lru_get_refreshes_witness :
  ∃ c', lru_get "a" Cases.two_keys = Ok (Some [x01], c')
        ∧ last (order c') = Some "a".
Proof.
  destruct (lru_get_refreshes "a" Cases.two_keys two_keys_wf)
    as (c' & Hg & _ & _ & _ & _ & Hl & _).
  exists c'. split; [exact Hg|]. apply Hl. by eexists.
Defined.

(** ** SKCManager.verify_signature *)

Lemma be_to_Z_nonneg (bs : bytes) : 0 <= be_to_Z bs.
Proof.
  unfold be_to_Z. assert (∀ acc, 0 <= acc →
    0 <= fold_left (fun acc b => acc * 256 + Z_of_byte b) bs acc) as H; [|by apply H].
  induction bs as [|b bs IH]; intros acc Hacc; [done|]. simpl. apply IH.
  unfold Z_of_byte. lia.
Qed.

Section Quorum.
Context (L : EcdsaLib).
Implicit Types (m : SKCManager L) (p : CrispPacket) (w : World).

Lemma verified_count_bound p (public_keys : list (PublicKey L)) :
  0 <= verified_count L p public_keys <= Z.min (trailing_count p) (len public_keys).
Proof.
  unfold verified_count, len. set (c := trailing_count p).
  assert (0 <= c) as Hc by apply be_to_Z_nonneg.
  set (sigs := map _ _). set (data := slice_to _ _).
  pose proof (length_filter (fun sp => verify L sp.2 sp.1 data = true)
                (combine sigs public_keys)) as Hf.
  rewrite length_combine in Hf.
  assert (length sigs = Z.to_nat c) as Hs by (unfold sigs; by rewrite !length_map, length_seq).
  split; [lia|]. rewrite Hs in Hf. lia.
Qed.

(** X14: a packet cannot pass with fewer candidates than the threshold
    asks for: when the trailing count or the number of public keys is
    below the threshold, [verify_signature] returns [False] without
    regard to the signatures. *)
Theorem verify_signature_below_quorum m p (public_keys : list (PublicKey L)) :
  2 <= len (payload p) →
  Z.min (trailing_count p) (len public_keys) < quorum_threshold m →
  verify_signature L m p public_keys = Ok false.
Proof.
  intros Hlen Hq. rewrite verify_signature_quorum by done. f_equal.
  pose proof (verified_count_bound p public_keys). apply Z.leb_gt. lia.
Qed.

End Quorum.

Lemma verify_signature_below_quorum_witness :
  quorum_threshold Sample.node_a = 3
  ∧ verify_signature Sample.lib Sample.node_a
      (sign_packet Sample.lib Sample.world Sample.node_a Sample.incoming_1)
      [public_key Sample.node_a; public_key Sample.node_b] = Ok false.
Proof.
  split; [reflexivity|].
  apply verify_signature_below_quorum; [vm_compute; discriminate|].
  change (quorum_threshold Sample.node_a) with 3.
  change (len [public_key Sample.node_a; public_key Sample.node_b]) with 2. lia.
Defined.

(** ** MerkleTree *)

Lemma round_length (st : list Z) (kw : Z * Z) :
  length (Sha256.round st kw) = length st.
Proof.
  unfold Sha256.round.
  do 9 (destruct st as [|? st]; [reflexivity|]). reflexivity.
Qed.

Lemma compress_length (h : list Z) (block : bytes) :
  length (Sha256.compress h block) = length h.
Proof.
  unfold Sha256.compress. rewrite length_map, length_combine.
  assert (∀ l st, length (fold_left Sha256.round l st) = length st) as H.
  { induction l as [|kw l IH]; intros st; [done|]. simpl. by rewrite IH, round_length. }
  rewrite H. lia.
Qed.

Lemma sha256_length (msg : bytes) : length (sha256 msg) = 32%nat.
Proof.
  unfold Sha256.sha256.
  assert (∀ blocks h, length (fold_left Sha256.compress blocks h) = length h) as H.
  { induction blocks as [|b blocks IH]; intros h; [done|]. simpl.
    by rewrite IH, compress_length. }
  set (st := fold_left _ _ _). assert (length st = 8%nat) as Hst by apply H.
  clearbody st.
  do 9 (destruct st as [|? st]; try done).
Qed.

Lemma reduce_level_digests (l : list bytes) :
  Forall (fun h => length h = 32%nat) (reduce_level l).
Proof.
  assert (∀ n (l : list bytes), (length l ≤ n)%nat →
            Forall (fun h => length h = 32%nat) (reduce_level l)) as H.
  { induction n as [|n IH]; intros [|a [|b k]] Hk; simpl in Hk; try lia;
      cbn [reduce_level]; repeat constructor; try apply sha256_length.
    apply IH. lia. }
  by apply (H (length l)).
Qed.

Lemma reduce_loop_digests (fuel : nat) (l : list bytes) :
  Forall (fun h => length h = 32%nat) l →
  Forall (fun h => length h = 32%nat) (reduce_loop fuel l).
Proof.
  revert l. induction fuel as [|fuel IH]; intros l Hl; [done|]. simpl.
  destruct (1 <? len l); [|done]. apply IH, reduce_level_digests.
Qed.

Lemma tree_of_snoc (entries : list bytes) (e : bytes) :
  tree_of (entries ++ [e]) = add_leaf e (tree_of entries).
Proof. unfold tree_of. by rewrite fold_left_app. Qed.

Lemma tree_of_leaves (entries : list bytes) :
  leaves (tree_of entries) = map sha256 entries.
Proof.
  induction entries as [|e entries IH] using rev_ind; [done|].
  rewrite tree_of_snoc, map_app. unfold add_leaf. cbn [leaves]. by rewrite IH.
Qed.

(** X15: the root of a tree built with [add_leaf] is always 32 bytes
    long, so the 16-byte digest field of a sync header is never padded.
    With one entry the root is the hash of the entry, not hashed again;
    with two it is the hash of the two leaves joined, so the root
    depends on the order of the entries' leaves. *)
Theorem get_root_digest (entries : list bytes) :
  length (get_root (tree_of entries)) = 32%nat
  ∧ length (huffman_encode (get_root (tree_of entries))) = 16%nat
  ∧ (∀ e, get_root (tree_of [e]) = sha256 e)
  ∧ (∀ e1 e2, get_root (tree_of [e1; e2]) = sha256 (sha256 e1 ++ sha256 e2)).
Proof.
  assert (length (get_root (tree_of entries)) = 32%nat) as Hlen.
  { destruct entries as [|e entries]; [done|].
    pose proof (get_root_total (tree_of (e :: entries))) as Hr.
    rewrite tree_of_leaves in Hr. specialize (Hr ltac:(done)).
    pose proof (reduce_loop_digests (length (map sha256 (e :: entries)))
                  (map sha256 (e :: entries))) as Hd.
    rewrite Hr in Hd. apply (Forall_inv (P := fun h => length h = 32%nat) (l := [])), Hd.
    apply Forall_fmap, Forall_true. intros x. apply sha256_length. }
  split; [exact Hlen|]. split.
  { unfold huffman_encode. change 16 with (Z.of_nat 16). rewrite slice_to_take, length_take. lia. }
  split.
  - intros e. unfold get_root. rewrite tree_of_leaves. cbn [map length].
    generalize (sha256 e). intros h. reflexivity.
  - intros e1 e2. unfold get_root. rewrite tree_of_leaves. cbn [map length].
    generalize (sha256 e1) (sha256 e2). intros h1 h2.
    cbn [reduce_loop reduce_level len length hd concat]. by rewrite app_nil_r.
Qed.

(** ** SKCManager.sync_skc: what a call records *)

Section Records.
Context (L : EcdsaLib).
Implicit Types (m : SKCManager L) (p : CrispPacket) (w : World).

#[local] Instance index_view_blind lv bt ac : StorageBlind L (index_view lv bt ac).
Proof. by intros m s. Qed.

#[local] Instance cache_view_blind c : StorageBlind L (cache_view c).
Proof. by intros m s. Qed.

#[local] Instance clock_ok_blind : StorageBlind L clock_ok.
Proof. by intros m s. Qed.

(** An invariant that does not read the entries of the clock. *)
Lemma encode_vector_clock_blind (I : SKCManager L → Prop) :
  (∀ m vc, I m → I (with_vector_clock (Some vc) m)) →
  preserves I (encode_vector_clock L).
Proof.
  intros HI. unfold encode_vector_clock. apply preserves_get_bind. intros m Hm.
  destruct (negb _); [done|]. apply preserves_at; [|done].
  apply preserves_bind.
  { unfold trim_vector_clock. apply preserves_get_bind. intros m1 Hm1.
    destruct (use_vector_clocks _); [|done]. destruct (vector_clock m1); [|done].
    by apply HI. }
  intros _. apply preserves_get_bind. intros m' Hm'. destruct (vector_clock m'); [|done].
  apply preserves_at; [|done]. repeat pres_step.
Qed.

(** The first step of [sync_skc], the clock increment, in a state that
    has a clock whenever clocks are enabled. *)
Lemma sync_skc_first_step m :
  clock_ok m →
  ∃ m0 : SKCManager L,
    merkle_tree m0 = merkle_tree m ∧ b_tree m0 = b_tree m
    ∧ access_counts m0 = access_counts m ∧ lru_cache m0 = lru_cache m
    ∧ clock_ok m0
    ∧ ∀ k : unit → M L CrispPacket,
        ((if use_vector_clocks (config m) then
            match vector_clock m with
            | Some vc =>
                update L (with_vector_clock
                            (Some (dict_set (node_id m) (dict_get vc (node_id m) 0 + 1) vc)))
            | None => raise L AttributeError
            end
          else mret tt) ≫= k) m = k tt m0.
Proof.
  intros Hvc. destruct (use_vector_clocks (config m)) eqn:Hf.
  - destruct (Hvc Hf) as [vc Hv]. rewrite Hv. eexists (with_vector_clock _ m).
    do 4 (split; [done|]). split; [|done]. intros _. by eexists.
  - exists m. do 4 (split; [done|]). split; [|done]. intros ?. congruence.
Qed.

(** From the clock encoding on, [sync_skc] writes the clock and the
    storage only. *)
Lemma sync_skc_rest_preserves (I : SKCManager L → Prop) `{!StorageBlind L I}
    w (s e prio : Z) :
  (∀ m vc, I m → I (with_vector_clock (Some vc) m)) →
  preserves I
    (clock_bytes ← encode_vector_clock L;
     m ← get_self L;
     head ← lift L (pack [fI; fB; fH; fQ; fQ; fS 16; fH]
                      [SInt (skc_version m); SInt prio; SInt 1; SInt s; SInt e;
                       SBytes (huffman_encode (get_root (merkle_tree m)));
                       SInt (len clock_bytes)]);
     gossip_sync L w
       (sign_packet L w m (new_packet (now w) 0x60 (head ++ clock_bytes) None 0x01)) None).
Proof.
  intros HI.
  apply preserves_bind; [by apply encode_vector_clock_blind|intros clock_bytes].
  apply preserves_get_bind. intros m2 Hm2. apply (preserves_at L I); [|done].
  apply preserves_bind; [apply preserves_lift|intros head].
  by apply gossip_sync_preserves.
Qed.

(** The three records are written first; nothing after them touches them. *)
Lemma sync_skc_index w (s e : Z) (entries : bytes) (priority : option Z) m :
  clock_ok m →
  index_view (leaves (merkle_tree m) ++ [sha256 entries])
    (<[s := entries]> (b_tree m))
    (<[range_key s e := default 0 (access_counts m !! range_key s e) + 1]> (access_counts m))
    (snd (sync_skc L w s e entries priority m)).
Proof.
  intros Hvc. unfold sync_skc. rewrite run_get.
  set (I := index_view (leaves (merkle_tree m) ++ [sha256 entries])
              (<[s := entries]> (b_tree m))
              (<[range_key s e := default 0 (access_counts m !! range_key s e) + 1]>
                 (access_counts m))).
  destruct (sync_skc_first_step m Hvc) as (m0 & H1 & H2 & H3 & _ & _ & ->).
  rewrite !run_update, run_get.
  set (m1 := with_access_counts _ _).
  assert (I m1) as Hm1.
  { unfold I, index_view, m1. cbn. unfold btree_insert, range_key. by rewrite H1, H2, H3. }
  apply (preserves_at L I); [|done].
  apply preserves_bind; [repeat pres_step|intros _].
  apply sync_skc_rest_preserves; [apply _|done].
Qed.

(** The cache is written only for a hot range or priority 2. *)
Lemma sync_skc_cache w (s e : Z) (entries : bytes) (priority : option Z) m :
  clock_ok m →
  lru_cache (snd (sync_skc L w s e entries priority m))
  = if (10 <? default 0 (access_counts m !! range_key s e) + 1)
       || bool_decide (priority = Some 2)
    then match lru_put (range_key s e) entries (lru_cache m) with
         | Ok c => c
         | Raise _ => lru_cache m
         end
    else lru_cache m.
Proof.
  intros Hvc. unfold sync_skc. rewrite run_get.
  destruct (sync_skc_first_step m Hvc) as (m0 & H1 & H2 & H3 & H4 & _ & ->).
  rewrite !run_update, run_get.
  set (m1 := with_access_counts _ _).
  assert (lru_cache m1 = lru_cache m) as Hc1 by done.
  assert (default 0 (access_counts m1 !! (pretty s +:+ ":" +:+ pretty e))
          = default 0 (access_counts m !! range_key s e) + 1) as ->.
  { unfold m1. cbn [access_counts with_access_counts with_b_tree with_merkle_tree].
    rewrite lookup_insert_eq, H3. done. }
  set (n := default 0 (access_counts m !! range_key s e) + 1).
  set (prio := if 10 <? n then 2 else _).
  assert ((prio =? 2) = (10 <? n) || bool_decide (priority = Some 2)) as ->.
  { unfold prio. destruct (10 <? n); [done|]. cbn [orb].
    destruct priority as [p|]; [|done].
    destruct (Z.eqb_spec p 0) as [->|Hp]; [done|].
    destruct (Z.eqb_spec p 2) as [->|Hp2]; [done|].
    rewrite bool_decide_eq_false_2; [done|]. by intros [= ->]. }
  assert (∀ c, (∀ m' vc, cache_view c m' → cache_view c (with_vector_clock (Some vc) m')))
    as Hb by done.
  fold (range_key s e). rewrite Hc1.
  destruct ((10 <? n) || bool_decide (priority = Some 2)).
  - rewrite run_bind_bind.
    destruct (lru_put (range_key s e) entries (lru_cache m)) as [c|err]; [|done].
    rewrite run_lift_ok, run_update.
    apply (preserves_at L (cache_view c)); [|done].
    apply sync_skc_rest_preserves; [apply _|apply Hb].
  - rewrite run_ret. apply (preserves_at L (cache_view (lru_cache m))); [|done].
    apply sync_skc_rest_preserves; [apply _|apply Hb].
Qed.

Lemma sync_skc_clock_ok w (s e : Z) (entries : bytes) (priority : option Z) :
  preserves clock_ok (sync_skc L w s e entries priority).
Proof.
  intros m Hm. unfold sync_skc. rewrite run_get.
  destruct (sync_skc_first_step m Hm) as (m0 & _ & _ & _ & _ & Hm0 & ->).
  apply (preserves_at L clock_ok); [|done].
  do 3 (apply preserves_bind; [by apply preserves_update|intros _]).
  apply preserves_get_bind. intros m1 Hm1. apply (preserves_at L clock_ok); [|done].
  apply preserves_bind; [repeat pres_step|intros _].
  apply sync_skc_rest_preserves; [apply _|]. intros m' vc _ _. by eexists.
Qed.

Lemma run_syncs_snoc m (calls : list SyncCall) (c : SyncCall) :
  run_syncs L m (calls ++ [c]) = snd (sync_call L c (run_syncs L m calls)).
Proof. unfold run_syncs. by rewrite fold_left_app. Qed.

Lemma run_syncs_clock_ok m (calls : list SyncCall) :
  clock_ok m → clock_ok (run_syncs L m calls).
Proof.
  intros Hm. induction calls as [|c calls IH] using rev_ind; [done|].
  rewrite run_syncs_snoc. by apply sync_skc_clock_ok.
Qed.

Lemma init_clock_ok node cfg key0 : clock_ok (init L node cfg key0).
Proof. unfold clock_ok, init. cbn. intros ->. by eexists. Qed.

(** X16: a call of [sync_skc] records its entries whether it returns or
    raises: the hash of the entries is the last leaf of the Merkle
    tree, the B-tree maps the start of the range to the entries (so
    [search] finds it), and the access count of the range is one
    higher.  A failed call is not rolled back. *)
Theorem sync_skc_records w (s e : Z) (entries : bytes) (priority : option Z) m :
  clock_ok m →
  let m' := snd (sync_skc L w s e entries priority m) in
  leaves (merkle_tree m') = leaves (merkle_tree m) ++ [sha256 entries]
  ∧ b_tree m' = btree_insert s entries (b_tree m)
  ∧ btree_search s (b_tree m') = Some s
  ∧ access_counts m'
    = <[range_key s e := default 0 (access_counts m !! range_key s e) + 1]> (access_counts m).
Proof.
  intros Hm m'. destruct (sync_skc_index w s e entries priority m Hm) as (H1 & H2 & H3).
  fold m' in H1, H2, H3. do 2 (split; [done|]). split; [|done].
  unfold btree_search. rewrite H2, lookup_insert_eq. rewrite bool_decide_eq_true_2; [done|].
  by eexists.
Qed.

(** X17: a range becomes hot at its eleventh sync.  After any number of
    calls for one range on a new node, none of them asking for priority
    2, the access count of the range is the number of calls; the cache
    is empty up to the tenth call, and from the eleventh on it holds the
    entries of the last call under the key of the range, and nothing
    else.  This holds whether the calls return or raise. *)
Theorem sync_skc_hot_after_ten node cfg key0 (calls : list SyncCall) (s e : Z) :
  Forall (fun c => call_start c = s ∧ call_end c = e ∧ call_priority c ≠ Some 2) calls →
  let m := run_syncs L (init L node cfg key0) calls in
  default 0 (access_counts m !! range_key s e) = len calls
  ∧ lru_cache m = match last calls with
                  | Some c => if 10 <? len calls
                              then hot_cache (range_key s e) (call_entries c)
                              else lru_new 1000
                  | None => lru_new 1000
                  end.
Proof.
  induction calls as [|c calls IH] using rev_ind; intros Hall; [done|].
  apply Forall_app in Hall as [Hall Hc]. apply Forall_inv in Hc as (Hs & He & Hp).
  specialize (IH Hall). cbn zeta in IH. destruct IH as [IHn IHc]. cbn zeta.
  rewrite run_syncs_snoc, last_snoc. unfold sync_call. rewrite Hs, He.
  set (m := run_syncs L (init L node cfg key0) calls) in *.
  assert (clock_ok m) as Hm by apply run_syncs_clock_ok, init_clock_ok.
  assert (len (calls ++ [c]) = len calls + 1) as Hlen.
  { unfold len. rewrite length_app. simpl. lia. }
  split.
  - destruct (sync_skc_index (call_world c) s e (call_entries c) (call_priority c) m Hm)
      as (_ & _ & ->).
    rewrite lookup_insert_eq. cbn [default from_option]. rewrite IHn. by rewrite Hlen.
  - rewrite sync_skc_cache by done. rewrite IHn, Hlen.
    rewrite (bool_decide_eq_false_2 _ Hp), orb_false_r.
    destruct (Z.ltb_spec 10 (len calls + 1)) as [Hhot|Hcold].
    + destruct (Z.ltb_spec 10 (len calls)) as [Hprev|Hten].
      * destruct (last calls) as [c0|] eqn:Hl.
        2: { apply last_None in Hl. subst calls. unfold len in Hprev. simpl in Hprev. lia. }
        rewrite IHc. unfold lru_put, hot_cache. cbn [cache order max_size].
        rewrite lookup_singleton_eq. rewrite bool_decide_eq_true_2 by by eexists.
        cbn [list_remove]. rewrite String.eqb_refl. cbn.
        by rewrite insert_singleton_eq.
      * assert (lru_cache m = lru_new 1000) as -> by (by destruct (last calls)).
        unfold lru_put, hot_cache, lru_new. cbn [cache order max_size].
        rewrite lookup_empty. rewrite bool_decide_eq_false_2 by (by intros [? ?]).
        rewrite map_size_empty. change (1000 <=? Z.of_nat 0) with false. cbn.
        by rewrite insert_empty.
    + destruct (Z.ltb_spec 10 (len calls)) as [Hprev|Hten]; [lia|].
      by destruct (last calls).
Qed.

End Records.

(** The call of the example above raises, and has recorded its entries. *)
Lemma sync_skc_records_witness :
  let m' := snd (sync_skc Sample.lib Sample.world 100 200 (ascii_bytes "E") None
                   Sample.node_a) in
  fst (sync_skc Sample.lib Sample.world 100 200 (ascii_bytes "E") None Sample.node_a)
  = Raise StructError
  ∧ leaves (merkle_tree m') = [sha256 (ascii_bytes "E")]
  ∧ btree_search 100 (b_tree m') = Some 100
  ∧ access_counts m' !! range_key 100 200 = Some 1.
Proof.
  intros m'. split; [apply sync_skc_struct_error|].
  destruct (sync_skc_records Sample.lib Sample.world 100 200 (ascii_bytes "E") None
              Sample.node_a (init_clock_ok Sample.lib "nodeA" default_config Sample.key_a))
    as (H1 & _ & H3 & H4).
  split; [exact H1|]. split; [exact H3|]. fold m' in H4. rewrite H4.
  apply lookup_insert_eq.
Defined.

Lemma sync_skc_hot_after_ten_witness :
  let call := {| call_world := Sample.world; call_start := 100; call_end := 200;
                 call_entries := ascii_bytes "E"; call_priority := None |} in
  lru_cache (run_syncs Sample.lib Sample.node_a (replicate 10 call)) = lru_new 1000
  ∧ lru_cache (run_syncs Sample.lib Sample.node_a (replicate 11 call))
    = hot_cache "100:200" (ascii_bytes "E").
Proof.
  intros call.
  assert (∀ n, Forall (fun c => call_start c = 100 ∧ call_end c = 200
                                ∧ call_priority c ≠ Some 2) (replicate n call)) as Hall.
  { intros n. apply Forall_replicate. by repeat split. }
  split.
  - exact (proj2 (sync_skc_hot_after_ten Sample.lib "nodeA" default_config Sample.key_a
                    (replicate 10 call) 100 200 (Hall 10%nat))).
  - exact (proj2 (sync_skc_hot_after_ten Sample.lib "nodeA" default_config Sample.key_a
                    (replicate 11 call) 100 200 (Hall 11%nat))).
Defined.

(** ** SKCManager.gossip_sync: what is stored *)

Section Gossip.
Context (L : EcdsaLib).
Implicit Types (m : SKCManager L) (p : CrispPacket) (w : World).

Lemma store_for_stores (targets : list string) p (data : bytes) m :
  encode p = Ok data →
  ∃ m1, store_for L targets p m = (Ok tt, m1)
        ∧ skc_version m1 = skc_version m ∧ config m1 = config m
        ∧ node_id m1 = node_id m
        ∧ (∀ k, storage m !! k = Some (PBytes data) → storage m1 !! k = Some (PBytes data))
        ∧ (∀ n, n ∈ targets →
             storage m1 !! sync_key n (skc_version m) = Some (PBytes data)).
Proof.
  intros He. revert m. induction targets as [|node rest IH]; intros m.
  { exists m. do 5 (split; [done|]). by intros n ?%elem_of_nil. }
  cbn [store_for]. rewrite He, run_lift_ok, run_update.
  set (m0 := with_storage _ m).
  destruct (IH m0) as (m1 & -> & Hv & Hc & Hn & Hkeep & Hall).
  exists m1. split; [done|]. do 3 (split; [done|]). split.
  - intros k Hk. apply Hkeep. unfold m0. cbn [storage with_storage].
    destruct (decide (k = sync_key node (skc_version m))) as [->|Hne].
    + apply lookup_insert_eq.
    + by rewrite lookup_insert_ne.
  - intros n [->|Hn']%elem_of_cons.
    + apply Hkeep. unfold m0. cbn [storage with_storage]. apply lookup_insert_eq.
    + by apply Hall.
Qed.

Lemma resolve_deadlock_lookup w p m (k : string) :
  k ≠ "deadlock:" +:+ pretty (sequence p) →
  storage (snd (resolve_deadlock L w p m)) !! k = storage m !! k.
Proof.
  intros Hk. unfold resolve_deadlock. destruct (is_expired _ _); [|done].
  destruct (encode p) as [data|e]; [|done]. rewrite run_lift_ok, run_update.
  unfold mbind, M_bind, lift, mret, M_ret.
  destruct (create_error_response _ _ _ _ _) as [r|e]; cbn [snd storage with_storage];
    by rewrite lookup_insert_ne.
Qed.

Lemma check_conflict_lookup w p m (k : string) :
  k ≠ "deadlock:" +:+ pretty (sequence p) →
  storage (snd (check_conflict L w p m)) !! k = storage m !! k.
Proof.
  intros Hk. destruct (use_vector_clocks (config m)) eqn:Hf;
    [|by rewrite check_conflict_off].
  destruct (Z.lt_ge_cases (len (payload p)) 39) as [Hlt|Hge].
  - rewrite check_conflict_short by done. done.
  - rewrite check_conflict_header by done.
    destruct (storage m !! conflict_key m p) as [v|]; [|by apply resolve_deadlock_lookup].
    destruct (truthy v); [|by apply resolve_deadlock_lookup].
    unfold mbind, M_bind, lift. destruct v as [b|z]; [|done].
    rewrite decode_raises. by destruct (len b <? HEADER_SIZE).
Qed.

(** X18: [gossip_sync] stores the encoded packet for each target under
    [skc_sync:<target>:<local version>], for the cluster leaders when
    hierarchical gossip is on and leaders are given, for the neighbours
    otherwise; the records are in place afterwards whether the conflict
    check returns or raises.  A packet of another type than 0x6D with a
    payload under 5 bytes makes it raise [struct.error] before anything
    is stored. *)
Theorem gossip_sync_stores w p (leaders : option (list string)) m :
  (type_id p ≠ 0x6D → len (payload p) < 5 →
   gossip_sync L w p leaders m = (Raise StructError, m))
  ∧ (∀ data, encode p = Ok data → type_id p = 0x6D ∨ 5 <= len (payload p) →
     ∀ n, n ∈ gossip_targets m leaders →
       storage (snd (gossip_sync L w p leaders m)) !! sync_key n (skc_version m)
       = Some (PBytes data)).
Proof.
  split.
  - intros Ht Hlen. unfold gossip_sync.
    rewrite (proj2 (Z.eqb_neq _ _) Ht). unfold unpack.
    rewrite (slice_to_take 5 (payload p) : slice_to 5 (payload p) = _).
    rewrite bool_decide_eq_false_2; [done|].
    rewrite length_take. change (calcsize [fI; fB]) with 5%nat. unfold len in Hlen. lia.
  - intros data He Hp n Hn. unfold gossip_sync.
    set (k := fun _priority : Z => _).
    assert (∃ prio, ((if type_id p =? 0x6D then mret 0x03
                      else vals ← lift L (unpack [fI; fB] (slice_to 5 (payload p)));
                           match vals with
                           | [_; SInt p] => mret p
                           | _ => raise L StructError
                           end) ≫= k) m = k prio m) as [prio ->].
    { destruct (Z.eqb_spec (type_id p) 0x6D) as [Ht|Ht]; [by exists 0|].
      destruct Hp as [?|Hlen]; [done|]. unfold unpack.
      rewrite (slice_to_take 5 (payload p) : slice_to 5 (payload p) = _).
      rewrite bool_decide_eq_true_2; [by exists 0|].
      rewrite length_take. change (calcsize [fI; fB]) with 5%nat. unfold len in Hlen. lia. }
    unfold k. rewrite run_get. fold (gossip_targets m leaders).
    destruct (store_for_stores (gossip_targets m leaders) p data m He)
      as (m1 & Hs & Hv & _ & _ & _ & Hall).
    unfold mbind at 1, M_bind at 1. rewrite Hs.
    assert (∀ c : M L (option CrispPacket),
              storage (snd ((c ≫= fun r => mret (default p r)) m1))
              = storage (snd (c m1))) as ->.
    { intros c. unfold mbind, M_bind. by destruct (c m1) as [[r|e] m2]. }
    rewrite check_conflict_lookup; [by apply Hall|]. unfold sync_key. cbn. discriminate.
Qed.

End Gossip.

Lemma gossip_sync_stores_witness :
  ∃ data, encode Sample.incoming_1 = Ok data
          ∧ storage (snd (gossip_sync Sample.lib Sample.world Sample.incoming_1
                            (Some ["leader1"]) Sample.node_a)) !! sync_key "leader1" 1
            = Some (PBytes data).
Proof.
  destruct (encode Sample.incoming_1) as [data|e] eqn:He; [|by vm_compute in He].
  exists data. split; [done|].
  assert (type_id Sample.incoming_1 = 0x6D ∨ 5 <= len (payload Sample.incoming_1)) as Hp.
  { right. vm_compute. discriminate. }
  assert ("leader1" ∈ gossip_targets Sample.node_a (Some ["leader1"])) as Hin
    by (apply elem_of_cons; by left).
  exact (proj2 (gossip_sync_stores Sample.lib Sample.world Sample.incoming_1
                  (Some ["leader1"]) Sample.node_a) data He Hp "leader1" Hin).
Defined.

(** ** SKCManager: the payload-building methods *)

Lemma pack_cons_int (f : field) (fmt : list field) (z : Z) (vs : list value) :
  (∀ n, f ≠ fS n) →
  pack (f :: fmt) (SInt z :: vs)
  = if bool_decide (0 <= z < 256 ^ Z.of_nat (field_size f))
    then rest ← pack fmt vs; Ok (be_bytes (field_size f) z ++ rest)
    else Raise StructError.
Proof.
  intros Hf. unfold pack. cbn [pack_fields]. case_bool_decide as Hz.
  - rewrite pack_int by done. by destruct (pack_fields fmt vs).
  - by rewrite pack_int_None.
Qed.

Lemma pack_cons_bytes (n : nat) (fmt : list field) (b : bytes) (vs : list value) :
  pack (fS n :: fmt) (SBytes b :: vs)
  = rest ← pack fmt vs; Ok (take n (b ++ repeat x00 n) ++ rest).
Proof. unfold pack. cbn [pack_fields pack_field]. by destruct (pack_fields fmt vs). Qed.

Lemma pack_nil : pack [] [] = Ok [].
Proof. reflexivity. Qed.

Section Builders.
Context (L : EcdsaLib).
Implicit Types (m : SKCManager L) (p : CrispPacket) (w : World).

Lemma sign_packet_type w m p : type_id (sign_packet L w m p) = type_id p.
Proof. reflexivity. Qed.

Lemma sign_packet_section w m p (n : nat) :
  length (payload p) = n →
  take n (payload (sign_packet L w m p)) = payload p
  ∧ slice (Z.of_nat n) (Z.of_nat (n + 2)) (payload (sign_packet L w m p)) = [x00; x01]
  ∧ len (payload (sign_packet L w m p)) <= Z.of_nat n + 34.
Proof.
  intros Hn. rewrite sign_packet_payload. split; [|split].
  - by rewrite take_app_length'.
  - rewrite (slice_app_mid n (n + 2) (payload p) [x00; x01]); [done..|simpl; lia].
  - unfold len. rewrite !length_app, length_take, Hn. cbn [length]. lia.
Qed.

(** X19: [validate_semantics] returns a packet exactly when the two ids
    fit 64 bits and the result fits one byte, whether or not it is 0 or
    1, and raises [struct.error] otherwise.  The packet has type 0x6A,
    which needs an acknowledgement; its payload is the three numbers on
    17 bytes, then the count 1 and at most 32 signature bytes. *)
Theorem validate_semantics_packet w m (entry_id schema_id validation_result : Z) :
  (is_ok (validate_semantics L w m entry_id schema_id validation_result) = true ↔
     0 <= entry_id < 2 ^ 64 ∧ 0 <= schema_id < 2 ^ 64 ∧ 0 <= validation_result < 256)
  ∧ (is_ok (validate_semantics L w m entry_id schema_id validation_result) = false ↔
     validate_semantics L w m entry_id schema_id validation_result = Raise StructError)
  ∧ ∀ r, validate_semantics L w m entry_id schema_id validation_result = Ok r →
      type_id r = 0x6A ∧ needs_ack r = true
      ∧ be_to_Z (slice 0 8 (payload r)) = entry_id
      ∧ be_to_Z (slice 8 16 (payload r)) = schema_id
      ∧ be_to_Z (slice 16 17 (payload r)) = validation_result
      ∧ slice 17 19 (payload r) = [x00; x01]
      ∧ len (payload r) <= 51.
Proof.
  unfold validate_semantics.
  rewrite !pack_cons_int, pack_nil by done.
  change (256 ^ Z.of_nat (field_size fQ)) with (2 ^ 64).
  change (256 ^ Z.of_nat (field_size fB)) with 256.
  change (field_size fQ) with 8%nat. change (field_size fB) with 1%nat.
  case_bool_decide as H1; [|cbn; split; [split; [done|tauto]|by split]].
  case_bool_decide as H2; [|cbn; split; [split; [done|tauto]|by split]].
  case_bool_decide as H3; [|cbn; split; [split; [done|tauto]|by split]].
  set (h1 := be_bytes 8 entry_id). set (h2 := be_bytes 8 schema_id).
  set (h3 := be_bytes 1 validation_result).
  cbn [mbind result_bind is_ok]. split; [done|]. split; [done|].
  intros r <-%Ok_inj. set (p := new_packet _ _ _ _ _).
  assert (length h1 = 8%nat ∧ length h2 = 8%nat ∧ length h3 = 1%nat) as (L1 & L2 & L3)
    by (unfold h1, h2, h3; by rewrite !be_bytes_length).
  assert (payload p = h1 ++ h2 ++ h3) as Hp.
  { unfold p. cbn [payload new_packet]. by rewrite !app_nil_r. }
  assert (length (payload p) = 17%nat) as Hlen.
  { rewrite Hp, !length_app, L1, L2, L3. done. }
  destruct (sign_packet_section w m p 17 Hlen) as (Ht & Hc & Hl).
  split; [done|]. split; [done|].
  assert (∀ i j : nat, (i ≤ j ≤ 17)%nat →
            slice (Z.of_nat i) (Z.of_nat j) (payload (sign_packet L w m p))
            = slice (Z.of_nat i) (Z.of_nat j) (payload p)) as Hs.
  { intros i j Hj. rewrite !slice_nat, <- Ht, !take_drop_commute, take_take.
    do 2 f_equal. lia. }
  split.
  { change (slice 0 8 ?l) with (slice (Z.of_nat 0) (Z.of_nat 8) l).
    rewrite (Hs 0%nat 8%nat), Hp by lia. rewrite <- (app_nil_l (h1 ++ _)).
    rewrite (slice_app_mid 0 8 [] h1) by done. by apply be_to_Z_be_bytes. }
  split.
  { change (slice 8 16 ?l) with (slice (Z.of_nat 8) (Z.of_nat 16) l).
    rewrite (Hs 8%nat 16%nat), Hp by lia.
    rewrite (slice_app_mid 8 16 h1 h2) by done. by apply be_to_Z_be_bytes. }
  split.
  { change (slice 16 17 ?l) with (slice (Z.of_nat 16) (Z.of_nat 17) l).
    rewrite (Hs 16%nat 17%nat), Hp by lia. rewrite app_assoc, <- (app_nil_r h3).
    rewrite (slice_app_mid 16 17 (h1 ++ h2) h3) by (by rewrite ?length_app, ?L1, ?L2).
    by apply be_to_Z_be_bytes. }
  split; [exact Hc|exact Hl].
Qed.

Lemma entry_field_huffman (entries : bytes) :
  take 8 (slice_to 8 (huffman_encode entries) ++ repeat x00 8) = entry_field entries.
Proof.
  unfold huffman_encode, entry_field.
  rewrite (slice_to_take 16 entries : slice_to 16 entries = _).
  rewrite (slice_to_take 8 (take 16 entries) : slice_to 8 _ = _).
  rewrite take_take. change (8 `min` 16)%nat with 8%nat.
  destruct (decide (8 ≤ length entries)%nat) as [Hl|Hl].
  - rewrite !take_app_le by (rewrite ?length_take; lia). by rewrite take_take.
  - by rewrite (take_ge entries) by lia.
Qed.

Lemma range_packet_data m (s e : Z) (entries : bytes) :
  pack [fI; fQ; fQ; fS 8]
    [SInt (skc_version m); SInt s; SInt e; SBytes (slice_to 8 (huffman_encode entries))]
  = if bool_decide (0 <= skc_version m < 2 ^ 32 ∧ 0 <= s < 2 ^ 64 ∧ 0 <= e < 2 ^ 64)
    then Ok (be_bytes 4 (skc_version m) ++ be_bytes 8 s ++ be_bytes 8 e
             ++ entry_field entries)
    else Raise StructError.
Proof.
  rewrite !pack_cons_int, pack_cons_bytes, pack_nil by done.
  change (256 ^ Z.of_nat (field_size fQ)) with (2 ^ 64).
  change (256 ^ Z.of_nat (field_size fI)) with (2 ^ 32).
  change (field_size fQ) with 8%nat. change (field_size fI) with 4%nat.
  rewrite entry_field_huffman.
  repeat case_bool_decide; cbn [mbind result_bind]; rewrite ?app_nil_r; try done; tauto.
Qed.

(** X20: the two range packets carry eight bytes of their entries, the
    first eight, padded with zero bytes when there are fewer: entries
    that agree on that field give the same packet.  [lightweight_sync]
    returns a packet exactly when the version fits 32 bits and the two
    bounds fit 64 bits, and raises [struct.error] otherwise; the packet
    has type 0x70 and a payload of 28 bytes, the field last, then the
    count 1 and at most 32 signature bytes.  [priority_broadcast] builds
    the same payload under type 0x6D. *)
Theorem lightweight_sync_truncates w m (s e : Z) (entries : bytes) :
  (∀ entries', entry_field entries' = entry_field entries →
     lightweight_sync L w m s e entries' = lightweight_sync L w m s e entries
     ∧ priority_broadcast L w m s e entries' = priority_broadcast L w m s e entries)
  ∧ (is_ok (lightweight_sync L w m s e entries) = true ↔
       0 <= skc_version m < 2 ^ 32 ∧ 0 <= s < 2 ^ 64 ∧ 0 <= e < 2 ^ 64)
  ∧ (is_ok (lightweight_sync L w m s e entries) = false ↔
       lightweight_sync L w m s e entries = Raise StructError)
  ∧ (payload <$> priority_broadcast L w m s e entries
     = payload <$> lightweight_sync L w m s e entries)
  ∧ (type_id <$> priority_broadcast L w m s e entries
     = (fun _ => 0x6D) <$> lightweight_sync L w m s e entries)
  ∧ ∀ r, lightweight_sync L w m s e entries = Ok r →
      type_id r = 0x70 ∧ needs_ack r = true
      ∧ slice 20 28 (payload r) = entry_field entries
      ∧ slice 28 30 (payload r) = [x00; x01]
      ∧ len (payload r) <= 62.
Proof.
  unfold lightweight_sync, priority_broadcast. split.
  { intros entries' Hf. rewrite !range_packet_data, Hf. done. }
  rewrite !range_packet_data.
  set (h4 := be_bytes 4 (skc_version m)). set (h8 := be_bytes 8 s).
  set (h8' := be_bytes 8 e).
  case_bool_decide as Hr; cbn [mbind result_bind is_ok fmap result_fmap];
    [|split; [split; [done|tauto]|by repeat split]].
  split; [done|]. split; [done|]. split; [done|]. split; [done|].
  intros r <-%Ok_inj. set (p := new_packet _ _ _ _ _).
  assert (length h4 = 4%nat ∧ length h8 = 8%nat ∧ length h8' = 8%nat) as (L4 & L8 & L8')
    by (unfold h4, h8, h8'; by rewrite !be_bytes_length).
  assert (length (entry_field entries) = 8%nat) as Lf.
  { unfold entry_field. rewrite length_take, length_app, repeat_length. lia. }
  assert (payload p = h4 ++ h8 ++ h8' ++ entry_field entries) as Hp by done.
  assert (length (payload p) = 28%nat) as Hlen.
  { rewrite Hp, !length_app, L4, L8, L8', Lf. done. }
  destruct (sign_packet_section w m p 28 Hlen) as (Ht & Hc & Hl).
  split; [done|]. split; [done|]. split; [|split; [exact Hc|exact Hl]].
  change (slice 20 28 ?l) with (slice (Z.of_nat 20) (Z.of_nat 28) l).
  rewrite slice_nat, take_drop_commute. change (20 + (28 - 20))%nat with 28%nat.
  rewrite Ht, Hp, !app_assoc.
  rewrite drop_app_length' by (by rewrite !length_app, L4, L8, L8'). done.
Qed.

Lemma mapping_record_length (pm : Z * string) : length (mapping_record pm) = 40%nat.
Proof.
  unfold mapping_record.
  rewrite length_app, be_bytes_length, length_take, length_app, repeat_length. lia.
Qed.

Lemma mapping_records_length (mappings : list (Z * string)) :
  length (concat (map mapping_record mappings)) = (40 * length mappings)%nat.
Proof.
  induction mappings as [|pm rest IH]; [done|].
  cbn [map concat length]. rewrite length_app, mapping_record_length, IH. lia.
Qed.

Lemma pack_mappings_spec (mappings : list (Z * string)) :
  pack_mappings mappings
  = if bool_decide (Forall (fun pm => 0 <= fst pm < 2 ^ 64) mappings)
    then Ok (concat (map mapping_record mappings))
    else Raise StructError.
Proof.
  induction mappings as [|[part_id node] rest IH]; [done|].
  cbn [pack_mappings]. rewrite pack_cons_int, pack_cons_bytes, pack_nil, IH by done.
  change (256 ^ Z.of_nat (field_size fQ)) with (2 ^ 64).
  change (field_size fQ) with 8%nat.
  destruct (decide (0 <= part_id < 2 ^ 64)) as [Hp|Hp].
  - rewrite (bool_decide_eq_true_2 _ Hp). cbn [mbind result_bind].
    case_bool_decide as Hr.
    + rewrite bool_decide_eq_true_2 by (by constructor).
      cbn [mbind result_bind map concat]. unfold mapping_record at 2. cbn [fst snd].
      by rewrite app_nil_r.
    + rewrite bool_decide_eq_false_2; [done|]. by intros [_ ?]%Forall_cons.
  - rewrite (bool_decide_eq_false_2 _ Hp). cbn [mbind result_bind].
    rewrite bool_decide_eq_false_2; [done|]. by intros [? _]%Forall_cons.
Qed.

(** X21: [update_global_partition_directory] returns a packet exactly
    when the version fits 32 bits, there are fewer than 65536 mappings
    and every partition id fits 64 bits, and raises [struct.error]
    otherwise.  The packet has type 0x6B; its payload is the version, the
    number of mappings and 40 bytes for each mapping, then the count 1
    and at most 32 signature bytes.  A node name keeps its first 32
    bytes only. *)
Theorem update_global_partition_directory_packet w m (mappings : list (Z * string)) :
  (is_ok (update_global_partition_directory L w m mappings) = true ↔
     0 <= skc_version m < 2 ^ 32 ∧ len mappings < 65536
     ∧ Forall (fun pm => 0 <= fst pm < 2 ^ 64) mappings)
  ∧ (is_ok (update_global_partition_directory L w m mappings) = false ↔
     update_global_partition_directory L w m mappings = Raise StructError)
  ∧ ∀ r, update_global_partition_directory L w m mappings = Ok r →
      let n := length mappings in
      type_id r = 0x6B ∧ needs_ack r = true
      ∧ take (6 + 40 * n) (payload r)
        = be_bytes 4 (skc_version m) ++ be_bytes 2 (len mappings)
          ++ concat (map mapping_record mappings)
      ∧ slice (Z.of_nat (6 + 40 * n)) (Z.of_nat (6 + 40 * n + 2)) (payload r) = [x00; x01]
      ∧ len (payload r) <= Z.of_nat (6 + 40 * n) + 34.
Proof.
  unfold update_global_partition_directory.
  rewrite !pack_cons_int, pack_nil, pack_mappings_spec by done.
  change (256 ^ Z.of_nat (field_size fI)) with (2 ^ 32).
  change (256 ^ Z.of_nat (field_size fH)) with 65536.
  change (field_size fI) with 4%nat. change (field_size fH) with 2%nat.
  set (h4 := be_bytes 4 (skc_version m)). set (h2 := be_bytes 2 (len mappings)).
  assert (0 <= len mappings) as Hn by (unfold len; lia).
  destruct (decide (0 <= skc_version m < 2 ^ 32)) as [H1|H1];
    [rewrite (bool_decide_eq_true_2 _ H1)
    |rewrite (bool_decide_eq_false_2 _ H1); cbn [mbind result_bind is_ok];
     split; [split; [done|tauto]|by split]].
  destruct (decide (0 <= len mappings < 65536)) as [H2|H2];
    [rewrite (bool_decide_eq_true_2 _ H2)
    |rewrite (bool_decide_eq_false_2 _ H2); cbn [mbind result_bind is_ok];
     split; [split; [done|intros (_ & ? & _); lia]|by split]].
  destruct (decide (Forall (fun pm => 0 <= fst pm < 2 ^ 64) mappings)) as [H3|H3];
    [rewrite (bool_decide_eq_true_2 _ H3)
    |rewrite (bool_decide_eq_false_2 _ H3); cbn [mbind result_bind is_ok];
     split; [split; [done|tauto]|by split]].
  cbn [mbind result_bind is_ok]. split; [split; [intros _; repeat split; tauto || lia|done]|].
  split; [done|]. intros r <-%Ok_inj. set (n := length mappings).
  set (p := new_packet _ _ _ _ _).
  assert (payload p = h4 ++ h2 ++ concat (map mapping_record mappings)) as Hp.
  { unfold p. cbn [payload new_packet]. by rewrite app_nil_r, <- app_assoc. }
  assert (length (payload p) = (6 + 40 * n)%nat) as Hlen.
  { rewrite Hp, !length_app. unfold h4, h2.
    rewrite !be_bytes_length, mapping_records_length. unfold n. lia. }
  destruct (sign_packet_section w m p (6 + 40 * n) Hlen) as (Ht & Hc & Hl).
  split; [done|]. split; [done|]. split; [by rewrite Ht|]. split; [exact Hc|exact Hl].
Qed.

End Builders.

(** ** SKCManager.adjust_sync_interval *)

Lemma seventy_percent_exact_below_90 : forallb seventy_percent_exact (seq 0 90) = true.
Proof. vm_compute. reflexivity. Qed.

Lemma beacon_count_bound {L} (m : SKCManager L) :
  0 <= beacon_count L m <= len (neighbors m).
Proof.
  unfold beacon_count, len.
  pose proof (length_filter (fun n => has_beacon L m n = true) (neighbors m)). lia.
Qed.

(** X22: with fewer than 90 neighbours the interval is 1.0 exactly when
    more than 70 percent of them sent a beacon, and 5.0 otherwise.  With
    90 neighbours the rule is off by one: the float product [90 * 0.7]
    is below 63, so 63 beacons, exactly 70 percent, already give 1.0. *)
Theorem adjust_sync_interval_seventy_percent {L} (m : SKCManager L) :
  (len (neighbors m) < 90 →
   adjust_sync_interval L m
   = if 7 * len (neighbors m) <? 10 * beacon_count L m then 1%Q else 5%Q)
  ∧ (len (neighbors m) = 90 → beacon_count L m = 63 → adjust_sync_interval L m = 1%Q).
Proof.
  unfold adjust_sync_interval. pose proof (beacon_count_bound m) as Hc. split.
  - intros Hn. pose proof seventy_percent_exact_below_90 as Ht.
    rewrite forallb_forall in Ht.
    specialize (Ht (length (neighbors m))). unfold len in *.
    rewrite in_seq in Ht. specialize (Ht ltac:(lia)).
    unfold seventy_percent_exact in Ht. rewrite forallb_forall in Ht.
    specialize (Ht (Z.to_nat (beacon_count L m))). rewrite in_seq in Ht.
    specialize (Ht ltac:(lia)). rewrite Z2Nat.id in Ht by lia.
    apply Bool.eqb_prop in Ht. by rewrite Ht.
  - intros Hn Hb. rewrite Hn, Hb. reflexivity.
Qed.

(** A node with 90 neighbours and 63 beacons. *)
Example adjust_sync_interval_ninety :
  len (neighbors Cases.crowd) = 90 ∧ beacon_count Sample.lib Cases.crowd = 63
  ∧ adjust_sync_interval Sample.lib Cases.crowd = 1%Q
  ∧ (7 * 90 <? 10 * 63) = false.
Proof. vm_compute. done. Qed.

(** ** CrispPacket.__init__ and _calculate_checksum *)

(** X23: the checksum the constructor computes is always four bytes
    long: for checksum type 1 the CRC-32C of the payload, big-endian,
    and for every other type the first four bytes of its SHA-256 digest.
    The four-byte header field of an encoding therefore holds it
    unchanged. *)
Theorem new_packet_checksum (now : Q) (tid : Z) (data : bytes) (seq : option Z)
    (ctype : Z) :
  let p := new_packet now tid data seq ctype in
  length (checksum p) = 4%nat
  ∧ (ctype = 1 → be_to_Z (checksum p) = crc32 data)
  ∧ (ctype ≠ 1 → checksum p = take 4 (sha256 data))
  ∧ ∀ encoded, encode p = Ok encoded → wire_checksum encoded = checksum p.
Proof.
  intros p.
  assert (length (checksum p) = 4%nat) as Hlen.
  { unfold p. cbn [checksum new_packet]. unfold calculate_checksum.
    destruct (ctype =? 1); [apply be_bytes_length|].
    rewrite (slice_to_take 4 (sha256 data) : slice_to 4 _ = _).
    rewrite length_take, sha256_length. done. }
  split; [exact Hlen|]. split; [|split].
  - intros ->. unfold p. cbn [checksum new_packet]. unfold calculate_checksum.
    change (1 =? 1) with true. cbn iota. apply be_to_Z_be_bytes, crc32_range.
  - intros Hc. unfold p. cbn [checksum new_packet]. unfold calculate_checksum.
    rewrite (proj2 (Z.eqb_neq _ _) Hc).
    apply (slice_to_take 4 (sha256 data)).
  - intros encoded He. pose proof (encode_spec p) as Hs.
    case_bool_decide; rewrite He in Hs; [|done]. apply Ok_inj in Hs. subst encoded.
    unfold wire_checksum. rewrite take_app_length' by done.
    set (h1 := be_bytes 1 _). set (h2 := be_bytes 2 _). set (h4 := be_bytes 4 _).
    rewrite <- !app_assoc, (app_assoc h1 h2), (app_assoc (h1 ++ h2) h4).
    change 7 with (Z.of_nat 7). change 11 with (Z.of_nat 11).
    apply slice_app_mid; [|done].
    unfold h1, h2, h4. by rewrite !length_app, !be_bytes_length.
Qed.
